(** * godev90/orm: the SQL query builder, its validators and its scan entry points

    A shallow embedding of [native.go] (the builder [SqlQueryAdapter], its
    chain methods, [build], [Scan] and [First]) and of the validation helpers
    ([ValidateOrderBy], [ValidateJoinClause], [SanitizeSelectFields], ...),
    followed by the properties proved about them.

    Go strings are byte strings: they are modelled by [string], one [ascii]
    per byte, and [len] is [String.length].  Slices are modelled by lists,
    a [nil] error by [None]. *)

From Stdlib Require Import ZArith NArith String Ascii List Bool Lia.
From stdpp Require Import base option list gmap strings pretty.

Open Scope string_scope.

(* [simpl] may unfold [++] on strings when its first argument is a constructor. *)
#[local] Arguments String.append !_ _ / : simpl nomatch.

(** ** Package [strings] of the Go library, as far as the code calls it *)

Module GoStrings.

Definition code (c : ascii) : N := N_of_ascii c.

Definition between (lo hi : N) (c : ascii) : bool :=
  (lo <=? code c)%N && (code c <=? hi)%N.

(** [c < utf8.RuneSelf]: the byte is an ASCII character on its own. *)
Definition isASCII (c : ascii) : bool := (code c <? 128)%N.

Definition isLower (c : ascii) : bool := between 97 122 c.
Definition isUpper (c : ascii) : bool := between 65 90 c.

Definition upperByte (c : ascii) : ascii :=
  if isLower c then ascii_of_N (code c - 32) else c.

Definition lowerByte (c : ascii) : ascii :=
  if isUpper c then ascii_of_N (code c + 32) else c.

(** What [strings.ToUpper] and [strings.ToLower] do to bytes above 0x7f
    depends on the UTF-8 decoder and on the case tables of package
    [unicode].  An ASCII byte is always a rune of its own, so the result
    on a maximal run of non-ASCII bytes depends on that run only; the two
    functions on runs are the interface taken here. *)
Class UnicodeTables := {
  upperRun : string -> string;
  lowerRun : string -> string
}.

Definition flush (onRun : string -> string) (run : string) : string :=
  match run with
  | EmptyString => EmptyString
  | _ => onRun run
  end.

(** [mapCase onByte onRun run s]: [run] is the non-ASCII run read so far. *)
Fixpoint mapCase (onByte : ascii -> ascii) (onRun : string -> string)
         (run s : string) : string :=
  match s with
  | EmptyString => flush onRun run
  | String c rest =>
      if isASCII c
      then flush onRun run ++ String (onByte c) (mapCase onByte onRun "" rest)
      else mapCase onByte onRun (run ++ String c "") rest
  end.

Definition ToUpper `{UnicodeTables} (s : string) : string :=
  mapCase upperByte upperRun "" s.

Definition ToLower `{UnicodeTables} (s : string) : string :=
  mapCase lowerByte lowerRun "" s.

Definition HasPrefix (s pre : string) : bool := String.prefix pre s.

(** [strings.Contains(s, substr)] *)
Fixpoint Contains (s substr : string) : bool :=
  HasPrefix s substr ||
  match s with
  | EmptyString => false
  | String _ rest => Contains rest substr
  end.

(** [strings.Count(s, substr)] for a one-byte [substr]. *)
Fixpoint Count (s : string) (b : ascii) : nat :=
  match s with
  | EmptyString => 0
  | String c rest => (if Ascii.eqb c b then 1 else 0) + Count rest b
  end.

(** [strings.Join(elems, sep)] *)
Fixpoint Join (elems : list string) (sep : string) : string :=
  match elems with
  | [] => ""
  | [e] => e
  | e :: more => e ++ sep ++ Join more sep
  end.

Fixpoint dropBytes (n : nat) (s : string) : string :=
  match n, s with
  | O, _ => s
  | S _, EmptyString => EmptyString
  | S k, String _ rest => dropBytes k rest
  end.

(** [strings.Replace(s, old, new, 1)]: the first occurrence only. *)
Fixpoint ReplaceFirst (s old new : string) : string :=
  if HasPrefix s old then new ++ dropBytes (String.length old) s
  else match s with
       | EmptyString => EmptyString
       | String c rest => String c (ReplaceFirst rest old new)
       end.

(** [strings.Split(s, sep)] for a one-byte [sep]. *)
Fixpoint Split (s : string) (sep : ascii) : list string :=
  match s with
  | EmptyString => [""]
  | String c rest =>
      if Ascii.eqb c sep then "" :: Split rest sep
      else match Split rest sep with
           | [] => [String c ""]
           | part :: parts => String c part :: parts
           end
  end.

Fixpoint rev (s : string) : string :=
  match s with
  | EmptyString => EmptyString
  | String c rest => rev rest ++ String c ""
  end.

(** The UTF-8 encodings of the runes for which [unicode.IsSpace] holds:
    the six ASCII ones, U+0085, U+00A0, U+1680, U+2000..U+200A, U+2028,
    U+2029, U+202F, U+205F and U+3000. *)
Definition bytes (l : list N) : string :=
  fold_right (fun n s => String (ascii_of_N n) s) "" l.

Definition spaceEncodings : list string :=
  map bytes
    [ [9]; [10]; [11]; [12]; [13]; [32];
      [194; 133]; [194; 160]; [225; 154; 128];
      [226; 128; 128]; [226; 128; 129]; [226; 128; 130]; [226; 128; 131];
      [226; 128; 132]; [226; 128; 133]; [226; 128; 134]; [226; 128; 135];
      [226; 128; 136]; [226; 128; 137]; [226; 128; 138];
      [226; 128; 168]; [226; 128; 169]; [226; 128; 175];
      [226; 129; 159]; [227; 128; 128] ]%N.

(** The space rune [s] starts with, if any. *)
Definition leadingSpace (encs : list string) (s : string) : option string :=
  List.find (HasPrefix s) encs.

Fixpoint trimLeftWith (encs : list string) (fuel : nat) (s : string) : string :=
  match fuel with
  | O => s
  | S k => match leadingSpace encs s with
           | Some sp => trimLeftWith encs k (dropBytes (String.length sp) s)
           | None => s
           end
  end.

Definition TrimLeftSpace (s : string) : string :=
  trimLeftWith spaceEncodings (String.length s) s.

Definition TrimRightSpace (s : string) : string :=
  rev (trimLeftWith (map rev spaceEncodings) (String.length s) (rev s)).

(** [strings.TrimSpace(s)] *)
Definition TrimSpace (s : string) : string :=
  TrimRightSpace (TrimLeftSpace s).

(** [strings.Trim(s, cutset)] for a cutset of ASCII bytes. *)
Fixpoint inCutset (cutset : string) (c : ascii) : bool :=
  match cutset with
  | EmptyString => false
  | String d rest => Ascii.eqb c d || inCutset rest c
  end.

Fixpoint trimLeftCut (cutset s : string) : string :=
  match s with
  | EmptyString => EmptyString
  | String c rest => if inCutset cutset c then trimLeftCut cutset rest else s
  end.

Definition Trim (s cutset : string) : string :=
  rev (trimLeftCut cutset (rev (trimLeftCut cutset s))).

(** [s[idx+1:]] for [idx := strings.LastIndex(s, sep)], a one-byte [sep];
    [None] when [sep] does not occur. *)
Fixpoint afterLast (s : string) (sep : ascii) : option string :=
  match s with
  | EmptyString => None
  | String c rest =>
      match afterLast rest sep with
      | Some tail => Some tail
      | None => if Ascii.eqb c sep then Some rest else None
      end
  end.

End GoStrings.

(** ** Package [regexp]: matching by derivatives

    The four patterns of the code are anchored at both ends ([^...$], no
    flags), so [MatchString] is a match of the whole string.  Every class
    in them is ASCII, and [.] is any rune but a newline: on byte strings
    that is any byte but 0x0a. *)

Module GoRegexp.
Import GoStrings.

Inductive regexp :=
| Void
| Eps
| Class (ranges : list (N * N))
| Dot
| Cat (r1 r2 : regexp)
| Alt (r1 r2 : regexp)
| Star (r : regexp).

Definition Opt (r : regexp) : regexp := Alt r Eps.
Definition Plus (r : regexp) : regexp := Cat r (Star r).

Fixpoint Lit (s : string) : regexp :=
  match s with
  | EmptyString => Eps
  | String c rest => Cat (Class [(code c, code c)]) (Lit rest)
  end.

Fixpoint nullable (r : regexp) : bool :=
  match r with
  | Void => false
  | Eps => true
  | Class _ => false
  | Dot => false
  | Cat r1 r2 => nullable r1 && nullable r2
  | Alt r1 r2 => nullable r1 || nullable r2
  | Star _ => true
  end.

Definition inClass (ranges : list (N * N)) (c : ascii) : bool :=
  existsb (fun '(lo, hi) => between lo hi c) ranges.

Definition cat (r1 r2 : regexp) : regexp :=
  match r1, r2 with
  | Void, _ => Void
  | _, Void => Void
  | Eps, _ => r2
  | _, _ => Cat r1 r2
  end.

Definition alt (r1 r2 : regexp) : regexp :=
  match r1, r2 with
  | Void, _ => r2
  | _, Void => r1
  | _, _ => Alt r1 r2
  end.

Fixpoint deriv (c : ascii) (r : regexp) : regexp :=
  match r with
  | Void => Void
  | Eps => Void
  | Class ranges => if inClass ranges c then Eps else Void
  | Dot => if (code c =? 10)%N then Void else Eps
  | Cat r1 r2 =>
      if nullable r1
      then alt (cat (deriv c r1) r2) (deriv c r2)
      else cat (deriv c r1) r2
  | Alt r1 r2 => alt (deriv c r1) (deriv c r2)
  | Star r1 => cat (deriv c r1) (Star r1)
  end.

Fixpoint MatchString (r : regexp) (s : string) : bool :=
  match s with
  | EmptyString => nullable r
  | String c rest => MatchString (deriv c r) rest
  end.

(** [[a-zA-Z_]], [[a-zA-Z0-9_]] and [\s] *)
Definition identStart : regexp := Class [(97, 122); (65, 90); (95, 95)]%N.
Definition identChar : regexp := Class [(97, 122); (65, 90); (48, 57); (95, 95)]%N.
Definition space : regexp := Class [(9, 10); (12, 13); (32, 32)]%N.

(** [[a-zA-Z_][a-zA-Z0-9_]*] *)
Definition ident : regexp := Cat identStart (Star identChar).

End GoRegexp.

(** ** Validation helpers *)

Import GoStrings GoRegexp.

Inductive error :=
| ErrInvalidIdentifier
| ErrInvalidOrderBy
| ErrInvalidJoinClause
| ErrInvalidColumnName
| ErrIdentifierTooLong
| ErrSuspiciousPattern
| ErrUnsupported
| ErrNilPointer
| ErrTablerNotImplemented
| ErrNotFound
| ErrOther (code : nat).   (* an error of the driver or of a cell conversion *)

Definition maxIdentifierLen : nat := 64.
Definition maxOrderByLen : nat := 256.
Definition maxJoinClauseLen : nat := 512.
Definition maxWhereClauseLen : nat := 1024.

(** [^[a-zA-Z_][a-zA-Z0-9_]*$] *)
Definition sqlIdentifierPattern : regexp := ident.

(** One [[table.]column [ASC|DESC]] term of [orderByPattern]. *)
Definition orderTerm : regexp :=
  Cat ident
    (Cat (Opt (Cat (Lit ".") ident))
       (Cat (Star space) (Opt (Alt (Lit "ASC") (Lit "DESC"))))).

Definition orderByPattern : regexp :=
  Cat orderTerm
    (Star (Cat (Star space) (Cat (Lit ",") (Cat (Star space) orderTerm)))).

(** [^(INNER|LEFT|RIGHT|FULL\s+OUTER)?\s*JOIN\s+ident(\s+AS\s+ident)?\s+ON\s+.+$] *)
Definition joinPattern : regexp :=
  Cat (Opt (Alt (Lit "INNER")
             (Alt (Lit "LEFT")
                (Alt (Lit "RIGHT")
                   (Cat (Lit "FULL") (Cat (Plus space) (Lit "OUTER")))))))
    (Cat (Star space)
       (Cat (Lit "JOIN")
          (Cat (Plus space)
             (Cat ident
                (Cat (Opt (Cat (Plus space)
                             (Cat (Lit "AS") (Cat (Plus space) ident))))
                   (Cat (Plus space)
                      (Cat (Lit "ON") (Cat (Plus space) (Plus Dot))))))))).

(** [^[a-zA-Z0-9_]+$] *)
Definition columnNamePattern : regexp := Plus identChar.

Definition commonSuspiciousPatterns : list string :=
  [ "--"; "/*"; "*/"; ";"; "UNION"; "DELETE"; "DROP"; "INSERT"; "UPDATE";
    "EXEC"; "EXECUTE"; "DECLARE"; "SELECT"; "CREATE"; "ALTER"; "TRUNCATE" ].

Definition databaseMetadataPatterns : list string :=
  [ "INFORMATION_SCHEMA"; "SYS."; "MYSQL."; "PG_" ].

Section Validators.
Context `{UnicodeTables}.

Definition validateSuspiciousPatterns (input : string) (patterns : list string)
  : option error :=
  let upperInput := ToUpper input in
  if existsb (fun pattern => Contains upperInput pattern) patterns
  then Some ErrSuspiciousPattern
  else None.

Definition validateLength (input : string) (maxLen : nat) (errType : error)
  : option error :=
  if (maxLen <? String.length input)%nat then Some errType else None.

Definition validateOrderByFormat (orderBy : string) : option error :=
  if negb (MatchString orderByPattern (TrimSpace orderBy))
  then Some ErrInvalidOrderBy
  else None.

Definition ValidateOrderBy (orderBy : string) : option error :=
  if (String.length orderBy =? 0)%nat then None
  else match validateLength orderBy maxOrderByLen ErrInvalidOrderBy with
       | Some err => Some err
       | None =>
           match validateSuspiciousPatterns orderBy commonSuspiciousPatterns with
           | Some err => Some err
           | None => validateOrderByFormat orderBy
           end
       end.

Definition validateJoinFormat (joinClause : string) : option error :=
  if negb (MatchString joinPattern (TrimSpace joinClause))
  then Some ErrInvalidJoinClause
  else None.

Definition ValidateJoinClause (joinClause : string) : option error :=
  if (String.length joinClause =? 0)%nat then None
  else match validateLength joinClause maxJoinClauseLen ErrInvalidJoinClause with
       | Some err => Some err
       | None =>
           match validateSuspiciousPatterns joinClause commonSuspiciousPatterns with
           | Some err => Some err
           | None => validateJoinFormat joinClause
           end
       end.

Definition ValidateColumnName (columnName : string) : option error :=
  if (String.length columnName =? 0)%nat then Some ErrInvalidColumnName
  else if (maxIdentifierLen <? String.length columnName)%nat then Some ErrIdentifierTooLong
  else if negb (MatchString columnNamePattern columnName) then Some ErrInvalidColumnName
  else None.

Definition ValidateIdentifier (identifier : string) : option error :=
  if (String.length identifier =? 0)%nat then Some ErrInvalidIdentifier
  else if (maxIdentifierLen <? String.length identifier)%nat then Some ErrIdentifierTooLong
  else if negb (MatchString sqlIdentifierPattern identifier) then Some ErrInvalidIdentifier
  else None.

(** The loop of [SanitizeColumnNames]; [sanitized] is the slice built so far. *)
Fixpoint sanitizeColumnsLoop (columns sanitized : list string)
  : error + list string :=
  match columns with
  | [] => inr sanitized
  | col :: more =>
      let trimmed := TrimSpace col in
      match ValidateColumnName trimmed with
      | Some err => inl err
      | None => sanitizeColumnsLoop more (sanitized ++ [trimmed])%list
      end
  end.

Definition SanitizeColumnNames (columns : list string) : error + list string :=
  sanitizeColumnsLoop columns [].

Definition ValidateWhereClause (whereClause : string) : option error :=
  match validateLength whereClause maxWhereClauseLen ErrSuspiciousPattern with
  | Some err => Some err
  | None =>
      let allPatterns := (commonSuspiciousPatterns ++ databaseMetadataPatterns)%list in
      validateSuspiciousPatterns whereClause allPatterns
  end.

(** The loop over [parts] in [validateTableColumnFormat]. *)
Fixpoint validateParts (parts : list string) : option error :=
  match parts with
  | [] => None
  | part :: more =>
      match ValidateIdentifier part with
      | Some err => Some err
      | None => validateParts more
      end
  end.

Definition validateTableColumnFormat (field : string) : error + string :=
  let parts := Split field "." in
  if (2 <? length parts)%nat then inl ErrInvalidColumnName
  else match validateParts parts with
       | Some err => inl err
       | None => inr field
       end.

Definition sanitizeSelectField (field : string) : error + string :=
  let trimmed := TrimSpace field in
  if String.eqb trimmed "*" then inr trimmed
  else validateTableColumnFormat trimmed.

Fixpoint sanitizeFieldsLoop (fields sanitized : list string)
  : error + list string :=
  match fields with
  | [] => inr sanitized
  | field :: more =>
      match sanitizeSelectField field with
      | inl err => inl err
      | inr sanitizedField => sanitizeFieldsLoop more (sanitized ++ [sanitizedField])%list
      end
  end.

Definition SanitizeSelectFields (fields : list string) : error + list string :=
  if (length fields =? 0)%nat then inr fields
  else sanitizeFieldsLoop fields [].

(** The aggregate-function test in the loop body has an empty branch; what
    remains is [ValidateWhereClause] on each clause. *)
Fixpoint ValidateHavingClause (having : list string) : option error :=
  match having with
  | [] => None
  | clause :: more =>
      match ValidateWhereClause clause with
      | Some err => Some err
      | None => ValidateHavingClause more
      end
  end.

End Validators.

(** ** The builder state *)

(** The dynamic values ([any]) handed to the builder as arguments.  [VSeq] is
    a value whose [reflect] kind is [Slice] or [Array]; [VOther] is any
    other value, known by what [fmt.Sprint] prints for it. *)
#[warnings="-register-all"]
Inductive value :=
| VNil
| VBool (b : bool)
| VInt (n : Z)
| VStr (s : string)
| VSeq (elems : list value)
| VOther (printed : string).

(** A [Tabler] interface value: the identity of the dynamic value it holds
    and what its [TableName] method returns. *)
Record Tabler := { tablerId : N; TableName : string }.

Definition Tabler_eqb (a b : Tabler) : bool :=
  (tablerId a =? tablerId b)%N && String.eqb (TableName a) (TableName b).

Inductive driverFlavor := FlavorMySQL | FlavorPostgres.

(** [sql.RawBytes]: [None] is a nil cell. *)
Definition RawBytes := option string.

(** [*sql.Rows]: the column names, the rows the cursor will deliver (each is
    what [rows.Scan] gives: an error or the cells) and what [rows.Err]
    reports once [rows.Next] has returned false. *)
Record Rows := {
  Columns : list string;
  pending : list (error + list RawBytes);
  Err : option error
}.

(** [*sql.DB] as the builder sees it: [QueryContext] on a statement and its
    arguments. *)
Definition DB := string -> list value -> error + Rows.

(** [SqlQueryAdapter].  The field [scopes] is left out: no method reads it. *)
Record SqlQueryAdapter := {
  db : DB;
  ctx : nat;
  flavor : driverFlavor;
  table : string;
  fields : list string;
  groups : list string;
  havings : list string;
  havingArgs : list value;
  joins : list string;
  joinArgs : list value;
  wheres : list string;
  whereArgs : list value;
  orWheres : list string;
  orArgs : list value;
  orderBy : string;
  limit : option Z;
  offset : option Z;
  model : option Tabler
}.

(** The condition ([cond any]) of [Where] and [Or]: a value, or a pointer to
    a builder together with what [fmt.Sprint] prints for that pointer. *)
Inductive Cond :=
| CondValue (v : value)
| CondBuilder (sub : SqlQueryAdapter) (printed : string).

Definition Text (s : string) : Cond := CondValue (VStr s).

(** *** Field updates *)

Definition set_table (q : SqlQueryAdapter) (x : string) : SqlQueryAdapter :=
  {| db := db q; ctx := ctx q; flavor := flavor q; table := x;
     fields := fields q; groups := groups q; havings := havings q;
     havingArgs := havingArgs q; joins := joins q; joinArgs := joinArgs q;
     wheres := wheres q; whereArgs := whereArgs q; orWheres := orWheres q;
     orArgs := orArgs q; orderBy := orderBy q; limit := limit q;
     offset := offset q; model := model q |}.

Definition set_fields (q : SqlQueryAdapter) (x : list string) : SqlQueryAdapter :=
  {| db := db q; ctx := ctx q; flavor := flavor q; table := table q;
     fields := x; groups := groups q; havings := havings q;
     havingArgs := havingArgs q; joins := joins q; joinArgs := joinArgs q;
     wheres := wheres q; whereArgs := whereArgs q; orWheres := orWheres q;
     orArgs := orArgs q; orderBy := orderBy q; limit := limit q;
     offset := offset q; model := model q |}.

Definition set_groups (q : SqlQueryAdapter) (x : list string) : SqlQueryAdapter :=
  {| db := db q; ctx := ctx q; flavor := flavor q; table := table q;
     fields := fields q; groups := x; havings := havings q;
     havingArgs := havingArgs q; joins := joins q; joinArgs := joinArgs q;
     wheres := wheres q; whereArgs := whereArgs q; orWheres := orWheres q;
     orArgs := orArgs q; orderBy := orderBy q; limit := limit q;
     offset := offset q; model := model q |}.

Definition set_having (q : SqlQueryAdapter) (x : list string) (a : list value)
  : SqlQueryAdapter :=
  {| db := db q; ctx := ctx q; flavor := flavor q; table := table q;
     fields := fields q; groups := groups q; havings := x;
     havingArgs := a; joins := joins q; joinArgs := joinArgs q;
     wheres := wheres q; whereArgs := whereArgs q; orWheres := orWheres q;
     orArgs := orArgs q; orderBy := orderBy q; limit := limit q;
     offset := offset q; model := model q |}.

Definition set_join (q : SqlQueryAdapter) (x : list string) (a : list value)
  : SqlQueryAdapter :=
  {| db := db q; ctx := ctx q; flavor := flavor q; table := table q;
     fields := fields q; groups := groups q; havings := havings q;
     havingArgs := havingArgs q; joins := x; joinArgs := a;
     wheres := wheres q; whereArgs := whereArgs q; orWheres := orWheres q;
     orArgs := orArgs q; orderBy := orderBy q; limit := limit q;
     offset := offset q; model := model q |}.

Definition set_where (q : SqlQueryAdapter) (x : list string) (a : list value)
  : SqlQueryAdapter :=
  {| db := db q; ctx := ctx q; flavor := flavor q; table := table q;
     fields := fields q; groups := groups q; havings := havings q;
     havingArgs := havingArgs q; joins := joins q; joinArgs := joinArgs q;
     wheres := x; whereArgs := a; orWheres := orWheres q;
     orArgs := orArgs q; orderBy := orderBy q; limit := limit q;
     offset := offset q; model := model q |}.

Definition set_or (q : SqlQueryAdapter) (x : list string) (a : list value)
  : SqlQueryAdapter :=
  {| db := db q; ctx := ctx q; flavor := flavor q; table := table q;
     fields := fields q; groups := groups q; havings := havings q;
     havingArgs := havingArgs q; joins := joins q; joinArgs := joinArgs q;
     wheres := wheres q; whereArgs := whereArgs q; orWheres := x;
     orArgs := a; orderBy := orderBy q; limit := limit q;
     offset := offset q; model := model q |}.

Definition set_orderBy (q : SqlQueryAdapter) (x : string) : SqlQueryAdapter :=
  {| db := db q; ctx := ctx q; flavor := flavor q; table := table q;
     fields := fields q; groups := groups q; havings := havings q;
     havingArgs := havingArgs q; joins := joins q; joinArgs := joinArgs q;
     wheres := wheres q; whereArgs := whereArgs q; orWheres := orWheres q;
     orArgs := orArgs q; orderBy := x; limit := limit q;
     offset := offset q; model := model q |}.

Definition set_limit (q : SqlQueryAdapter) (x : option Z) : SqlQueryAdapter :=
  {| db := db q; ctx := ctx q; flavor := flavor q; table := table q;
     fields := fields q; groups := groups q; havings := havings q;
     havingArgs := havingArgs q; joins := joins q; joinArgs := joinArgs q;
     wheres := wheres q; whereArgs := whereArgs q; orWheres := orWheres q;
     orArgs := orArgs q; orderBy := orderBy q; limit := x;
     offset := offset q; model := model q |}.

Definition set_offset (q : SqlQueryAdapter) (x : option Z) : SqlQueryAdapter :=
  {| db := db q; ctx := ctx q; flavor := flavor q; table := table q;
     fields := fields q; groups := groups q; havings := havings q;
     havingArgs := havingArgs q; joins := joins q; joinArgs := joinArgs q;
     wheres := wheres q; whereArgs := whereArgs q; orWheres := orWheres q;
     orArgs := orArgs q; orderBy := orderBy q; limit := limit q;
     offset := x; model := model q |}.

Definition set_model (q : SqlQueryAdapter) (x : option Tabler) : SqlQueryAdapter :=
  {| db := db q; ctx := ctx q; flavor := flavor q; table := table q;
     fields := fields q; groups := groups q; havings := havings q;
     havingArgs := havingArgs q; joins := joins q; joinArgs := joinArgs q;
     wheres := wheres q; whereArgs := whereArgs q; orWheres := orWheres q;
     orArgs := orArgs q; orderBy := orderBy q; limit := limit q;
     offset := offset q; model := x |}.

(** ** Package [fmt] *)

(** [fmt.Sprint] of an [int]. *)
Definition SprintInt (n : Z) : string := pretty n.

(** [fmt.Sprint] of one value. *)
Fixpoint Sprint (v : value) : string :=
  match v with
  | VNil => "<nil>"
  | VBool true => "true"
  | VBool false => "false"
  | VInt n => SprintInt n
  | VStr s => s
  | VSeq elems => "[" ++ GoStrings.Join (map Sprint elems) " " ++ "]"
  | VOther printed => printed
  end.

(** ** The chain methods *)

Definition toString (v : Cond) : string :=
  match v with
  | CondValue (VStr t) => t
  | CondValue t => Sprint t
  | CondBuilder _ printed => printed
  end.

(** [detectFlavor] reads the type name of the driver; the outcome is the
    argument here. *)
Definition NewSqlAdapter (conn : DB) (detected : driverFlavor) : SqlQueryAdapter :=
  {| db := conn; ctx := 0; flavor := detected; table := "";
     fields := ["*"]; groups := []; havings := []; havingArgs := [];
     joins := []; joinArgs := []; wheres := []; whereArgs := [];
     orWheres := []; orArgs := []; orderBy := ""; limit := None;
     offset := None; model := None |}.

(** [clone] copies the struct and re-allocates the slices it lists.  Lists
    are values, so the copy is equal to the original; the builders that are
    addressed (by [Scan] and [First]) live in the heap below. *)
Definition clone (q : SqlQueryAdapter) : SqlQueryAdapter := q.

Definition UseModel (q : SqlQueryAdapter) (m : Tabler) : SqlQueryAdapter :=
  let cp := clone q in
  set_table (set_model cp (Some m)) (TableName m).

Definition model_eqb (a b : option Tabler) : bool :=
  match a, b with
  | Some x, Some y => Tabler_eqb x y
  | None, None => true
  | _, _ => false
  end.

(** The loop of [Where] that counts the common leading fragments; [i] runs
    over both lists at once. *)
Fixpoint commonPrefix (qWheres subWheres : list string) : nat * nat :=
  match qWheres, subWheres with
  | w :: qRest, s :: subRest =>
      if String.eqb s w
      then let '(common, argsToDrop) := commonPrefix qRest subRest in
           (S common, Count w "?" + argsToDrop)
      else (0, 0)
  | _, _ => (0, 0)
  end.

(** The grouped predicate written into the [strings.Builder]. *)
Definition groupText (subWheres subOrWheres : list string) : string :=
  "(" ++
  (if (0 <? length subWheres)%nat then GoStrings.Join subWheres " AND " else "") ++
  (if (0 <? length subOrWheres)%nat
   then (if (0 <? length subWheres)%nat then " OR " else "") ++
        "(" ++ GoStrings.Join subOrWheres " OR " ++ ")"
   else "") ++
  ")".

(** One turn of the loop over [args] in [Where]. *)
Definition expandArg (st : string * list value) (arg : value)
  : string * list value :=
  let '(condStr, finalArgs) := st in
  match arg with
  | VSeq [] => ("1=0", finalArgs)
  | VSeq elems =>
      let placeholders := repeat "?" (length elems) in
      (ReplaceFirst condStr "?" ("(" ++ GoStrings.Join placeholders ", " ++ ")"),
       (finalArgs ++ elems)%list)
  | _ => (condStr, (finalArgs ++ [arg])%list)
  end.

Definition Where (q : SqlQueryAdapter) (cond : Cond) (args : list value)
  : SqlQueryAdapter :=
  let cp := clone q in
  match cond with
  | CondBuilder sub _ =>
      let '(subWheres, subWhereArgs) :=
        if model_eqb (model sub) (model q)
           && (0 <? length (wheres q))%nat
           && (length (wheres q) <=? length (wheres sub))%nat
        then
          let '(common, argsToDrop) := commonPrefix (wheres q) (wheres sub) in
          if (0 <? common)%nat
          then (drop common (wheres sub),
                if (argsToDrop <=? length (whereArgs sub))%nat
                then drop argsToDrop (whereArgs sub)
                else [])
          else (wheres sub, whereArgs sub)
        else (wheres sub, whereArgs sub) in
      set_where cp
        (wheres cp ++ [groupText subWheres (orWheres sub)])%list
        ((whereArgs cp ++ subWhereArgs) ++ orArgs sub)%list
  | _ =>
      let '(condStr, finalArgs) := fold_left expandArg args (toString cond, []) in
      set_where cp (wheres cp ++ [condStr])%list (whereArgs cp ++ finalArgs)%list
  end.

Definition Or (q : SqlQueryAdapter) (cond : Cond) (args : list value)
  : SqlQueryAdapter :=
  let cp := clone q in
  set_or cp (orWheres cp ++ [toString cond])%list (orArgs cp ++ args)%list.

Definition Limit (q : SqlQueryAdapter) (l : Z) : SqlQueryAdapter :=
  set_limit (clone q) (Some l).

Definition Offset (q : SqlQueryAdapter) (o : Z) : SqlQueryAdapter :=
  set_offset (clone q) (Some o).

Definition UnsafeOrder (q : SqlQueryAdapter) (order : string) : SqlQueryAdapter :=
  set_orderBy (clone q) order.

Section Chain.
Context `{UnicodeTables}.

Definition Join (q : SqlQueryAdapter) (joinClause : string) (args : list value)
  : SqlQueryAdapter :=
  match ValidateJoinClause joinClause with
  | Some _ => q
  | None =>
      let cp := clone q in
      set_join cp (joins cp ++ [joinClause])%list (joinArgs cp ++ args)%list
  end.

Definition Select (q : SqlQueryAdapter) (sel : list string) : SqlQueryAdapter :=
  match SanitizeSelectFields sel with
  | inl _ => q
  | inr sanitized =>
      let cp := clone q in
      if (0 <? length sanitized)%nat then set_fields cp sanitized else cp
  end.

Definition GroupBy (q : SqlQueryAdapter) (cols : list string) : SqlQueryAdapter :=
  match SanitizeColumnNames cols with
  | inl _ => q
  | inr sanitized =>
      let cp := clone q in
      if (0 <? length sanitized)%nat then set_groups cp sanitized else cp
  end.

Definition Having (q : SqlQueryAdapter) (cols : list string) (args : list value)
  : SqlQueryAdapter :=
  match ValidateHavingClause cols with
  | Some _ => q
  | None =>
      let cp := clone q in
      if (0 <? length cols)%nat
      then set_having cp cols (havingArgs cp ++ args)%list
      else cp
  end.

Definition Order (q : SqlQueryAdapter) (order : string) : SqlQueryAdapter :=
  match ValidateOrderBy order with
  | Some _ => q
  | None => set_orderBy (clone q) order
  end.

End Chain.

(** ** Statement assembly *)

(** The last loop of [build]: every [?] byte becomes [$] and the next
    number; [idx] is the counter before the byte is read. *)
Fixpoint numberMarkers (idx : nat) (sqlStr : string) : string :=
  match sqlStr with
  | EmptyString => EmptyString
  | String c rest =>
      if Ascii.eqb c "?"
      then "$" ++ SprintInt (Z.of_nat (S idx)) ++ numberMarkers (S idx) rest
      else String c (numberMarkers idx rest)
  end.

(** The text written into the [strings.Builder] and the argument slice,
    before the dialect is looked at. *)
Definition assemble (q : SqlQueryAdapter) (count : bool) : string * list value :=
  let head :=
    (if count then "SELECT COUNT(1) FROM "
     else "SELECT " ++ GoStrings.Join (fields q) ", " ++ " FROM ") ++ table q in
  let joinText :=
    if (0 <? length (joins q))%nat then " " ++ GoStrings.Join (joins q) " " else "" in
  let hasWheres := (0 <? length (wheres q))%nat in
  let hasOrs := (0 <? length (orWheres q))%nat in
  let whereText :=
    if hasWheres || hasOrs
    then " WHERE " ++
         (if hasWheres then GoStrings.Join (wheres q) " AND " else "") ++
         (if hasOrs
          then (if hasWheres then " OR " else "") ++
               "(" ++ GoStrings.Join (orWheres q) " OR " ++ ")"
          else "")
    else "" in
  let whereArgList :=
    ((if hasWheres then whereArgs q else []) ++
     (if hasOrs then orArgs q else []))%list in
  let groupByText :=
    if (0 <? length (groups q))%nat && negb count
    then " GROUP BY " ++ GoStrings.Join (groups q) ", " else "" in
  let hasHaving := (0 <? length (havings q))%nat && negb count in
  let havingText :=
    if hasHaving then " HAVING " ++ GoStrings.Join (havings q) ", " else "" in
  let orderText :=
    if negb (String.eqb (orderBy q) "") && negb count
    then " ORDER BY " ++ orderBy q else "" in
  let limitText :=
    match limit q with
    | Some l => if negb count then " LIMIT " ++ SprintInt l else ""
    | None => ""
    end in
  let offsetText :=
    match offset q with
    | Some o => if negb count then " OFFSET " ++ SprintInt o else ""
    | None => ""
    end in
  (head ++ joinText ++ whereText ++ groupByText ++ havingText ++ orderText
     ++ limitText ++ offsetText,
   (joinArgs q ++ whereArgList ++ (if hasHaving then havingArgs q else []))%list).

Definition build (q : SqlQueryAdapter) (count : bool) : string * list value :=
  let '(sqlStr, args) := assemble q count in
  match flavor q with
  | FlavorPostgres => (numberMarkers 0 sqlStr, args)
  | FlavorMySQL => (sqlStr, args)
  end.

(** ** Destinations of [Scan] and [First] *)

(** What the code learns by reflection about a struct type: the map built by
    [buildFieldMap] (lower-cased column name to field index), the zero value
    [reflect.New] allocates, and the outcome of [convertAssign] on field
    [fi] holding [cur] for a cell: an error or the value stored. *)
Record StructType := {
  fieldMap : gmap string nat;
  zero : list value;
  convertAssign : nat -> value -> RawBytes -> error + value
}.

(** What a destination pointer points to: a struct, a slice (whose element
    type may be no struct) or anything else. *)
Inductive Pointee :=
| PStruct (t : StructType) (fieldVals : list value)
| PSlice (elemTyp : option StructType) (elems : list (list value))
| POther.

(** [reflect.ValueOf(dest)] *)
Inductive Reflected :=
| NotPointer
| NilPointer
| PointerTo (target : Pointee).

(** A destination [dest any]: the outcome of the assertion [dest.(Tabler)]
    and the reflected value. *)
Record Dest := { asTabler : option Tabler; reflected : Reflected }.

Definition retarget (dest : Dest) (target : Pointee) : Dest :=
  {| asTabler := asTabler dest; reflected := PointerTo target |}.

(** How a call ends: it returns an error value ([None] is nil) or panics. *)
Inductive outcome :=
| Return (err : option error)
| Panic.

(** The builders that are held by pointer, and the statements handed to
    [QueryContext] so far, oldest first. *)
Record World := {
  heap : gmap N SqlQueryAdapter;
  wire : list (string * list value)
}.

Definition store (w : World) (p : N) (q : SqlQueryAdapter) : World :=
  {| heap := <[p := q]> (heap w); wire := wire w |}.

Definition send (w : World) (sqlStr : string) (args : list value) : World :=
  {| heap := heap w; wire := (wire w ++ [(sqlStr, args)])%list |}.

Section Execution.
Context `{UnicodeTables}.

Definition normalize (col : string) : string :=
  let col := Trim col (bytes [96; 34]%N) in   (* backquote and double quote *)
  let col := match afterLast col "." with
             | Some tail => tail
             | None => col
             end in
  ToLower col.

(** [for ci, col := range cols]: the cells are [raw[ci]]; an error leaves
    the fields assigned so far in place. *)
Fixpoint assignColumns (t : StructType) (cols : list string) (ci : nat)
         (raw : list RawBytes) (rec : list value) : list value * option error :=
  match cols with
  | [] => (rec, None)
  | col :: more =>
      match fieldMap t !! normalize col with
      | Some fi =>
          match convertAssign t fi (default VNil (rec !! fi))
                  (default None (raw !! ci)) with
          | inl err => (rec, Some err)
          | inr v => assignColumns t more (S ci) raw (<[fi := v]> rec)
          end
      | None => assignColumns t more (S ci) raw rec
      end
  end.

(** The [model == nil] test at the head of [Scan] and [First], for the
    receiver [q] read at address [p]: the two assignments write through
    the pointer.  The result is the world and the receiver after it, or
    the error returned. *)
Definition bindModel (w : World) (p : N) (q : SqlQueryAdapter) (dest : Dest)
  : error + World * SqlQueryAdapter :=
  match model q with
  | None =>
      match asTabler dest with
      | Some t =>
          let q := set_model q (Some t) in
          let q := set_table q (TableName t) in
          inr (store w p q, q)
      | None => inl ErrTablerNotImplemented
      end
  | Some _ => inr (w, q)
  end.

(** [for rows.Next()] of the slice case of [Scan]: [slice] grows by one
    element per row; an error ends the call before the destination is
    set. *)
Fixpoint scanRows (t : StructType) (cols : list string)
         (rows : list (error + list RawBytes)) (slice : list (list value))
  : error + list (list value) :=
  match rows with
  | [] => inr slice
  | inl err :: _ => inl err
  | inr raw :: more =>
      match assignColumns t cols 0 raw (zero t) with
      | (_, Some err) => inl err
      | (elem, None) => scanRows t cols more (slice ++ [elem])%list
      end
  end.

(** [Scan], from [rows.Columns()] on.  A pointer to a slice takes the
    [reflect.Slice] case whatever the elements are, so the test for
    [*[]map[string]any] below the switch is never reached with one; when
    the element type is no struct, [buildFieldMap] panics. *)
Definition scanInto (rows : Rows) (dest : Dest) : Dest * outcome :=
  match reflected dest with
  | NotPointer | NilPointer => (dest, Return (Some ErrNilPointer))
  | PointerTo (PSlice None _) => (dest, Panic)
  | PointerTo (PSlice (Some t) elems) =>
      match scanRows t (Columns rows) (pending rows) elems with
      | inl err => (dest, Return (Some err))
      | inr slice => (retarget dest (PSlice (Some t) slice), Return (Err rows))
      end
  | PointerTo (PStruct t rec) =>
      match pending rows with
      | [] => (dest, Return (Err rows))
      | inl err :: _ => (dest, Return (Some err))
      | inr raw :: _ =>
          match assignColumns t (Columns rows) 0 raw rec with
          | (rec', Some err) => (retarget dest (PStruct t rec'), Return (Some err))
          | (rec', None) => (retarget dest (PStruct t rec'), Return None)
          end
      end
  | PointerTo POther => (dest, Return (Some ErrUnsupported))
  end.

(** [q.Scan(dest)] for the builder at address [p].  Logging under [debug]
    and [rows.Close] leave no trace in this model. *)
Definition Scan (w : World) (p : N) (dest : Dest) : World * Dest * outcome :=
  match heap w !! p with
  | None => (w, dest, Panic)
  | Some q =>
      match bindModel w p q dest with
      | inl err => (w, dest, Return (Some err))
      | inr (w, q') =>
          let '(sqlStr, args) := build q' false in
          let w := send w sqlStr args in
          match db q' sqlStr args with
          | inl err => (w, dest, Return (Some err))
          | inr rows =>
              let '(dest', out) := scanInto rows dest in (w, dest', out)
          end
      end
  end.

(** [// Limit 1 jika belum ada] *)
Definition withLimitOne (sqlStr : string) : string :=
  if negb (Contains (ToLower sqlStr) "limit")
  then sqlStr ++ " LIMIT 1"
  else sqlStr.

(** [First], from [rows.Next()] on. *)
Definition firstInto (rows : Rows) (dest : Dest) : Dest * outcome :=
  match pending rows with
  | [] =>
      match Err rows with
      | Some err => (dest, Return (Some err))
      | None => (dest, Return (Some ErrNotFound))
      end
  | row :: _ =>
      match reflected dest with
      | NotPointer | NilPointer => (dest, Return (Some ErrNilPointer))
      | PointerTo target =>
          match row with
          | inl err => (dest, Return (Some err))
          | inr raw =>
              match target with
              | PStruct t rec =>
                  match assignColumns t (Columns rows) 0 raw rec with
                  | (rec', Some err) =>
                      (retarget dest (PStruct t rec'), Return (Some err))
                  | (rec', None) =>
                      (retarget dest (PStruct t rec'), Return None)
                  end
              | PSlice None _ => (dest, Panic)
              | PSlice (Some t) _ =>
                  match assignColumns t (Columns rows) 0 raw (zero t) with
                  | (_, Some err) => (dest, Return (Some err))
                  | (elem, None) =>
                      (retarget dest (PSlice (Some t) [elem]), Return None)
                  end
              | POther => (dest, Return (Some ErrUnsupported))
              end
          end
      end
  end.

(** [q.First(dest)] for the builder at address [p]. *)
Definition First (w : World) (p : N) (dest : Dest) : World * Dest * outcome :=
  match heap w !! p with
  | None => (w, dest, Panic)
  | Some q =>
      match bindModel w p q dest with
      | inl err => (w, dest, Return (Some err))
      | inr (w, q') =>
          let '(sqlStr, args) := build q' false in
          let sqlStr := withLimitOne sqlStr in
          let w := send w sqlStr args in
          match db q' sqlStr args with
          | inl err => (w, dest, Return (Some err))
          | inr rows =>
              let '(dest', out) := firstInto rows dest in (w, dest', out)
          end
      end
  end.

End Execution.

(** ** Vocabulary of the statements *)

(** Tables for running the model on text that is ASCII throughout: no run of
    non-ASCII bytes is ever handed to them. *)
Definition asciiOnly : UnicodeTables :=
  {| upperRun := fun run => run; lowerRun := fun run => run |}.

Fixpoint mapBytes (f : ascii -> ascii) (s : string) : string :=
  match s with
  | EmptyString => EmptyString
  | String c rest => String (f c) (mapBytes f rest)
  end.

Fixpoint allASCII (s : string) : bool :=
  match s with
  | EmptyString => true
  | String c rest => isASCII c && allASCII rest
  end.

(** [tok], written in capitals, occurs in [s] when the case of the ASCII
    letters of [s] is ignored. *)
Definition containsFold (s tok : string) : bool :=
  Contains (mapBytes upperByte s) tok.

(** [word], written in small letters, occurs in [s] likewise. *)
Definition mentions (s word : string) : bool :=
  Contains (mapBytes lowerByte s) word.

(** The [?] bytes of a list of fragments. *)
Definition markersIn (fragments : list string) : nat :=
  fold_right (fun fragment n => Count fragment "?" + n)%nat 0%nat fragments.

Definition isEmptySeq (v : value) : bool :=
  match v with
  | VSeq [] => true
  | _ => false
  end.

(** A driver connection that answers every statement with no row. *)
Definition emptyDB : DB :=
  fun _ _ => inr {| Columns := []; pending := []; Err := None |}.

Definition users : Tabler := {| tablerId := 1; TableName := "users" |}.

(** A struct type with two string fields, [ID] and [Name]: on a string field
    [convertAssign] stores the text of the cell, and the zero value for a nil
    or empty cell. *)
Definition userRecord : StructType :=
  {| fieldMap := {[ "id" := 0%nat; "name" := 1%nat ]};
     zero := [VStr ""; VStr ""];
     convertAssign := fun _ _ raw => inr (VStr (default "" raw)) |}.

(** A pointer to a [userRecord] struct that implements [Tabler]. *)
Definition userDest (fieldVals : list value) : Dest :=
  {| asTabler := Some users; reflected := PointerTo (PStruct userRecord fieldVals) |}.

(** A world with one builder, at address 1, and nothing sent yet. *)
Definition oneBuilder (q : SqlQueryAdapter) : World :=
  {| heap := {[ 1%N := q ]}; wire := [] |}.

(** The builder of the scenario, by chain calls.  The order is set by
    [UnsafeOrder]: [Order] drops [created_at DESC], see
    [Order_drops_created_at]. *)
Definition scenario (detected : driverFlavor) : SqlQueryAdapter :=
  let q := UseModel (NewSqlAdapter emptyDB detected) users in
  let q := Where q (Text "status = ?") [VStr "active"] in
  let q := Or q (Text "role = ?") [VStr "admin"] in
  let q := Or q (Text "role = ?") [VStr "owner"] in
  let q := UnsafeOrder q "created_at DESC" in
  Limit q 10.

(** The builders reached by calls that hand over as many arguments as their
    text has markers.  [Where] takes scalars and non-empty sequences, or
    nothing but empty sequences, or a builder reached in the same way;
    [Having] is the first one to store clauses. *)
Section Balanced.
Context `{UnicodeTables}.

Inductive balanced : SqlQueryAdapter -> Prop :=
| balanced_new conn detected :
    balanced (NewSqlAdapter conn detected)
| balanced_UseModel q m :
    balanced q -> Count (TableName m) "?" = 0%nat ->
    balanced (UseModel q m)
| balanced_Where q v args :
    balanced q ->
    Count (toString (CondValue v)) "?" = length args ->
    forallb (fun arg => negb (isEmptySeq arg)) args = true ->
    balanced (Where q (CondValue v) args)
| balanced_Where_empty q v args :
    balanced q ->
    args <> [] -> forallb isEmptySeq args = true ->
    balanced (Where q (CondValue v) args)
| balanced_Where_builder q sub printed args :
    balanced q -> balanced sub ->
    balanced (Where q (CondBuilder sub printed) args)
| balanced_Or q cond args :
    balanced q ->
    Count (toString cond) "?" = length args ->
    balanced (Or q cond args)
| balanced_Join q joinClause args :
    balanced q ->
    Count joinClause "?" = length args ->
    balanced (Join q joinClause args)
| balanced_Having q cols args :
    balanced q ->
    havings q = [] ->
    markersIn cols = length args ->
    balanced (Having q cols args).

End Balanced.

(** The invariant behind [balanced]: every clause list has as many markers
    as its argument list has entries, and nothing else carries a marker. *)
Record paired (q : SqlQueryAdapter) : Prop := {
  paired_table : Count (table q) "?" = 0%nat;
  paired_fields : markersIn (fields q) = 0%nat;
  paired_groups : groups q = [];
  paired_order : orderBy q = "";
  paired_limit : limit q = None;
  paired_offset : offset q = None;
  paired_joins : markersIn (joins q) = length (joinArgs q);
  paired_wheres : markersIn (wheres q) = length (whereArgs q);
  paired_ors : markersIn (orWheres q) = length (orArgs q);
  paired_havings : markersIn (havings q) = length (havingArgs q)
}.

(** ** Further validators and entry points *)

Definition ValidateTableName (tableName : string) : option error :=
  if (String.length tableName =? 0)%nat then Some ErrInvalidIdentifier
  else if (maxIdentifierLen <? String.length tableName)%nat then Some ErrIdentifierTooLong
  else if negb (MatchString sqlIdentifierPattern tableName) then Some ErrInvalidIdentifier
  else None.

Definition allowedOperators : list string :=
  [ "="; "!="; "<>"; "<"; ">"; "<="; ">=";
    "LIKE"; "ILIKE"; "NOT LIKE"; "NOT ILIKE";
    "IN"; "NOT IN"; "IS"; "IS NOT";
    "BETWEEN"; "NOT BETWEEN";
    "AND"; "OR"; "NOT" ].

Section SafeEntryPoints.
Context `{UnicodeTables}.

Definition ValidateSQLOperator (operator : string) : option error :=
  let upperOp := ToUpper (TrimSpace operator) in
  if existsb (fun allowed => String.eqb upperOp allowed) allowedOperators
  then None
  else Some ErrSuspiciousPattern.

Definition SafeOrderBy (order : string) : error + string :=
  match ValidateOrderBy order with
  | Some err => inl err
  | None => inr order
  end.

Definition SafeJoinClause (joinClause : string) : error + string :=
  match ValidateJoinClause joinClause with
  | Some err => inl err
  | None => inr joinClause
  end.

Definition SafeSelectFields (fields : list string) : error + list string :=
  SanitizeSelectFields fields.

Definition SafeGroupByFields (fields : list string) : error + list string :=
  SanitizeColumnNames fields.

Definition SafeHavingClauses (clauses : list string) : error + list string :=
  match ValidateHavingClause clauses with
  | Some err => inl err
  | None => inr clauses
  end.

Definition SafeOrder (q : SqlQueryAdapter) (order : string) : SqlQueryAdapter :=
  match ValidateOrderBy order with
  | Some _ => q
  | None => Order q order
  end.

Definition SafeJoin (q : SqlQueryAdapter) (joinClause : string) (args : list value)
  : SqlQueryAdapter :=
  match ValidateJoinClause joinClause with
  | Some _ => q
  | None => Join q joinClause args
  end.

Definition SafeSelect (q : SqlQueryAdapter) (selections : list string)
  : SqlQueryAdapter :=
  match SanitizeSelectFields selections with
  | inl _ => q
  | inr sanitized => Select q sanitized
  end.

Definition SafeGroupBy (q : SqlQueryAdapter) (groupbys : list string)
  : SqlQueryAdapter :=
  match SanitizeColumnNames groupbys with
  | inl _ => q
  | inr sanitized => GroupBy q sanitized
  end.

Definition SafeHaving (q : SqlQueryAdapter) (havings : list string)
           (args : list value) : SqlQueryAdapter :=
  match ValidateHavingClause havings with
  | Some _ => q
  | None => Having q havings args
  end.

End SafeEntryPoints.

Definition UnsafeJoin (q : SqlQueryAdapter) (joinClause : string) (args : list value)
  : SqlQueryAdapter :=
  let cp := clone q in
  set_join cp (joins cp ++ [joinClause])%list (joinArgs cp ++ args)%list.

Definition UnsafeSelect (q : SqlQueryAdapter) (selections : list string)
  : SqlQueryAdapter :=
  let cp := clone q in
  if (0 <? length selections)%nat then set_fields cp selections else cp.

Definition UnsafeGroupBy (q : SqlQueryAdapter) (groupbys : list string)
  : SqlQueryAdapter :=
  let cp := clone q in
  if (0 <? length groupbys)%nat then set_groups cp groupbys else cp.

Definition UnsafeHaving (q : SqlQueryAdapter) (havings : list string)
           (args : list value) : SqlQueryAdapter :=
  let cp := clone q in
  if (0 <? length havings)%nat
  then set_having cp havings (havingArgs cp ++ args)%list
  else cp.

(** *** Vocabulary for the validators *)

Fixpoint allBytes (P : ascii -> bool) (s : string) : bool :=
  match s with
  | EmptyString => true
  | String c rest => P c && allBytes P rest
  end.

(** A letter or an underscore; a letter, a digit or an underscore. *)
Definition isIdentStart (c : ascii) : bool :=
  between 97 122 c || between 65 90 c || (code c =? 95)%N.

Definition isIdentChar (c : ascii) : bool :=
  isIdentStart c || between 48 57 c.

(** The shape [^[a-zA-Z_][a-zA-Z0-9_]*$]. *)
Definition identifierShape (s : string) : bool :=
  match s with
  | EmptyString => false
  | String c rest => isIdentStart c && allBytes isIdentChar rest
  end.

(** The bytes a regular expression can read at all. *)
Fixpoint admits (r : regexp) (c : ascii) : bool :=
  match r with
  | Void | Eps => false
  | Class ranges => inClass ranges c
  | Dot => negb (code c =? 10)%N
  | Cat r1 r2 | Alt r1 r2 => admits r1 c || admits r2 c
  | Star r1 => admits r1 c
  end.

(** A regular expression without a word. *)
Fixpoint void (r : regexp) : bool :=
  match r with
  | Void => true
  | Eps | Class _ | Dot | Star _ => false
  | Cat r1 r2 => void r1 || void r2
  | Alt r1 r2 => void r1 && void r2
  end.

(** The bytes of an ORDER BY list: identifier bytes, dot, comma and the
    five ASCII spaces of [\s]. *)
Definition isOrderByte (c : ascii) : bool :=
  isIdentChar c || (code c =? 46)%N || (code c =? 44)%N
  || between 9 10 c || between 12 13 c || (code c =? 32)%N.

(** A byte of the encoding of a white-space rune. *)
Definition isSpaceByte (c : ascii) : bool :=
  existsb (fun enc => negb (allBytes (fun d => negb (Ascii.eqb d c)) enc))
    spaceEncodings.

(** A printable ASCII byte other than the blank. *)
Definition isPlain (c : ascii) : bool := between 33 126 c.

(** ** Scopes, [Clone] and the second numbering pass *)

(** [ScopeFunc], for scopes that stay with this adapter; [None] is a nil
    function. *)
Definition ScopeFunc := SqlQueryAdapter -> SqlQueryAdapter.

(** [applyScopes]: a nil function is called, and the call panics ([None]). *)
Fixpoint applyScopes (a : SqlQueryAdapter) (fs : list (option ScopeFunc))
  : option SqlQueryAdapter :=
  match fs with
  | [] => Some a
  | Some f :: more => applyScopes (f a) more
  | None :: _ => None
  end.

(** The loop of [Scopes], which passes over nil functions. *)
Fixpoint scopesLoop (out : SqlQueryAdapter) (fs : list (option ScopeFunc))
  : SqlQueryAdapter :=
  match fs with
  | [] => out
  | None :: more => scopesLoop out more
  | Some f :: more => scopesLoop (f out) more
  end.

Definition Scopes (q : SqlQueryAdapter) (fs : list (option ScopeFunc))
  : SqlQueryAdapter :=
  if (length fs =? 0)%nat then q else scopesLoop q fs.

(** [Clone] is [q.UseModel(q.model)]; on a nil model the call of
    [TableName] panics ([None]). *)
Definition Clone (q : SqlQueryAdapter) : option SqlQueryAdapter :=
  match model q with
  | Some m => Some (UseModel q m)
  | None => None
  end.

(** [convertPostgresPlaceholder]; [argIndex] starts at 1. *)
Fixpoint convertFrom (argIndex : nat) (query : string) : string :=
  match query with
  | EmptyString => EmptyString
  | String c rest =>
      if Ascii.eqb c "?"
      then "$" ++ SprintInt (Z.of_nat argIndex) ++ convertFrom (S argIndex) rest
      else String c (convertFrom argIndex rest)
  end.

Definition convertPostgresPlaceholder (query : string) : string :=
  convertFrom 1 query.

(** *** Vocabulary for the builder *)

(** A chain call, and a chain of calls applied from left to right. *)
Inductive call :=
| CallUseModel (m : Tabler)
| CallWhere (cond : Cond) (args : list value)
| CallOr (cond : Cond) (args : list value)
| CallJoin (joinClause : string) (args : list value)
| CallSelect (sel : list string)
| CallGroupBy (cols : list string)
| CallHaving (cols : list string) (args : list value)
| CallLimit (l : Z)
| CallOffset (o : Z)
| CallOrder (order : string)
| CallUnsafeOrder (order : string)
| CallUnsafeJoin (joinClause : string) (args : list value)
| CallUnsafeSelect (selections : list string)
| CallUnsafeGroupBy (groupbys : list string)
| CallUnsafeHaving (clauses : list string) (args : list value).

Section Chains.
Context `{UnicodeTables}.

Definition step (q : SqlQueryAdapter) (c : call) : SqlQueryAdapter :=
  match c with
  | CallUseModel m => UseModel q m
  | CallWhere cond args => Where q cond args
  | CallOr cond args => Or q cond args
  | CallJoin joinClause args => Join q joinClause args
  | CallSelect sel => Select q sel
  | CallGroupBy cols => GroupBy q cols
  | CallHaving cols args => Having q cols args
  | CallLimit l => Limit q l
  | CallOffset o => Offset q o
  | CallOrder order => Order q order
  | CallUnsafeOrder order => UnsafeOrder q order
  | CallUnsafeJoin joinClause args => UnsafeJoin q joinClause args
  | CallUnsafeSelect selections => UnsafeSelect q selections
  | CallUnsafeGroupBy groupbys => UnsafeGroupBy q groupbys
  | CallUnsafeHaving clauses args => UnsafeHaving q clauses args
  end.

Definition chain (calls : list call) (q : SqlQueryAdapter) : SqlQueryAdapter :=
  fold_left step calls q.

End Chains.

(** The same builder for the other dialect. *)
Definition withFlavor (detected : driverFlavor) (q : SqlQueryAdapter)
  : SqlQueryAdapter :=
  {| db := db q; ctx := ctx q; flavor := detected; table := table q;
     fields := fields q; groups := groups q; havings := havings q;
     havingArgs := havingArgs q; joins := joins q; joinArgs := joinArgs q;
     wheres := wheres q; whereArgs := whereArgs q; orWheres := orWheres q;
     orArgs := orArgs q; orderBy := orderBy q; limit := limit q;
     offset := offset q; model := model q |}.

Definition isScalar (v : value) : bool :=
  match v with
  | VSeq _ => false
  | _ => true
  end.

(** The length of the longest common prefix of two lists of fragments. *)
Fixpoint sharedPrefix (a b : list string) : nat :=
  match a, b with
  | x :: a', y :: b' => if String.eqb y x then S (sharedPrefix a' b') else 0
  | _, _ => 0
  end.

(** Argument lists are empty where the clause lists are. *)
Definition tidy (q : SqlQueryAdapter) : Prop :=
  (wheres q = [] -> whereArgs q = []) /\
  (orWheres q = [] -> orArgs q = []) /\
  (havings q = [] -> havingArgs q = []).

(** The arguments of [Where] as they are bound: a sequence gives its
    elements, any other value itself. *)
Definition flatten (args : list value) : list value :=
  concat (map (fun arg => match arg with
                          | VSeq elems => elems
                          | _ => [arg]
                          end) args).

(** ** Vocabulary of the query methods *)

Section Decoding.
Context `{UnicodeTables}.

(** One row as the slice case of [Scan] decodes it: [rows.Scan] may fail;
    the cells go into a fresh zero value of the element type, and a failed
    conversion gives up the element. *)
Definition decodeRow (t : StructType) (cols : list string)
           (row : error + list RawBytes) : error + list value :=
  match row with
  | inl err => inl err
  | inr raw =>
      match assignColumns t cols 0 raw (zero t) with
      | (_, Some err) => inl err
      | (elem, None) => inr elem
      end
  end.

End Decoding.

(** [b] is [a] but for the table and the model. *)
Definition sameClauses (a b : SqlQueryAdapter) : Prop :=
  set_model (set_table a (table b)) (model b) = b.

(** A driver connection that answers every statement with the same rows. *)
Definition constDB (rows : Rows) : DB := fun _ _ => inr rows.

(** The cutset of [normalize]: the backquote and the double quote. *)
Definition quoteBytes : string := bytes [96; 34]%N.

(** [s] starts with a byte that is not in [cutset]. *)
Definition startsOutside (cutset s : string) : bool :=
  match s with
  | EmptyString => false
  | String c _ => negb (inCutset cutset c)
  end.

(** ** Struct fields and their columns *)

Definition columnPrefix : string := "column:".

(** [strings.TrimPrefix(s, prefix)] *)
Definition TrimPrefix (s prefix : string) : string :=
  if HasPrefix s prefix then dropBytes (String.length prefix) s else s.

(** The kind of a field whose type has no [Scan] method: a string, a signed
    or an unsigned integer of [bits] bits, a boolean; [KOther] is every
    other field (a pointer, a float, a struct, a slice, a [sql.Scanner]). *)
Inductive Kind :=
| KString
| KInt (bits : N)
| KUint (bits : N)
| KBool
| KOther.

(** [reflect.StructField] as the code reads it; [sqlTag] is
    [Tag.Get("sql")]. *)
Record StructField := {
  Name : string;
  PkgPath : string;
  sqlTag : string;
  fieldKind : Kind
}.

(** The closure [extract] of [parseColumnTag]. *)
Definition extract (tag : string) : string * bool :=
  if Contains tag columnPrefix
  then match List.find (fun p => HasPrefix p columnPrefix) (Split tag ";") with
       | Some p => (TrimPrefix p columnPrefix, Contains tag "primaryKey")
       | None => ("", false)
       end
  else if negb (Contains tag ":") then (tag, false)
  else ("", false).

Definition parseColumnTag (f : StructField) : string * bool :=
  if negb (String.eqb (sqlTag f) "")
  then let '(col, pk) := extract (sqlTag f) in
       if negb (String.eqb col "") then (col, pk) else ("", false)
  else ("", false).

(** The loop of [toSnake]: an underscore goes before every rune in [A-Z]
    but the one at index 0. *)
Fixpoint underscoredTail (s : string) : string :=
  match s with
  | EmptyString => EmptyString
  | String r rest =>
      (if isUpper r then "_" else "") ++ String r (underscoredTail rest)
  end.

Definition underscored (s : string) : string :=
  match s with
  | EmptyString => EmptyString
  | String r rest => String r (underscoredTail rest)
  end.

Section Columns.
Context `{UnicodeTables}.

(** [toSnake].  The loop ranges over runes and [string(out)] encodes them
    again: bytes below 0x80 are runes of their own, the others pass through
    the loop, and [strings.ToLower] reads what is no valid encoding as the
    same rune U+FFFD as the loop does. *)
Definition toSnake (s : string) : string := ToLower (underscored s).

(** [col, _ := parseColumnTag(field); if col == "" { col = toSnake(field.Name) }],
    the start of every loop over the fields. *)
Definition columnOf (field : StructField) : string :=
  let col := fst (parseColumnTag field) in
  if String.eqb col "" then toSnake (Name field) else col.

(** [field.PkgPath != "" || field.Tag.Get("sql") == "-"] *)
Definition skipped (field : StructField) : bool :=
  negb (String.eqb (PkgPath field) "") || String.eqb (sqlTag field) "-".

(** [buildFieldMap], from field [i] on. *)
Fixpoint buildFieldMapFrom (i : nat) (typ : list StructField)
         (m : gmap string nat) : gmap string nat :=
  match typ with
  | [] => m
  | f :: more =>
      buildFieldMapFrom (S i) more
        (if skipped f then m else <[ToLower (columnOf f) := i]> m)
  end.

Definition buildFieldMap (typ : list StructField) : gmap string nat :=
  buildFieldMapFrom 0 typ ∅.

End Columns.

(** ** [SqlTransactionAdapter] *)

(** [reflect.ValueOf(src)] for the mutation helpers: the fields of the
    struct type and the values of the struct the pointer points to. *)
Inductive Shape :=
| NotPtr
| NilPtr
| PtrToStruct (typ : list StructField) (vals : list value)
| PtrToOther.

(** The [src Tabler] of [Create] and [Update]. *)
Record Source := { asModel : Tabler; shape : Shape }.

Definition withVals (src : Source) (typ : list StructField) (vals : list value)
  : Source :=
  {| asModel := asModel src; shape := PtrToStruct typ vals |}.

(** [*sql.Tx]: [ExecContext] gives an error or a result, known by what
    [LastInsertId] answers; [QueryRowScan] is [QueryRowContext] followed by
    [Scan] into a pointer: an error or the value stored. *)
Record Tx := {
  ExecContext : string -> list value -> error + (error + Z);
  QueryRowScan : string -> list value -> error + value
}.

Record SqlTransactionAdapter := { tx : Tx; txFlavor : driverFlavor }.

(** What a mutation helper returns: nil, an error of the package or of the
    driver, or the fault made on the spot. *)
Inductive fault :=
| Fault (err : error)
| PrimaryKeyNotFound
| InvalidColumn (col : string)
| NoInsertableFields.

(** [SetInt] on a field of [bits] bits keeps the low bits, as a signed
    number. *)
Definition wrap (bits : N) (x : Z) : Z :=
  let half := Z.pow 2 (Z.of_N bits - 1) in
  (x + half) mod (2 * half) - half.

(** The variables of the loop of [Create]. *)
Record CreateVars := {
  insCols : list string;
  insPlaceholders : list string;
  insArgs : list value;
  pkFieldIndex : option nat;
  pkColumn : string
}.

(** The variables of the loop of [Update]. *)
Record UpdateVars := {
  updCols : list string;
  updArgs : list value;
  pkCol : string;
  pkVal : value
}.

Section Mutations.
Context `{UnicodeTables}.

(** [for i := 0; i < typ.NumField(); i++] of [Create], from field [i] on. *)
Fixpoint createFields (i : nat) (typ : list StructField) (vals : list value)
         (vars : CreateVars) : CreateVars :=
  match typ with
  | [] => vars
  | field :: more =>
      createFields (S i) more vals
        (if skipped field then vars
         else
           let col := columnOf field in
           if Contains (sqlTag field) "primaryKey"
           then {| insCols := insCols vars;
                   insPlaceholders := insPlaceholders vars;
                   insArgs := insArgs vars;
                   pkFieldIndex := Some i;
                   pkColumn := col |}
           else {| insCols := (insCols vars ++ [col])%list;
                   insPlaceholders := (insPlaceholders vars ++ ["?"])%list;
                   insArgs := (insArgs vars ++ [default VNil (vals !! i)])%list;
                   pkFieldIndex := pkFieldIndex vars;
                   pkColumn := pkColumn vars |})
  end.

(** [Create]: the source after the call, the statements handed to the
    transaction, and how the call ends. *)
Definition Create (q : SqlTransactionAdapter) (src : Source)
  : Source * list (string * list value) * outcome :=
  match shape src with
  | NotPtr | NilPtr => (src, [], Return (Some ErrNilPointer))
  | PtrToOther => (src, [], Return (Some ErrUnsupported))
  | PtrToStruct typ vals =>
      let vars :=
        createFields 0 typ vals
          {| insCols := []; insPlaceholders := []; insArgs := [];
             pkFieldIndex := None; pkColumn := "" |} in
      let query :=
        "INSERT INTO " ++ TableName (asModel src)
          ++ " (" ++ GoStrings.Join (insCols vars) ", "
          ++ ") VALUES (" ++ GoStrings.Join (insPlaceholders vars) ", " ++ ")" in
      let query :=
        match pkFieldIndex vars, txFlavor q with
        | Some _, FlavorPostgres => query ++ " RETURNING " ++ pkColumn vars
        | _, _ => query
        end in
      let query :=
        match txFlavor q with
        | FlavorPostgres => convertPostgresPlaceholder query
        | FlavorMySQL => query
        end in
      let sent := [(query, insArgs vars)] in
      match pkFieldIndex vars, txFlavor q with
      | Some pk, FlavorPostgres =>
          match QueryRowScan (tx q) query (insArgs vars) with
          | inl err => (src, sent, Return (Some err))
          | inr v => (withVals src typ (<[pk := v]> vals), sent, Return None)
          end
      | pkIndex, _ =>
          match ExecContext (tx q) query (insArgs vars) with
          | inl execErr => (src, sent, Return (Some execErr))
          | inr result =>
              match pkIndex, result with
              | Some pk, inr lastID =>
                  match fieldKind <$> typ !! pk with
                  | Some (KInt bits) =>
                      (withVals src typ (<[pk := VInt (wrap bits lastID)]> vals),
                       sent, Return None)
                  | _ => (src, sent, Panic)
                  end
              | _, _ => (src, sent, Return None)
              end
          end
      end
  end.

(** [for i := 0; i < typ.NumField(); i++] of [Update], from field [i] on. *)
Fixpoint updateFields (i : nat) (typ : list StructField) (vals : list value)
         (vars : UpdateVars) : UpdateVars :=
  match typ with
  | [] => vars
  | field :: more =>
      updateFields (S i) more vals
        (if skipped field then vars
         else
           let col := columnOf field in
           let val := default VNil (vals !! i) in
           if snd (parseColumnTag field)
           then {| updCols := updCols vars; updArgs := updArgs vars;
                   pkCol := col; pkVal := val |}
           else {| updCols := (updCols vars ++ [(col ++ " = ?")%string])%list;
                   updArgs := (updArgs vars ++ [val])%list;
                   pkCol := pkCol vars; pkVal := pkVal vars |})
  end.

(** [Update]: the statements handed to the transaction and what the call
    returns. *)
Definition Update (q : SqlTransactionAdapter) (src : Source)
  : list (string * list value) * option fault :=
  match shape src with
  | NotPtr | NilPtr => ([], Some (Fault ErrNilPointer))
  | PtrToOther => ([], Some (Fault ErrUnsupported))
  | PtrToStruct typ vals =>
      let vars :=
        updateFields 0 typ vals
          {| updCols := []; updArgs := []; pkCol := ""; pkVal := VNil |} in
      if String.eqb (pkCol vars) "" then ([], Some PrimaryKeyNotFound)
      else
        let args := (updArgs vars ++ [pkVal vars])%list in
        let query :=
          "UPDATE " ++ TableName (asModel src)
            ++ " SET " ++ GoStrings.Join (updCols vars) ", "
            ++ " WHERE " ++ pkCol vars ++ " = ?" in
        let query :=
          match txFlavor q with
          | FlavorPostgres => convertPostgresPlaceholder query
          | FlavorMySQL => query
          end in
        ([(query, args)],
         match ExecContext (tx q) query args with
         | inl err => Some (Fault err)
         | inr _ => None
         end)
  end.

End Mutations.

(** *** Vocabulary of the mutation helpers *)

(** The number of bytes of [s] in [A-Z]. *)
Fixpoint capitals (s : string) : nat :=
  match s with
  | EmptyString => 0
  | String c rest => (if isUpper c then 1 else 0) + capitals rest
  end.

(** The fields [Create] writes: exported, not ignored, and without
    [primaryKey] in the tag. *)
Definition insertable (f : StructField) : bool :=
  negb (skipped f) && negb (Contains (sqlTag f) "primaryKey").

(** The fields [Create] takes for the key. *)
Definition markedKey (f : StructField) : bool :=
  negb (skipped f) && Contains (sqlTag f) "primaryKey".

(** The fields [Update] takes for the key, and the ones it sets. *)
Definition flaggedKey (f : StructField) : bool :=
  negb (skipped f) && snd (parseColumnTag f).

Definition settable (f : StructField) : bool :=
  negb (skipped f) && negb (snd (parseColumnTag f)).

(** ** Package [strconv] *)

(** The two errors of the package, whatever the [*NumError] around them
    says. *)
Definition ErrSyntax : error := ErrOther 1.
Definition ErrRange : error := ErrOther 2.

Definition maxUint64 : Z := 18446744073709551615.

Definition isDigit (c : ascii) : bool := between 48 57 c.

(** The loop of [strconv.ParseUint(s, 10, 64)], [n] being the number read
    so far: a byte that is no digit is a syntax error; the number running
    over 64 bits is a range error, found before the rest is read. *)
Fixpoint parseDigits (n : Z) (s : string) : error + Z :=
  match s with
  | EmptyString => inr n
  | String c rest =>
      if isDigit c
      then
        if (maxUint64 / 10 + 1 <=? n)%Z then inl ErrRange
        else
          let n1 := (n * 10 + (Z.of_N (code c) - 48))%Z in
          if (maxUint64 <? n1)%Z then inl ErrRange
          else parseDigits n1 rest
      else inl ErrSyntax
  end.

(** [strconv.ParseUint(s, 10, 64)] *)
Definition ParseUint (s : string) : error + Z :=
  match s with
  | EmptyString => inl ErrSyntax
  | _ => parseDigits 0 s
  end.

(** [strconv.ParseInt(s, 10, 64)] *)
Definition ParseInt (s : string) : error + Z :=
  match s with
  | EmptyString => inl ErrSyntax
  | String c rest =>
      let neg := Ascii.eqb c "-" in
      let s := if Ascii.eqb c "+" || neg then rest else s in
      match ParseUint s with
      | inl err => inl err
      | inr un =>
          let cutoff := 9223372036854775808%Z in
          if negb neg && (cutoff <=? un)%Z then inl ErrRange
          else if neg && (cutoff <? un)%Z then inl ErrRange
          else inr (if neg then (- un)%Z else un)
      end
  end.

(** [strconv.ParseBool(str)] *)
Definition ParseBool (str : string) : error + bool :=
  if existsb (String.eqb str) ["1"; "t"; "T"; "true"; "TRUE"; "True"]
  then inr true
  else if existsb (String.eqb str) ["0"; "f"; "F"; "false"; "FALSE"; "False"]
  then inr false
  else inl ErrSyntax.

(** ** Cells into fields *)

(** [isEmptyRaw] on a [sql.RawBytes], the only type [Scan] and [First] hand
    to [convertAssign]. *)
Definition isEmptyRaw (raw : RawBytes) : bool :=
  match raw with
  | None => true
  | Some b => (String.length b =? 0)%nat
  end.

(** [SetUint] on a field of [bits] bits keeps the low bits. *)
Definition wrapUnsigned (bits : N) (x : Z) : Z := (x mod Z.pow 2 (Z.of_N bits))%Z.

Section Conversion.
(** The zero value of a field of another kind, and what [convertAssign]
    does to one on a cell that is not empty. *)
Variable zeroOther : value.
Variable assignOther : string -> error + value.

(** [reflect.Zero(field.Type())] *)
Definition zeroOf (k : Kind) : value :=
  match k with
  | KString => VStr ""
  | KInt _ | KUint _ => VInt 0
  | KBool => VBool false
  | KOther => zeroOther
  end.

(** [toScalar] has made a string of the cell. *)
Definition assignString (v : string) : error + value := inr (VStr v).

Definition assignInt (bits : N) (v : string) : error + value :=
  match ParseInt v with
  | inl err => inl err
  | inr i => inr (VInt (wrap bits i))
  end.

Definition assignUint (bits : N) (v : string) : error + value :=
  match ParseUint v with
  | inl err => inl err
  | inr u => inr (VInt (wrapUnsigned bits u))
  end.

Definition assignBool (v : string) : error + value :=
  match ParseBool v with
  | inl err => inl err
  | inr b => inr (VBool b)
  end.

(** [convertAssign(field, raw)] for a field of kind [k]: the error
    returned or the value the field holds afterwards. *)
Definition convertAssignField (k : Kind) (raw : RawBytes) : error + value :=
  if isEmptyRaw raw then inr (zeroOf k)
  else
    let v := default "" raw in
    match k with
    | KString => assignString v
    | KInt bits => assignInt bits v
    | KUint bits => assignUint bits v
    | KBool => assignBool v
    | KOther => assignOther v
    end.

End Conversion.

(** The number a string of digits stands for, read after [n]. *)
Fixpoint decimalValue (n : Z) (s : string) : Z :=
  match s with
  | EmptyString => n
  | String c rest => decimalValue (n * 10 + (Z.of_N (code c) - 48)) rest
  end.

(** ** [Patch] and [BulkInsert] *)

(** The variables of the first loop of [Patch]. *)
Record PatchVars := {
  patchPkCol : string;
  patchPkVal : value;
  validCols : gset string
}.

(** How [BulkInsert] ends: it returns, or [v.Field(idx)] panics. *)
Inductive ending :=
| Returns (err : option fault)
| Panics.

Section MoreMutations.
Context `{UnicodeTables}.

(** [for i := 0; i < typ.NumField(); i++] of [Patch], from field [i] on. *)
Fixpoint patchFields (i : nat) (typ : list StructField) (vals : list value)
         (vars : PatchVars) : PatchVars :=
  match typ with
  | [] => vars
  | field :: more =>
      patchFields (S i) more vals
        (if skipped field then vars
         else
           let col := columnOf field in
           let isPK := snd (parseColumnTag field) in
           {| patchPkCol := if isPK then col else patchPkCol vars;
              patchPkVal := if isPK then default VNil (vals !! i)
                            else patchPkVal vars;
              validCols := {[ col ]} ∪ validCols vars |})
  end.

(** [for col, v := range fields]: [fields] are the entries of the map in
    the order the loop meets them.  The result is the column that is not
    valid, or the lists built. *)
Fixpoint patchEntries (valid : gset string) (fields : list (string * value))
         (cols : list string) (args : list value)
  : string + list string * list value :=
  match fields with
  | [] => inr (cols, args)
  | (col, v) :: more =>
      if bool_decide (col ∈ valid)
      then patchEntries valid more (cols ++ [(col ++ " = ?")%string])%list
             (args ++ [v])%list
      else inl col
  end.

Definition Patch (q : SqlTransactionAdapter) (src : Source)
           (fields : list (string * value))
  : list (string * list value) * option fault :=
  match shape src with
  | NotPtr | NilPtr => ([], Some (Fault ErrNilPointer))
  | PtrToOther => ([], Some (Fault ErrUnsupported))
  | PtrToStruct typ vals =>
      let vars :=
        patchFields 0 typ vals
          {| patchPkCol := ""; patchPkVal := VNil; validCols := ∅ |} in
      if String.eqb (patchPkCol vars) "" then ([], Some PrimaryKeyNotFound)
      else
        match patchEntries (validCols vars) fields [] [] with
        | inl col => ([], Some (InvalidColumn col))
        | inr (cols, args) =>
            let args := (args ++ [patchPkVal vars])%list in
            let query :=
              "UPDATE " ++ TableName (asModel src)
                ++ " SET " ++ GoStrings.Join cols ", "
                ++ " WHERE " ++ patchPkCol vars ++ " = ?" in
            let query :=
              match txFlavor q with
              | FlavorPostgres => convertPostgresPlaceholder query
              | FlavorMySQL => query
              end in
            ([(query, args)],
             match ExecContext (tx q) query args with
             | inl err => Some (Fault err)
             | inr _ => None
             end)
        end
  end.

(** [// Determine columns and indexes once from first struct], from field
    [i] on. *)
Fixpoint bulkFields (i : nat) (typ : list StructField) (cols : list string)
         (fieldIndexes : list nat) : list string * list nat :=
  match typ with
  | [] => (cols, fieldIndexes)
  | field :: more =>
      if skipped field then bulkFields (S i) more cols fieldIndexes
      else if Contains (sqlTag field) "primaryKey"
      then bulkFields (S i) more cols fieldIndexes
      else bulkFields (S i) more (cols ++ [columnOf field])%list
             (fieldIndexes ++ [i])%list
  end.

(** [for _, idx := range fieldIndexes] on a struct of [numField] fields:
    [v.Field(idx)] panics ([None]) past the last field. *)
Fixpoint bulkRow (numField : nat) (vals : list value) (fieldIndexes : list nat)
         (ph : list string) (args : list value)
  : option (list string * list value) :=
  match fieldIndexes with
  | [] => Some (ph, args)
  | idx :: more =>
      if (idx <? numField)%nat
      then bulkRow numField vals more (ph ++ ["?"])%list
             (args ++ [default VNil (vals !! idx)])%list
      else None
  end.

(** [for _, model := range models] *)
Fixpoint bulkModels (models : list Source) (fieldIndexes : list nat)
         (placeholderRows : list string) (args : list value)
  : ending + list string * list value :=
  match models with
  | [] => inr (placeholderRows, args)
  | model :: more =>
      match shape model with
      | NotPtr | NilPtr => inl (Returns (Some (Fault ErrNilPointer)))
      | PtrToOther => inl (Returns (Some (Fault ErrUnsupported)))
      | PtrToStruct typ vals =>
          match bulkRow (length typ) vals fieldIndexes [] args with
          | None => inl Panics
          | Some (ph, args) =>
              bulkModels more fieldIndexes
                (placeholderRows ++ [("(" ++ GoStrings.Join ph ", " ++ ")")%string])%list
                args
          end
      end
  end.

Definition BulkInsert (q : SqlTransactionAdapter) (models : list Source)
  : list (string * list value) * ending :=
  match models with
  | [] => ([], Returns None)
  | first :: _ =>
      match shape first with
      | NotPtr | NilPtr => ([], Returns (Some (Fault ErrNilPointer)))
      | PtrToOther => ([], Returns (Some (Fault ErrUnsupported)))
      | PtrToStruct typ _ =>
          let '(cols, fieldIndexes) := bulkFields 0 typ [] [] in
          if (length cols =? 0)%nat then ([], Returns (Some NoInsertableFields))
          else
            let table := TableName (asModel first) in
            match bulkModels models fieldIndexes [] [] with
            | inl e => ([], e)
            | inr (placeholderRows, args) =>
                let query :=
                  "INSERT INTO " ++ table
                    ++ " (" ++ GoStrings.Join cols ", "
                    ++ ") VALUES " ++ GoStrings.Join placeholderRows ", " in
                let query :=
                  match txFlavor q with
                  | FlavorPostgres => convertPostgresPlaceholder query
                  | FlavorMySQL => query
                  end in
                ([(query, args)],
                 Returns match ExecContext (tx q) query args with
                         | inl err => Some (Fault err)
                         | inr _ => None
                         end)
            end
      end
  end.

(** *** Vocabulary *)

(** The columns of a struct type: those of its exported, not ignored
    fields. *)
Definition columnsOf (typ : list StructField) : list string :=
  map columnOf (List.filter (fun f => negb (skipped f)) typ).

(** The values a struct holds in its insertable fields. *)
Definition insertedValues (typ : list StructField) (vals : list value)
  : list value :=
  map snd (List.filter (fun fv => insertable fv.1) (zip typ vals)).

(** The indexes, from [i] on, of the insertable fields. *)
Fixpoint insertableFrom (i : nat) (typ : list StructField) : list nat :=
  match typ with
  | [] => []
  | f :: more =>
      if insertable f then i :: insertableFrom (S i) more
      else insertableFrom (S i) more
  end.

End MoreMutations.

(** The field values behind a source. *)
Definition valsOf (src : Source) : list value :=
  match shape src with
  | PtrToStruct _ vals => vals
  | _ => []
  end.

(** [src] points to a struct of type [typ]. *)
Definition pointsTo (typ : list StructField) (src : Source) : Prop :=
  exists vals, shape src = PtrToStruct typ vals /\ length vals = length typ.

(** The text with numbered markers: the pieces with [$n] between them,
    [n] counting up from [idx + 1]. *)
Fixpoint numbered (idx : nat) (pieces : list string) : string :=
  match pieces with
  | [] => ""
  | [piece] => piece
  | piece :: more =>
      piece ++ "$" ++ SprintInt (Z.of_nat (S idx)) ++ numbered (S idx) more
  end.

(** * Properties *)

(** ** Strings *)

Lemma append_assoc (a b c : string) : (a ++ b) ++ c = a ++ b ++ c.
Proof. induction a as [|d a IH]; simpl; [reflexivity | now rewrite IH]. Qed.

Lemma HasPrefix_empty s : HasPrefix s "" = true.
Proof. destruct s; reflexivity. Qed.

Lemma HasPrefix_cons c d s t :
  HasPrefix (String c s) (String d t) = true <-> d = c /\ HasPrefix s t = true.
Proof.
  unfold HasPrefix; simpl. destruct (ascii_dec d c) as [->|Hne].
  - tauto.
  - split; [discriminate | intros [Heq _]; contradiction].
Qed.

Lemma Contains_empty s : Contains s "" = true.
Proof. destruct s; reflexivity. Qed.

Lemma Contains_cons c s t :
  Contains (String c s) t = HasPrefix (String c s) t || Contains s t.
Proof. reflexivity. Qed.

Lemma Contains_app_r pre s t :
  Contains s t = true -> Contains (pre ++ s) t = true.
Proof.
  intros Hs. induction pre as [|c pre IH]; simpl String.append.
  - exact Hs.
  - rewrite Contains_cons, IH. apply orb_true_r.
Qed.

Lemma upperByte_ascii d : isASCII (upperByte d) = true -> isASCII d = true.
Proof.
  destruct d as [[|] [|] [|] [|] [|] [|] [|] [|]]; vm_compute; congruence.
Qed.

Lemma lowerByte_ascii d : isASCII (lowerByte d) = true -> isASCII d = true.
Proof.
  destruct d as [[|] [|] [|] [|] [|] [|] [|] [|]]; vm_compute; congruence.
Qed.

(** On text that is ASCII throughout, the case mappings work byte by byte. *)
Lemma mapCase_ascii f onRun s :
  allASCII s = true -> mapCase f onRun "" s = mapBytes f s.
Proof.
  induction s as [|c s IH]; simpl; [reflexivity|].
  intros [Hc Hs]%andb_true_iff. rewrite Hc. simpl. now rewrite IH.
Qed.

Section CaseFolding.
Variable f : ascii -> ascii.
Variable onRun : string -> string.
Hypothesis f_ascii : forall d, isASCII (f d) = true -> isASCII d = true.

Lemma HasPrefix_mapCase tok : forall s,
  allASCII tok = true ->
  HasPrefix (mapBytes f s) tok = true ->
  HasPrefix (mapCase f onRun "" s) tok = true.
Proof.
  induction tok as [|c tok IH]; intros s Htok Hpre.
  - apply HasPrefix_empty.
  - destruct s as [|d s]; [discriminate Hpre|].
    simpl in Htok. apply andb_true_iff in Htok as [Hc Htok].
    simpl mapBytes in Hpre. apply HasPrefix_cons in Hpre as [-> Hpre].
    simpl. rewrite (f_ascii d Hc). simpl.
    apply HasPrefix_cons. split; [reflexivity | now apply IH].
Qed.

Lemma Contains_mapCase tok : forall s run,
  allASCII tok = true ->
  Contains (mapBytes f s) tok = true ->
  Contains (mapCase f onRun run s) tok = true.
Proof.
  induction s as [|d s IH]; intros run Htok Hin.
  - destruct tok; [apply Contains_empty | discriminate Hin].
  - simpl mapBytes in Hin. rewrite Contains_cons in Hin.
    apply orb_true_iff in Hin as [Hpre|Hin].
    + destruct tok as [|c tok]; [apply Contains_empty|].
      pose proof Hpre as Hpre'.
      apply HasPrefix_cons in Hpre' as [Hcd _].
      simpl in Htok. apply andb_true_iff in Htok as [Hc Htok].
      assert (Hd : isASCII d = true) by (apply f_ascii; now rewrite <- Hcd).
      simpl. rewrite Hd. apply Contains_app_r.
      rewrite Contains_cons. apply orb_true_iff. left.
      apply HasPrefix_cons in Hpre as [_ Hpre].
      apply HasPrefix_cons. split; [exact Hcd|].
      apply HasPrefix_mapCase; assumption.
    + simpl. destruct (isASCII d).
      * apply Contains_app_r. rewrite Contains_cons.
        rewrite (IH "" Htok Hin). apply orb_true_r.
      * now apply IH.
Qed.

End CaseFolding.

(** A token found when case is ignored is found by [strings.ToUpper] and
    [strings.Contains], whatever the Unicode tables do. *)
Lemma containsFold_ToUpper `{UnicodeTables} s tok :
  allASCII tok = true -> containsFold s tok = true ->
  Contains (ToUpper s) tok = true.
Proof. intros. now apply Contains_mapCase; [exact upperByte_ascii | |]. Qed.

(** Likewise for a word found in small letters and [strings.ToLower]. *)
Lemma mentions_ToLower `{UnicodeTables} s word :
  allASCII word = true -> mentions s word = true ->
  Contains (ToLower s) word = true.
Proof. intros. now apply Contains_mapCase; [exact lowerByte_ascii | |]. Qed.

(** ** Validators *)

Lemma common_tokens_ascii :
  forallb allASCII commonSuspiciousPatterns = true.
Proof. reflexivity. Qed.

Lemma containsFold_nonempty tok :
  tok <> "" -> containsFold "" tok = false.
Proof. destruct tok; [congruence | reflexivity]. Qed.

(** C1, as the code has it: an ORDER BY text in which one of the sixteen
    tokens of [commonSuspiciousPatterns] occurs, case ignored, is rejected
    whether or not it has the shape of an ORDER BY list: as a suspicious
    pattern when it has at most 256 bytes, as an invalid ORDER BY clause
    when it has more.  The four metadata tokens are no part of this check. *)
Theorem ValidateOrderBy_rejects_common_tokens `{UnicodeTables} (s tok : string) :
  In tok commonSuspiciousPatterns ->
  containsFold s tok = true ->
  ((String.length s <= maxOrderByLen)%nat ->
   ValidateOrderBy s = Some ErrSuspiciousPattern) /\
  ((maxOrderByLen < String.length s)%nat ->
   ValidateOrderBy s = Some ErrInvalidOrderBy).
Proof.
  intros Htok Hin.
  assert (Hascii : allASCII tok = true).
  { pose proof common_tokens_ascii as Hall.
    rewrite forallb_forall in Hall. now apply Hall. }
  assert (Hne : s <> "").
  { intros ->. rewrite containsFold_nonempty in Hin; [discriminate|].
    intros ->. simpl in Htok. intuition discriminate. }
  unfold ValidateOrderBy.
  destruct s as [|c s]; [congruence|]. simpl Nat.eqb. cbv iota.
  unfold validateLength.
  destruct (Nat.ltb_spec maxOrderByLen (String.length (String c s))) as [Hlt|Hle];
    (split; intros Hlen; [|]); try lia; try reflexivity.
  unfold validateSuspiciousPatterns.
  replace (existsb _ commonSuspiciousPatterns) with true; [reflexivity|].
  symmetry. apply existsb_exists. exists tok. split; [exact Htok|].
  now apply containsFold_ToUpper.
Qed.

Lemma ValidateOrderBy_rejects_common_tokens_witness :
  @ValidateOrderBy asciiOnly "name ASC; DROP TABLE users"
  = Some ErrSuspiciousPattern /\
  @ValidateOrderBy asciiOnly
    (GoStrings.Join (repeat "name" 60) ", " ++ "; DROP TABLE users")
  = Some ErrInvalidOrderBy.
Proof.
  split.
  - refine (proj1 (@ValidateOrderBy_rejects_common_tokens asciiOnly
                     "name ASC; DROP TABLE users" "DROP" _ _) _).
    + simpl. tauto.
    + reflexivity.
    + vm_compute. lia.
  - refine (proj2 (@ValidateOrderBy_rejects_common_tokens asciiOnly
                     (GoStrings.Join (repeat "name" 60) ", " ++ "; DROP TABLE users")
                     "DROP" _ _) _).
    + simpl. tauto.
    + vm_compute. reflexivity.
    + vm_compute. lia.
Defined.

(** C1 fails for a metadata token: [pg_name] contains [PG_], case ignored,
    and [ValidateOrderBy] accepts it. *)
Lemma ValidateOrderBy_accepts_metadata_token :
  In "PG_" databaseMetadataPatterns /\
  containsFold "pg_name" "PG_" = true /\
  @ValidateOrderBy asciiOnly "pg_name" = None.
Proof. split; [simpl; tauto | split; reflexivity]. Qed.

(** ** Counting markers *)

Lemma Count_app a b c : Count (a ++ b) c = (Count a c + Count b c)%nat.
Proof. induction a as [|d a IH]; simpl; [reflexivity | rewrite IH; lia]. Qed.

Lemma markersIn_app l1 l2 :
  markersIn (l1 ++ l2)%list = (markersIn l1 + markersIn l2)%nat.
Proof. induction l1 as [|x l1 IH]; simpl; [reflexivity | rewrite IH; lia]. Qed.

Lemma markersIn_snoc l x :
  markersIn (l ++ [x])%list = (markersIn l + Count x "?")%nat.
Proof. rewrite markersIn_app. simpl. lia. Qed.

Lemma Count_Join l sep :
  Count sep "?" = 0%nat -> Count (GoStrings.Join l sep) "?" = markersIn l.
Proof.
  intros Hsep. induction l as [|x l IH]; [reflexivity|].
  destruct l as [|y l].
  - simpl. lia.
  - change (GoStrings.Join (x :: y :: l) sep)
      with (x ++ sep ++ GoStrings.Join (y :: l) sep).
    rewrite !Count_app, IH, Hsep. simpl. lia.
Qed.

Lemma Count_placeholders n :
  Count (GoStrings.Join (repeat "?" n) ", ") "?" = n.
Proof.
  rewrite Count_Join by reflexivity.
  induction n as [|n IH]; simpl; [reflexivity | now rewrite IH].
Qed.

Lemma ReplaceFirst_cons c s new :
  ReplaceFirst (String c s) "?" new
  = if Ascii.eqb c "?" then new ++ s else String c (ReplaceFirst s "?" new).
Proof.
  change (ReplaceFirst (String c s) "?" new)
    with (if HasPrefix (String c s) "?" then new ++ s
          else String c (ReplaceFirst s "?" new)).
  destruct (Ascii.eqb_spec c "?") as [->|Hne].
  - replace (HasPrefix (String "?" s) "?") with true; [reflexivity|].
    symmetry. apply HasPrefix_cons. split; [reflexivity | apply HasPrefix_empty].
  - destruct (HasPrefix (String c s) "?") eqn:Hpre; [|reflexivity].
    apply HasPrefix_cons in Hpre as [Heq _]. congruence.
Qed.

Lemma Count_ReplaceFirst s new :
  (1 <= Count s "?")%nat ->
  Count (ReplaceFirst s "?" new) "?" = (Count s "?" - 1 + Count new "?")%nat.
Proof.
  induction s as [|c s IH]; intros Hs; [simpl in Hs; lia|].
  rewrite ReplaceFirst_cons.
  change (Count (String c s) "?")
    with ((if Ascii.eqb c "?" then 1 else 0) + Count s "?")%nat in Hs |- *.
  destruct (Ascii.eqb c "?") eqn:Hc.
  - rewrite Count_app. lia.
  - change (Count (String c (ReplaceFirst s "?" new)) "?")
      with ((if Ascii.eqb c "?" then 1 else 0)
            + Count (ReplaceFirst s "?" new) "?")%nat.
    rewrite Hc, IH by lia. lia.
Qed.

(** The loop of [Where] when no sequence is empty: a scalar adds one
    argument, a sequence of [n] elements adds [n] arguments and trades one
    marker for [n]. *)
Lemma expandArg_paired args : forall condStr finalArgs,
  forallb (fun arg => negb (isEmptySeq arg)) args = true ->
  (args <> [] -> 1 <= Count condStr "?")%nat ->
  let '(condStr', finalArgs') := fold_left expandArg args (condStr, finalArgs) in
  (Count condStr' "?" + length finalArgs + length args
   = length finalArgs' + Count condStr "?")%nat.
Proof.
  induction args as [|arg args IH]; intros condStr finalArgs Hall Hcount.
  - simpl. lia.
  - simpl in Hall. apply andb_true_iff in Hall as [Harg Hall].
    assert (Hone : (1 <= Count condStr "?")%nat) by (apply Hcount; congruence).
    simpl fold_left.
    destruct arg as [| b | n | s | elems | printed];
      try (simpl expandArg;
           match goal with
           | |- context [fold_left expandArg args (?c, ?f)] =>
               specialize (IH c f Hall (fun _ => Hone));
               destruct (fold_left expandArg args (c, f)) as [c' f']
           end;
           rewrite length_app in IH; simpl in IH |- *; lia).
    destruct elems as [|e elems]; [discriminate Harg|].
    simpl expandArg.
    set (group := "(" ++ GoStrings.Join (repeat "?" (length (e :: elems))) ", " ++ ")").
    assert (Hgroup : Count group "?" = length (e :: elems)).
    { unfold group. rewrite !Count_app, Count_placeholders. simpl. lia. }
    assert (Hnew : Count (ReplaceFirst condStr "?" group) "?"
                   = (Count condStr "?" - 1 + length (e :: elems))%nat).
    { now rewrite Count_ReplaceFirst, Hgroup. }
    specialize (IH (ReplaceFirst condStr "?" group) (finalArgs ++ e :: elems)%list Hall).
    destruct (fold_left expandArg args _) as [c' f'] eqn:Hfold.
    rewrite Hnew, length_app in IH.
    simpl length in *. lia.
Qed.

(** With nothing but empty sequences, the fragment is the constant and no
    argument is added. *)
Lemma expandArg_empty args : forall condStr finalArgs,
  args <> [] -> forallb isEmptySeq args = true ->
  fold_left expandArg args (condStr, finalArgs) = ("1=0", finalArgs).
Proof.
  induction args as [|arg args IH]; intros condStr finalArgs Hne Hall;
    [congruence|].
  simpl in Hall. apply andb_true_iff in Hall as [Harg Hall].
  destruct arg as [| | | | [|e elems] |]; try discriminate Harg.
  simpl. destruct args as [|arg' args]; [reflexivity|].
  now apply IH.
Qed.

Lemma commonPrefix_spec qWheres : forall subWheres common argsToDrop,
  commonPrefix qWheres subWheres = (common, argsToDrop) ->
  (common <= length subWheres)%nat /\
  argsToDrop = markersIn (take common subWheres) /\
  take common subWheres = take common qWheres.
Proof.
  induction qWheres as [|w qWheres IH]; intros subWheres common argsToDrop Heq.
  - simpl in Heq. injection Heq as <- <-. simpl. repeat split; lia.
  - destruct subWheres as [|s subWheres].
    + simpl in Heq. injection Heq as <- <-. simpl. repeat split; lia.
    + simpl in Heq. destruct (String.eqb_spec s w) as [->|Hne].
      * destruct (commonPrefix qWheres subWheres) as [c a] eqn:Hrec.
        injection Heq as <- <-.
        destruct (IH _ _ _ Hrec) as (Hle & -> & Htake).
        simpl. rewrite Htake. repeat split; lia.
      * injection Heq as <- <-. simpl. repeat split; lia.
Qed.

Lemma markersIn_take_drop n l :
  markersIn l = (markersIn (take n l) + markersIn (drop n l))%nat.
Proof. now rewrite <- markersIn_app, take_drop. Qed.

Lemma Count_groupText subWheres subOrWheres :
  Count (groupText subWheres subOrWheres) "?"
  = (markersIn subWheres + markersIn subOrWheres)%nat.
Proof.
  unfold groupText.
  destruct subWheres as [|w ws], subOrWheres as [|o os];
    cbv beta iota zeta delta [Nat.ltb Nat.leb length];
    rewrite ?Count_app, ?Count_Join by reflexivity;
    simpl; lia.
Qed.

(** ** The pairing invariant *)

Lemma paired_new conn detected : paired (NewSqlAdapter conn detected).
Proof. split; reflexivity. Qed.

Lemma paired_UseModel q m :
  paired q -> Count (TableName m) "?" = 0%nat -> paired (UseModel q m).
Proof. intros [] Hm. split; simpl; assumption. Qed.

Lemma paired_Where_value q v args :
  paired q ->
  Count (toString (CondValue v)) "?" = length args ->
  forallb (fun arg => negb (isEmptySeq arg)) args = true ->
  paired (Where q (CondValue v) args).
Proof.
  intros [] Hcount Hall. unfold Where, clone.
  pose proof (expandArg_paired args (toString (CondValue v)) [] Hall) as Hloop.
  destruct (fold_left expandArg args (toString (CondValue v), []))
    as [condStr finalArgs].
  assert (Hpair : Count condStr "?" = length finalArgs).
  { assert (args <> [] -> (1 <= Count (toString (CondValue v)) "?")%nat) as Hone.
    { destruct args; [congruence | simpl length in Hcount; intros _; lia]. }
    specialize (Hloop Hone). cbn beta iota in Hloop. simpl length in Hloop. lia. }
  split; simpl; try assumption.
  rewrite markersIn_snoc, length_app. lia.
Qed.

Lemma paired_Where_empty q v args :
  paired q -> args <> [] -> forallb isEmptySeq args = true ->
  paired (Where q (CondValue v) args).
Proof.
  intros [] Hne Hall. unfold Where, clone.
  rewrite (expandArg_empty args _ _ Hne Hall).
  split; simpl; try assumption.
  rewrite markersIn_snoc, length_app. simpl. lia.
Qed.

Lemma paired_Where_builder q sub printed args :
  paired q -> paired sub -> paired (Where q (CondBuilder sub printed) args).
Proof.
  intros [] Hsub. unfold Where, clone.
  pose proof (paired_wheres sub Hsub) as Hw.
  pose proof (paired_ors sub Hsub) as Ho.
  assert (Hgoal : forall subWheres subWhereArgs,
    markersIn subWheres = length subWhereArgs ->
    paired (set_where q
              (wheres q ++ [groupText subWheres (orWheres sub)])%list
              ((whereArgs q ++ subWhereArgs) ++ orArgs sub)%list)).
  { intros sw sa Hsw. split; simpl; try assumption.
    rewrite markersIn_snoc, Count_groupText, !length_app. lia. }
  destruct (model_eqb (model sub) (model q) && (0 <? length (wheres q))%nat
            && (length (wheres q) <=? length (wheres sub))%nat);
    [|now apply Hgoal].
  destruct (commonPrefix (wheres q) (wheres sub)) as [common argsToDrop] eqn:Hcp.
  apply commonPrefix_spec in Hcp as (Hle & -> & _).
  pose proof (markersIn_take_drop common (wheres sub)) as Hsplit.
  destruct (0 <? common)%nat; [|now apply Hgoal].
  destruct (Nat.leb_spec (markersIn (take common (wheres sub)))
              (length (whereArgs sub))) as [Hfits|Hover]; [|lia].
  apply Hgoal. rewrite length_drop. lia.
Qed.

Lemma paired_Or q cond args :
  paired q -> Count (toString cond) "?" = length args -> paired (Or q cond args).
Proof.
  intros [] Hcount. unfold Or, clone. split; simpl; try assumption.
  rewrite markersIn_snoc, length_app. lia.
Qed.

Lemma paired_Join `{UnicodeTables} q joinClause args :
  paired q -> Count joinClause "?" = length args ->
  paired (Join q joinClause args).
Proof.
  intros Hq Hcount. unfold Join, clone.
  destruct (ValidateJoinClause joinClause); [exact Hq|].
  destruct Hq. split; simpl; try assumption.
  rewrite markersIn_snoc, length_app. lia.
Qed.

Lemma paired_Having `{UnicodeTables} q cols args :
  paired q -> havings q = [] -> markersIn cols = length args ->
  paired (Having q cols args).
Proof.
  intros Hq Hfirst Hcount. unfold Having, clone.
  destruct (ValidateHavingClause cols); [exact Hq|].
  destruct (0 <? length cols)%nat; [|exact Hq].
  destruct Hq as [? ? ? ? ? ? ? ? ? Hh].
  rewrite Hfirst in Hh. simpl in Hh.
  split; simpl; try assumption.
  rewrite length_app. lia.
Qed.

Lemma balanced_paired `{UnicodeTables} q : balanced q -> paired q.
Proof.
  induction 1;
    eauto using paired_new, paired_UseModel, paired_Where_value,
      paired_Where_empty, paired_Where_builder, paired_Or, paired_Join,
      paired_Having.
Qed.
Lemma assemble_paired q count :
  paired q ->
  Count (fst (assemble q count)) "?" = length (snd (assemble q count)).
Proof.
  intros [Ht Hf Hg Ho Hl Hoff Hj Hw Hor Hh].
  unfold assemble. rewrite Hg, Ho, Hl, Hoff.
  cbn [fst snd]. change (String.eqb "" "") with true.
  change (0 <? length (@nil string))%nat with false.
  cbn [negb andb].
  rewrite !Count_app, !length_app, Ht.
  assert (Hhead : Count (if count then "SELECT COUNT(1) FROM "
                         else "SELECT " ++ GoStrings.Join (fields q) ", " ++ " FROM ")
                    "?" = 0%nat).
  { destruct count; [reflexivity|].
    rewrite !Count_app, Count_Join, Hf by reflexivity. reflexivity. }
  rewrite Hhead. clear Hhead Hf Ht.
  destruct count, (joins q), (wheres q), (orWheres q), (havings q);
    cbn [length Nat.ltb Nat.leb orb andb negb];
    rewrite ?Count_app, ?Count_Join by reflexivity;
    simpl in *; lia.
Qed.

(** ** The numbering pass *)

Lemma Count_pretty_N_go x : forall s,
  Count (pretty_N_go x s) "?" = Count s "?".
Proof.
  induction (N.lt_wf_0 x) as [x _ IH]; intros s.
  destruct (N.eq_dec x 0%N) as [->|Hx]; [reflexivity|].
  rewrite pretty_N_go_step by lia.
  rewrite IH by (apply N.div_lt; lia).
  unfold pretty_N_char. repeat case_match; reflexivity.
Qed.

Lemma SprintInt_no_marker n : Count (SprintInt n) "?" = 0%nat.
Proof.
  unfold SprintInt, pretty, pretty_Z.
  destruct n as [|p|p]; [reflexivity | |];
    unfold pretty, pretty_positive, pretty, pretty_N;
    (destruct (decide (N.pos p = 0%N)); [discriminate|]);
    rewrite ?Count_app, Count_pretty_N_go; reflexivity.
Qed.

Lemma numberMarkers_no_marker sqlStr : forall idx,
  Count (numberMarkers idx sqlStr) "?" = 0%nat.
Proof.
  induction sqlStr as [|c rest IH]; intros idx; [reflexivity|].
  simpl numberMarkers. destruct (Ascii.eqb c "?") eqn:Hc.
  - change (Count (SprintInt (Z.of_nat (S idx)) ++ numberMarkers (S idx) rest) "?"
            = 0%nat).
    rewrite Count_app, SprintInt_no_marker, IH. reflexivity.
  - change (Count (String c (numberMarkers idx rest)) "?")
      with ((if Ascii.eqb c "?" then 1 else 0)
            + Count (numberMarkers idx rest) "?")%nat.
    now rewrite Hc, IH.
Qed.

Lemma numberMarkers_app pre : forall idx post,
  numberMarkers idx (pre ++ post)
  = numberMarkers idx pre ++ numberMarkers (idx + Count pre "?") post.
Proof.
  induction pre as [|c pre IH]; intros idx post.
  - simpl. now rewrite Nat.add_0_r.
  - simpl String.append. simpl numberMarkers.
    change (Count (String c pre) "?")
      with ((if Ascii.eqb c "?" then 1 else 0) + Count pre "?")%nat.
    destruct (Ascii.eqb c "?").
    + rewrite IH. simpl String.append.
      rewrite !append_assoc.
      rewrite ?Nat.add_succ_r. reflexivity.
    + rewrite IH. reflexivity.
Qed.

Lemma build_text q count :
  fst (build q count)
  = match flavor q with
    | FlavorPostgres => numberMarkers 0 (fst (assemble q count))
    | FlavorMySQL => fst (assemble q count)
    end.
Proof. unfold build. destruct (assemble q count), (flavor q); reflexivity. Qed.

Lemma build_args q count : snd (build q count) = snd (assemble q count).
Proof. unfold build. destruct (assemble q count), (flavor q); reflexivity. Qed.

(** ** Statement assembly *)

Lemma Split_length s sep : length (Split s sep) = S (Count s sep).
Proof.
  induction s as [|c s IH]; [reflexivity|].
  simpl. destruct (Ascii.eqb c sep); simpl; [now rewrite IH|].
  destruct (Split s sep); [discriminate IH | exact IH].
Qed.

Lemma Split_pieces s sep :
  Forall (fun piece => Count piece sep = 0%nat) (Split s sep).
Proof.
  induction s as [|c s IH]; [now repeat constructor|].
  simpl. destruct (Ascii.eqb c sep) eqn:Hc; [now constructor|].
  pose proof (Split_length s sep) as Hlen.
  destruct (Split s sep) as [|piece pieces]; [discriminate Hlen|].
  inversion IH as [|x l Hpiece Hpieces]; subst.
  constructor; [|exact Hpieces]. simpl. now rewrite Hc, Hpiece.
Qed.

(** The numbering loop puts [$1], [$2], ... between the pieces that the
    [?] bytes cut the text into. *)
Lemma numberMarkers_numbered s : forall idx,
  numberMarkers idx s = numbered idx (Split s "?").
Proof.
  induction s as [|c s IH]; intros idx; [reflexivity|].
  pose proof (Split_length s "?") as Hlen.
  simpl numberMarkers. simpl Split. destruct (Ascii.eqb c "?").
  - rewrite IH. destruct (Split s "?") as [|piece pieces]; [discriminate Hlen|].
    reflexivity.
  - rewrite IH. destruct (Split s "?") as [|piece pieces]; [discriminate Hlen|].
    now destruct pieces.
Qed.

(** The statement of the generic dialect is the assembled one. *)
Lemma build_generic q count :
  build (withFlavor FlavorMySQL q) count = assemble q count.
Proof.
  unfold build. change (assemble (withFlavor FlavorMySQL q) count)
    with (assemble q count).
  now destruct (assemble q count).
Qed.

(** C2, as the code has it: for a builder reached from [NewSqlAdapter] by
    [UseModel], [Where], [Or], [Join] and [Having] calls that each hand over
    as many arguments as their text has [?] markers (see [balanced]), the
    statement of [build] has exactly as many markers as arguments.  Under
    the generic dialect the markers are the [?] bytes.  Under the numbered
    dialect the statement is the one the generic dialect builds for the
    same builder, which has one [?] for each argument, with the [?] bytes
    taken out and [$1], [$2], ..., [$n] put in their places, [n] being the
    number of arguments: the [n + 1] pieces between the markers are those
    of the generic statement, the arguments are the same, and no [?] is
    left. *)
Theorem build_markers_match_arguments `{UnicodeTables} q count :
  balanced q ->
  (flavor q = FlavorMySQL ->
   Count (fst (build q count)) "?" = length (snd (build q count))) /\
  (flavor q = FlavorPostgres ->
   let generic := build (withFlavor FlavorMySQL q) count in
   let pieces := Split (fst generic) "?" in
   snd generic = snd (build q count) /\
   Count (fst generic) "?" = length (snd (build q count)) /\
   length pieces = S (length (snd (build q count))) /\
   Forall (fun piece => Count piece "?" = 0%nat) pieces /\
   fst (build q count) = numbered 0 pieces /\
   Count (fst (build q count)) "?" = 0%nat).
Proof.
  intros Hq. apply balanced_paired in Hq.
  pose proof (assemble_paired q count Hq) as Hpair.
  split; intros Hflavor.
  - rewrite build_text, build_args, Hflavor. exact Hpair.
  - cbv zeta. rewrite build_generic, build_text, build_args, Hflavor.
    split; [reflexivity|]. split; [exact Hpair|].
    split; [now rewrite Split_length, Hpair|].
    split; [apply Split_pieces|].
    split; [apply numberMarkers_numbered | apply numberMarkers_no_marker].
Qed.

Lemma build_markers_match_arguments_witness :
  let generic := Where (UseModel (NewSqlAdapter emptyDB FlavorMySQL) users)
                   (Text "id IN ?") [VSeq [VInt 1; VInt 2; VInt 3]] in
  let q := Where (UseModel (NewSqlAdapter emptyDB FlavorPostgres) users)
             (Text "id IN ?") [VSeq [VInt 1; VInt 2; VInt 3]] in
  (build generic false
   = ("SELECT * FROM users WHERE id IN (?, ?, ?)", [VInt 1; VInt 2; VInt 3]) /\
   Count (fst (build generic false)) "?" = length (snd (build generic false))) /\
  (build q false
   = ("SELECT * FROM users WHERE id IN ($1, $2, $3)", [VInt 1; VInt 2; VInt 3]) /\
   fst (build q false)
   = numbered 0 ["SELECT * FROM users WHERE id IN ("; ", "; ", "; ")"] /\
   length ["SELECT * FROM users WHERE id IN ("; ", "; ", "; ")"]
   = S (length (snd (build q false)))).
Proof.
  intros generic q. split.
  - split; [reflexivity|].
    refine (proj1 (@build_markers_match_arguments asciiOnly generic false _) _).
    + apply balanced_Where; [|reflexivity|reflexivity].
      apply balanced_UseModel; [apply balanced_new | reflexivity].
    + reflexivity.
  - split; [reflexivity|].
    assert (Hq : @balanced asciiOnly q).
    { apply balanced_Where; [|reflexivity|reflexivity].
      apply balanced_UseModel; [apply balanced_new | reflexivity]. }
    destruct (proj2 (@build_markers_match_arguments asciiOnly q false Hq) eq_refl)
      as (_ & _ & Hpieces & _ & Htext & _).
    split; [exact Htext | exact Hpieces].
Defined.

(** C2 fails when a call hands over fewer arguments than its text has
    markers: [Or("role = ?")] with no argument builds one marker and an
    empty argument list. *)
Lemma build_markers_without_arguments :
  let q := Or (UseModel (NewSqlAdapter emptyDB FlavorMySQL) users)
             (Text "role = ?") [] in
  build q false = ("SELECT * FROM users WHERE (role = ?)", []) /\
  Count (fst (build q false)) "?" = 1%nat /\
  length (snd (build q false)) = 0%nat.
Proof. repeat split. Qed.

(** C7, as the code has it: under the numbered dialect the last pass of
    [build] rewrites every [?] byte of the assembled text, whatever stands
    before it (an open quote included), to [$n], where [n] is one more than
    the number of [?] bytes before it; no [?] is left in the statement. *)
Theorem numbering_rewrites_every_marker q count (pre post : string) args :
  flavor q = FlavorPostgres ->
  assemble q count = (pre ++ "?" ++ post, args) ->
  build q count
  = (numberMarkers 0 pre
       ++ "$" ++ SprintInt (Z.of_nat (S (Count pre "?")))
       ++ numberMarkers (S (Count pre "?")) post,
     args) /\
  Count (fst (build q count)) "?" = 0%nat.
Proof.
  intros Hflavor Hasm. split.
  - unfold build. rewrite Hasm, Hflavor.
    rewrite numberMarkers_app. reflexivity.
  - rewrite build_text, Hflavor. apply numberMarkers_no_marker.
Qed.

Lemma numbering_rewrites_every_marker_witness :
  build (Where (UseModel (NewSqlAdapter emptyDB FlavorPostgres) users)
           (Text "note = 'why?' AND id = ?") [VInt 5]) false
  = ("SELECT * FROM users WHERE note = 'why$1' AND id = $2", [VInt 5]).
Proof.
  refine (proj1 (numbering_rewrites_every_marker
                   (Where (UseModel (NewSqlAdapter emptyDB FlavorPostgres) users)
                      (Text "note = 'why?' AND id = ?") [VInt 5])
                   false "SELECT * FROM users WHERE note = 'why"
                   "' AND id = ?" [VInt 5] _ _)); reflexivity.
Defined.

(** C7 fails on a [?] inside a quoted literal: it is numbered [$1] and the
    placeholder after it becomes [$2]; the literal is not kept and the
    placeholder is not numbered [$1]. *)
Lemma numbering_rewrites_quoted_marker :
  let q := Where (UseModel (NewSqlAdapter emptyDB FlavorPostgres) users)
             (Text "note = 'why?' AND id = ?") [VInt 5] in
  fst (build q false) = "SELECT * FROM users WHERE note = 'why$1' AND id = $2" /\
  fst (build q false) <> "SELECT * FROM users WHERE note = 'why?' AND id = $1".
Proof. split; [reflexivity | vm_compute; discriminate]. Qed.

(** ** Chain methods *)

(** C3: when the validator rejects the input, [Order], [Join], [Select],
    [GroupBy] and [Having] return the receiver itself; the methods have no
    error result, and every statement assembled afterwards, through whatever
    further calls [next], is the one the receiver gives. *)
Theorem rejected_input_returns_receiver `{UnicodeTables} q
        (next : SqlQueryAdapter -> SqlQueryAdapter) count :
  (forall order err,
      ValidateOrderBy order = Some err ->
      Order q order = q /\
      build (next (Order q order)) count = build (next q) count) /\
  (forall joinClause args err,
      ValidateJoinClause joinClause = Some err ->
      Join q joinClause args = q /\
      build (next (Join q joinClause args)) count = build (next q) count) /\
  (forall sel err,
      SanitizeSelectFields sel = inl err ->
      Select q sel = q /\
      build (next (Select q sel)) count = build (next q) count) /\
  (forall cols err,
      SanitizeColumnNames cols = inl err ->
      GroupBy q cols = q /\
      build (next (GroupBy q cols)) count = build (next q) count) /\
  (forall cols args err,
      ValidateHavingClause cols = Some err ->
      Having q cols args = q /\
      build (next (Having q cols args)) count = build (next q) count).
Proof.
  repeat split; intros;
    unfold Order, Join, Select, GroupBy, Having;
    match goal with Hrej : _ = _ |- _ => rewrite Hrej end; reflexivity.
Qed.

Lemma rejected_input_returns_receiver_witness :
  let q := Where (UseModel (NewSqlAdapter emptyDB FlavorMySQL) users)
             (Text "status = ?") [VStr "active"] in
  @Order asciiOnly q "name; DROP TABLE users; --" = q /\
  @Join asciiOnly q "JOIN orders ON 1=1; DROP TABLE users" [] = q /\
  Select q ["id; DROP TABLE x"] = q /\
  GroupBy q ["role"; "1; --"] = q /\
  @Having asciiOnly q ["COUNT(id) > (SELECT 1)"] [] = q.
Proof.
  intros q.
  pose proof (@rejected_input_returns_receiver asciiOnly q (fun b => b) false)
    as (HOrder & HJoin & HSelect & HGroupBy & HHaving).
  split; [|split; [|split; [|split]]].
  - refine (proj1 (HOrder _ ErrSuspiciousPattern _)). reflexivity.
  - refine (proj1 (HJoin _ _ ErrSuspiciousPattern _)). reflexivity.
  - refine (proj1 (HSelect _ ErrInvalidIdentifier _)). reflexivity.
  - refine (proj1 (HGroupBy _ ErrInvalidColumnName _)). reflexivity.
  - refine (proj1 (HHaving _ _ ErrSuspiciousPattern _)). reflexivity.
Defined.

(** C4: the scenario of the specification.  A builder over [users] with the
    AND fragment [status = ?], the two OR fragments [role = ?], the order
    [created_at DESC] and the limit 10, and nothing else, builds the
    statement of the scenario and its three arguments, with [?] markers
    under the generic dialect and [$1], [$2], [$3] under the numbered one. *)
Theorem build_scenario q :
  table q = "users" -> fields q = ["*"] ->
  joins q = [] -> joinArgs q = [] ->
  wheres q = ["status = ?"] -> whereArgs q = [VStr "active"] ->
  orWheres q = ["role = ?"; "role = ?"] ->
  orArgs q = [VStr "admin"; VStr "owner"] ->
  groups q = [] -> havings q = [] ->
  orderBy q = "created_at DESC" -> limit q = Some 10%Z -> offset q = None ->
  build q false
  = (match flavor q with
     | FlavorMySQL =>
         "SELECT * FROM users WHERE status = ? OR (role = ? OR role = ?) ORDER BY created_at DESC LIMIT 10"
     | FlavorPostgres =>
         "SELECT * FROM users WHERE status = $1 OR (role = $2 OR role = $3) ORDER BY created_at DESC LIMIT 10"
     end,
     [VStr "active"; VStr "admin"; VStr "owner"]).
Proof.
  intros Ht Hf Hj Hja Hw Hwa Ho Hoa Hg Hh Hob Hl Hoff.
  unfold build, assemble.
  rewrite Ht, Hf, Hj, Hja, Hw, Hwa, Ho, Hoa, Hg, Hh, Hob, Hl, Hoff.
  destruct (flavor q); reflexivity.
Qed.

Lemma build_scenario_witness :
  build (scenario FlavorMySQL) false
  = ("SELECT * FROM users WHERE status = ? OR (role = ? OR role = ?) ORDER BY created_at DESC LIMIT 10",
     [VStr "active"; VStr "admin"; VStr "owner"]) /\
  build (scenario FlavorPostgres) false
  = ("SELECT * FROM users WHERE status = $1 OR (role = $2 OR role = $3) ORDER BY created_at DESC LIMIT 10",
     [VStr "active"; VStr "admin"; VStr "owner"]).
Proof.
  split.
  - apply (build_scenario (scenario FlavorMySQL)); reflexivity.
  - apply (build_scenario (scenario FlavorPostgres)); reflexivity.
Defined.

(** [created_at] contains the token [CREATE], so the validating [Order]
    leaves the builder as it is. *)
Lemma Order_drops_created_at q :
  @Order asciiOnly q "created_at DESC" = q.
Proof. reflexivity. Qed.

(** C5: [Where] with one empty sequence as its argument appends the constant
    false predicate [1=0] in place of the condition, whatever its text (a
    single placeholder included), and adds no argument: in the builder it
    returns the AND fragments are those of the receiver followed by [1=0],
    the AND arguments are those of the receiver, and every other field is
    the receiver's. *)
Theorem Where_empty_sequence q v :
  let q' := Where q (CondValue v) [VSeq []] in
  wheres q' = (wheres q ++ ["1=0"])%list /\
  whereArgs q' = whereArgs q /\
  orWheres q' = orWheres q /\ orArgs q' = orArgs q /\
  joins q' = joins q /\ joinArgs q' = joinArgs q /\
  havings q' = havings q /\ havingArgs q' = havingArgs q /\
  fields q' = fields q /\ groups q' = groups q /\
  orderBy q' = orderBy q /\ limit q' = limit q /\ offset q' = offset q /\
  table q' = table q /\ model q' = model q /\ flavor q' = flavor q.
Proof.
  unfold Where, clone. simpl fold_left. simpl expandArg. cbv beta iota zeta.
  destruct q. cbn. rewrite app_nil_r. repeat split.
Qed.

Lemma Where_empty_sequence_witness :
  let q := Where (UseModel (NewSqlAdapter emptyDB FlavorMySQL) users)
             (Text "status = ?") [VStr "active"] in
  let q' := Where q (Text "id IN ?") [VSeq []] in
  wheres q' = ["status = ?"; "1=0"] /\
  whereArgs q' = [VStr "active"] /\
  build q' false
  = ("SELECT * FROM users WHERE status = ? AND 1=0", [VStr "active"]).
Proof.
  intros q q'.
  destruct (Where_empty_sequence q (VStr "id IN ?")) as (Hwheres & Hargs & _).
  split; [exact Hwheres|]. split; [exact Hargs | reflexivity].
Defined.

(** ** A builder as the condition of [Where] *)

Lemma Tabler_eqb_refl m : Tabler_eqb m m = true.
Proof. unfold Tabler_eqb. now rewrite N.eqb_refl, String.eqb_refl. Qed.

Lemma model_eqb_refl m : model_eqb m m = true.
Proof. destruct m; [apply Tabler_eqb_refl | reflexivity]. Qed.

Lemma commonPrefix_shared qWheres rest :
  commonPrefix qWheres (qWheres ++ rest)%list
  = (length qWheres, markersIn qWheres).
Proof.
  induction qWheres as [|w qWheres IH]; simpl.
  - destruct rest; reflexivity.
  - now rewrite String.eqb_refl, IH.
Qed.

Lemma groupText_shape subWheres subOrWheres :
  groupText subWheres subOrWheres
  = "(" ++ GoStrings.Join subWheres " AND " ++
    match subOrWheres with
    | [] => ""
    | _ => match subWheres with [] => "" | _ => " OR " end ++
           "(" ++ GoStrings.Join subOrWheres " OR " ++ ")"
    end ++ ")".
Proof. destruct subWheres, subOrWheres; reflexivity. Qed.

(** C6: when the builder handed to [Where] has the model of the receiver
    and its AND fragments start with all the AND fragments of the receiver,
    these leading fragments are left out, as many leading arguments are
    dropped as they have [?] bytes, and the rest is appended as one
    fragment: the remaining AND fragments joined by [ AND ], then the OR
    fragments, if any, joined by [ OR ] in parentheses of their own (after
    [ OR ] when an AND fragment remains), all in parentheses; its arguments
    are the remaining AND arguments followed by the OR arguments. *)
Theorem Where_builder_strips_shared_prefix q sub printed args rest :
  model sub = model q ->
  wheres sub = (wheres q ++ rest)%list ->
  Where q (CondBuilder sub printed) args
  = set_where q
      (wheres q ++
       [ ("(" ++ GoStrings.Join rest " AND " ++
          match orWheres sub with
          | [] => ""
          | _ => match rest with [] => "" | _ => " OR " end ++
                 "(" ++ GoStrings.Join (orWheres sub) " OR " ++ ")"
          end ++ ")")%string ])%list
      (whereArgs q ++ drop (markersIn (wheres q)) (whereArgs sub) ++ orArgs sub)%list.
Proof.
  intros Hmodel Hsub. unfold Where, clone.
  rewrite Hmodel, model_eqb_refl, Hsub, <- groupText_shape.
  destruct (wheres q) as [|w ws] eqn:Hq.
  - cbn [length Nat.ltb Nat.leb andb app]. cbv beta iota.
    now rewrite <- app_assoc.
  - rewrite commonPrefix_shared.
    assert (Hlen : (length (w :: ws) <=? length ((w :: ws) ++ rest)%list)%nat = true).
    { apply Nat.leb_le. rewrite length_app. lia. }
    rewrite Hlen. change (0 <? length (w :: ws))%nat with true.
    cbn [andb]. cbv beta iota. rewrite drop_app_length, <- app_assoc.
    destruct (Nat.leb_spec (markersIn (w :: ws)) (length (whereArgs sub)))
      as [Hfits|Hover]; [reflexivity|].
    rewrite drop_ge by lia. reflexivity.
Qed.

Lemma Where_builder_strips_shared_prefix_witness :
  let base := Where (UseModel (NewSqlAdapter emptyDB FlavorMySQL) users)
                (Text "a = ?") [VInt 1] in
  let sub := Or (Where base (Text "x = ?") [VInt 9]) (Text "c = ?") [VInt 3] in
  build (Where base (CondBuilder sub "&{}") []) false
  = ("SELECT * FROM users WHERE a = ? AND (x = ? OR (c = ?))",
     [VInt 1; VInt 9; VInt 3]).
Proof.
  intros base sub.
  rewrite (Where_builder_strips_shared_prefix base sub "&{}" [] ["x = ?"]);
    reflexivity.
Defined.

(** ** [Scan] and [First] *)

Lemma bindModel_wire `{UnicodeTables} w p q dest w' q' :
  bindModel w p q dest = inr (w', q') -> wire w' = wire w.
Proof.
  unfold bindModel. destruct (model q).
  - now intros [= <- <-].
  - destruct (asTabler dest); [|discriminate]. now intros [= <- <-].
Qed.

Lemma append_longer (s t : string) : t <> "" -> s ++ t <> s.
Proof.
  intros Ht Heq. apply Ht.
  assert (Hlen : String.length (s ++ t) = String.length s) by now rewrite Heq.
  assert (Happ : forall a b, String.length (a ++ b)
                             = (String.length a + String.length b)%nat).
  { intros a b. induction a as [|c a IH]; simpl; [reflexivity | now rewrite IH]. }
  rewrite Happ in Hlen. destruct t; [reflexivity | simpl in Hlen; lia].
Qed.

(** C8: when the statement is executed and the cursor delivers no row and
    reports no error, [First] returns [ErrNotFound], whatever the
    destination; [Scan] into a pointer to a struct returns nil and leaves
    the destination as it was.  (The builder has a model, or takes it from
    the destination: [bindModel] succeeds.) *)
Theorem no_rows_First_and_Scan `{UnicodeTables} w p q dest w' q' rows :
  heap w !! p = Some q ->
  bindModel w p q dest = inr (w', q') ->
  pending rows = [] -> Err rows = None ->
  (db q' (withLimitOne (fst (build q' false))) (snd (build q' false)) = inr rows ->
   First w p dest
   = (send w' (withLimitOne (fst (build q' false))) (snd (build q' false)),
      dest, Return (Some ErrNotFound))) /\
  (forall t fieldVals,
     reflected dest = PointerTo (PStruct t fieldVals) ->
     db q' (fst (build q' false)) (snd (build q' false)) = inr rows ->
     Scan w p dest
     = (send w' (fst (build q' false)) (snd (build q' false)),
        dest, Return None)).
Proof.
  intros Hq Hbind Hrows Herr. split.
  - intros Hdb. unfold First. rewrite Hq, Hbind.
    destruct (build q' false) as [sqlStr args]. cbn [fst snd] in Hdb |- *.
    rewrite Hdb. unfold firstInto. now rewrite Hrows, Herr.
  - intros t fieldVals Hdest Hdb. unfold Scan. rewrite Hq, Hbind.
    destruct (build q' false) as [sqlStr args]. cbn [fst snd] in Hdb |- *.
    rewrite Hdb. unfold scanInto. now rewrite Hdest, Hrows, Herr.
Qed.

Lemma no_rows_First_and_Scan_witness :
  let q := UseModel (NewSqlAdapter emptyDB FlavorMySQL) users in
  let dest := userDest [VStr "7"; VStr "Ann"] in
  @First asciiOnly (oneBuilder q) 1%N dest
  = (send (oneBuilder q) "SELECT * FROM users LIMIT 1" [], dest,
     Return (Some ErrNotFound)) /\
  @Scan asciiOnly (oneBuilder q) 1%N dest
  = (send (oneBuilder q) "SELECT * FROM users" [], dest, Return None).
Proof.
  intros q dest.
  pose proof (@no_rows_First_and_Scan asciiOnly (oneBuilder q) 1%N q dest
                (oneBuilder q) q {| Columns := []; pending := []; Err := None |}
                eq_refl eq_refl eq_refl eq_refl) as [HFirst HScan].
  split.
  - exact (HFirst eq_refl).
  - exact (HScan userRecord [VStr "7"; VStr "Ann"] eq_refl eq_refl).
Defined.

(** C9: for a builder without a model, [Scan] and [First] on a destination
    that is a [Tabler] write the model and the table name into the builder
    at the address of the receiver: after the call that address holds a
    builder whose model is the destination and whose table is its table
    name, every other field being what it was; no other address is touched
    and none is added, and the statement handed to the driver is the one
    the updated builder builds. *)
Theorem unbound_receiver_is_bound_in_place `{UnicodeTables} w p q dest t :
  heap w !! p = Some q ->
  model q = None ->
  asTabler dest = Some t ->
  let q' := set_table (set_model q (Some t)) (TableName t) in
  (model q' = Some t /\ table q' = TableName t /\
   db q' = db q /\ ctx q' = ctx q /\ flavor q' = flavor q /\
   fields q' = fields q /\ groups q' = groups q /\
   havings q' = havings q /\ havingArgs q' = havingArgs q /\
   joins q' = joins q /\ joinArgs q' = joinArgs q /\
   wheres q' = wheres q /\ whereArgs q' = whereArgs q /\
   orWheres q' = orWheres q /\ orArgs q' = orArgs q /\
   orderBy q' = orderBy q /\ limit q' = limit q /\ offset q' = offset q) /\
  let '(sqlStr, args) := build q' false in
  let '(wScan, _, _) := Scan w p dest in
  let '(wFirst, _, _) := First w p dest in
  heap wScan = <[p := q']> (heap w) /\
  heap wFirst = <[p := q']> (heap w) /\
  heap wScan !! p = Some q' /\
  heap wFirst !! p = Some q' /\
  model <$> heap wScan !! p = Some (Some t) /\
  model <$> heap wFirst !! p = Some (Some t) /\
  table <$> heap wScan !! p = Some (TableName t) /\
  table <$> heap wFirst !! p = Some (TableName t) /\
  (forall p', p' <> p -> heap wScan !! p' = heap w !! p') /\
  (forall p', p' <> p -> heap wFirst !! p' = heap w !! p') /\
  dom (heap wScan) = dom (heap w) /\
  dom (heap wFirst) = dom (heap w) /\
  wire wScan = (wire w ++ [(sqlStr, args)])%list /\
  wire wFirst = (wire w ++ [(withLimitOne sqlStr, args)])%list.
Proof.
  intros Hq Hmodel Hdest q'.
  split; [now destruct q|].
  assert (Hbind : bindModel w p q dest = inr (store w p q', q')).
  { unfold bindModel. now rewrite Hmodel, Hdest. }
  assert (Hdom : dom (<[p := q']> (heap w)) = dom (heap w)).
  { apply dom_insert_lookup_L. now exists q. }
  assert (Hother : forall p', p' <> p ->
            <[p := q']> (heap w) !! p' = heap w !! p').
  { intros p' Hne. now apply lookup_insert_ne. }
  assert (Hm : model q' = Some t) by now destruct q.
  assert (Ht : table q' = TableName t) by now destruct q.
  unfold Scan, First. rewrite Hq, Hbind.
  destruct (build q' false) as [sqlStr args].
  destruct (db q' sqlStr args) as [err|rows];
    destruct (db q' (withLimitOne sqlStr) args) as [err'|rows'];
    try destruct (scanInto rows dest); try destruct (scanInto rows' dest);
    try destruct (firstInto rows dest); try destruct (firstInto rows' dest);
    cbn [heap wire send store];
    rewrite ?lookup_insert_eq; cbn [fmap option_fmap option_map];
    rewrite ?Hm, ?Ht; repeat split; assumption.
Qed.

Lemma unbound_receiver_is_bound_in_place_witness :
  let q := NewSqlAdapter emptyDB FlavorMySQL in
  let dest := userDest [VStr "7"; VStr "Ann"] in
  model q = None /\
  model <$> heap (@Scan asciiOnly (oneBuilder q) 1%N dest).1.1 !! 1%N
  = Some (Some users) /\
  table <$> heap (@Scan asciiOnly (oneBuilder q) 1%N dest).1.1 !! 1%N
  = Some "users" /\
  model <$> heap (@First asciiOnly (oneBuilder q) 1%N dest).1.1 !! 1%N
  = Some (Some users) /\
  wire (@Scan asciiOnly (oneBuilder q) 1%N dest).1.1 = [("SELECT * FROM users", [])].
Proof.
  intros q dest. split; [reflexivity|].
  pose proof (@unbound_receiver_is_bound_in_place asciiOnly (oneBuilder q) 1%N q
                dest users eq_refl eq_refl eq_refl) as Hbound.
  cbv zeta in Hbound. destruct Hbound as [_ Hbound].
  change (build (set_table (set_model q (Some users)) (TableName users)) false)
    with ("SELECT * FROM users", @nil value) in Hbound.
  cbv beta iota in Hbound.
  destruct (@Scan asciiOnly (oneBuilder q) 1%N dest) as [[wScan dScan] oScan].
  destruct (@First asciiOnly (oneBuilder q) 1%N dest) as [[wFirst dFirst] oFirst].
  destruct Hbound
    as (_ & _ & _ & _ & HmScan & HmFirst & HtScan & _ & _ & _ & _ & _ & Hwire & _).
  cbn [fst].
  split; [exact HmScan|]. split; [exact HtScan|].
  split; [exact HmFirst | exact Hwire].
Defined.

(** C10: the statement [First] hands to the driver is the built one with
    [ LIMIT 1] appended exactly when the built one, put in lower case by
    [strings.ToLower], does not contain [limit], and is the built one
    otherwise.  An occurrence of [limit] in any mix of ASCII cases, at any
    place (a column name such as [limit_count] included), keeps the suffix
    away; on a statement that is ASCII throughout nothing else does. *)
Theorem First_appends_limit_one `{UnicodeTables} w p q dest w' q' :
  heap w !! p = Some q ->
  bindModel w p q dest = inr (w', q') ->
  let '(sqlStr, args) := build q' false in
  let '(wFirst, _, _) := First w p dest in
  exists sent,
    wire wFirst = (wire w ++ [(sent, args)])%list /\
    (sent = sqlStr ++ " LIMIT 1" <-> Contains (ToLower sqlStr) "limit" = false) /\
    (sent = sqlStr <-> Contains (ToLower sqlStr) "limit" = true) /\
    (mentions sqlStr "limit" = true -> sent = sqlStr) /\
    (allASCII sqlStr = true ->
     Contains (ToLower sqlStr) "limit" = mentions sqlStr "limit").
Proof.
  intros Hq Hbind. unfold First. rewrite Hq, Hbind.
  pose proof (bindModel_wire _ _ _ _ _ _ Hbind) as Hwire.
  destruct (build q' false) as [sqlStr args]. cbv zeta.
  assert (Hsent :
    (withLimitOne sqlStr = sqlStr ++ " LIMIT 1"
     <-> Contains (ToLower sqlStr) "limit" = false) /\
    (withLimitOne sqlStr = sqlStr
     <-> Contains (ToLower sqlStr) "limit" = true) /\
    (mentions sqlStr "limit" = true -> withLimitOne sqlStr = sqlStr) /\
    (allASCII sqlStr = true ->
     Contains (ToLower sqlStr) "limit" = mentions sqlStr "limit")).
  { split; [|split; [|split]].
    - unfold withLimitOne. destruct (Contains (ToLower sqlStr) "limit"); simpl.
      + split; [|discriminate]. intros Heq. symmetry in Heq.
        now apply append_longer in Heq.
      + tauto.
    - unfold withLimitOne. destruct (Contains (ToLower sqlStr) "limit"); simpl.
      + tauto.
      + split; [|discriminate]. intros Heq. now apply append_longer in Heq.
    - intros Hin. unfold withLimitOne.
      now rewrite (mentions_ToLower sqlStr "limit" eq_refl Hin).
    - intros Hascii. unfold ToLower, mentions. now rewrite mapCase_ascii. }
  destruct (db q' (withLimitOne sqlStr) args) as [err|rows];
    [|destruct (firstInto rows dest) as [dest' out]];
    exists (withLimitOne sqlStr); (split; [|exact Hsent]);
    cbn [wire send]; now rewrite Hwire.
Qed.

Lemma First_appends_limit_one_witness :
  let q := @Order asciiOnly (UseModel (NewSqlAdapter emptyDB FlavorMySQL) users)
             "limit_count" in
  exists sent,
    wire (@First asciiOnly (oneBuilder q) 1%N (userDest [])).1.1
    = [(sent, [])] /\
    (sent = "SELECT * FROM users ORDER BY limit_count" <->
     Contains (@ToLower asciiOnly "SELECT * FROM users ORDER BY limit_count") "limit"
     = true).
Proof.
  intros q.
  pose proof (@First_appends_limit_one asciiOnly (oneBuilder q) 1%N q
                (userDest []) (oneBuilder q) q eq_refl eq_refl) as Hfirst.
  change (build q false)
    with ("SELECT * FROM users ORDER BY limit_count", @nil value) in Hfirst.
  cbv beta iota in Hfirst.
  destruct (@First asciiOnly (oneBuilder q) 1%N (userDest [])) as [[wFirst d] o].
  destruct Hfirst as (sent & Hwire & _ & Hkeep & _ & _).
  exists sent. split; [exact Hwire | exact Hkeep].
Defined.

(** The example of C10: the column [limit_count] in the ORDER BY clause
    keeps [First] from appending [ LIMIT 1]. *)
Example First_keeps_limit_count :
  let q := @Order asciiOnly (UseModel (NewSqlAdapter emptyDB FlavorMySQL) users)
             "limit_count" in
  wire (@First asciiOnly (oneBuilder q) 1%N (userDest [])).1.1
  = [("SELECT * FROM users ORDER BY limit_count", [])].
Proof. reflexivity. Qed.

(** ** The model on the examples of the documentation *)

Example ValidateOrderBy_accepts_plain_list :
  @ValidateOrderBy asciiOnly "name ASC, users.id DESC" = None.
Proof. reflexivity. Qed.

Example ValidateOrderBy_rejects_injection :
  @ValidateOrderBy asciiOnly "name; DROP TABLE users; --"
  = Some ErrSuspiciousPattern.
Proof. reflexivity. Qed.

Example ValidateOrderBy_rejects_lower_case_keyword :
  @ValidateOrderBy asciiOnly "name asc" = Some ErrInvalidOrderBy.
Proof. reflexivity. Qed.

Example ValidateJoinClause_accepts_inner_join :
  @ValidateJoinClause asciiOnly
    "INNER JOIN profiles ON users.id = profiles.user_id" = None.
Proof. reflexivity. Qed.

Example ValidateJoinClause_rejects_injection :
  @ValidateJoinClause asciiOnly "JOIN users; DELETE FROM posts; --"
  = Some ErrSuspiciousPattern.
Proof. reflexivity. Qed.

Example SanitizeSelectFields_keeps_identifiers :
  SanitizeSelectFields ["id"; "name"] = inr ["id"; "name"].
Proof. reflexivity. Qed.

Example SanitizeSelectFields_rejects_injection :
  SanitizeSelectFields ["id; DROP TABLE x"] = inl ErrInvalidIdentifier.
Proof. reflexivity. Qed.

Example Where_expands_sequence :
  build (Where (UseModel (NewSqlAdapter emptyDB FlavorPostgres) users)
           (Text "id IN ?") [VSeq [VInt 1; VInt 2; VInt 3]]) false
  = ("SELECT * FROM users WHERE id IN ($1, $2, $3)", [VInt 1; VInt 2; VInt 3]).
Proof. reflexivity. Qed.

(** The idiom of the README: OR conditions collected on a copy of the
    builder and handed back to [Where]. *)
Example Where_groups_or_conditions :
  let base := Where (UseModel (NewSqlAdapter emptyDB FlavorMySQL) users)
                (Text "status = ?") [VStr "active"] in
  let search := Or (Or base (Text "name LIKE ?") [VStr "%ann%"])
                  (Text "email LIKE ?") [VStr "%ann%"] in
  build (Where base (CondBuilder search "&{}") []) false
  = ("SELECT * FROM users WHERE status = ? AND ((name LIKE ? OR email LIKE ?))",
     [VStr "active"; VStr "%ann%"; VStr "%ann%"]).
Proof. reflexivity. Qed.

(** A second [Having] replaces the clauses and keeps the arguments of the
    first. *)
Example Having_twice :
  build (@Having asciiOnly
           (@Having asciiOnly (UseModel (NewSqlAdapter emptyDB FlavorMySQL) users)
              ["COUNT(id) > ?"] [VInt 1])
           ["SUM(total) > ?"] [VInt 2]) false
  = ("SELECT * FROM users HAVING SUM(total) > ?", [VInt 1; VInt 2]).
Proof. reflexivity. Qed.

(** One row, read by [Scan] into a struct: the columns are matched by their
    normalized names, a nil cell gives the zero value and a column without a
    field is skipped. *)
Example Scan_one_row :
  let conn : DB := fun _ _ =>
    inr {| Columns := ["users.ID"; "name"; "extra"];
           pending := [inr [Some "7"; None; Some "zz"]];
           Err := None |} in
  let q := UseModel (NewSqlAdapter conn FlavorMySQL) users in
  (@Scan asciiOnly (oneBuilder q) 1%N (userDest [VStr "0"; VStr "old"])).2
  = Return None /\
  reflected (@Scan asciiOnly (oneBuilder q) 1%N (userDest [VStr "0"; VStr "old"])).1.2
  = PointerTo (PStruct userRecord [VStr "7"; VStr ""]).
Proof. split; reflexivity. Qed.

(** * Further properties *)

(** ** Regular expressions *)

Lemma allBytes_app P a b : allBytes P (a ++ b) = allBytes P a && allBytes P b.
Proof.
  induction a as [|c a IH]; simpl; [reflexivity|].
  now rewrite IH, andb_assoc.
Qed.

Lemma allBytes_rev P s : allBytes P (rev s) = allBytes P s.
Proof.
  induction s as [|c s IH]; simpl; [reflexivity|].
  rewrite allBytes_app, IH. simpl. rewrite andb_true_r. apply andb_comm.
Qed.

Lemma allBytes_impl (P Q : ascii -> bool) s :
  (forall c, P c = true -> Q c = true) ->
  allBytes P s = true -> allBytes Q s = true.
Proof.
  intros HPQ. induction s as [|c s IH]; simpl; [reflexivity|].
  intros [Hc Hs]%andb_true_iff. rewrite (HPQ c Hc). now apply IH.
Qed.

Lemma allBytes_Count P s b :
  P b = false -> allBytes P s = true -> Count s b = 0%nat.
Proof.
  intros Hb. induction s as [|c s IH]; simpl; [reflexivity|].
  intros [Hc Hs]%andb_true_iff. rewrite (IH Hs).
  destruct (Ascii.eqb_spec c b) as [->|_]; [congruence | reflexivity].
Qed.

Lemma MatchString_Void s : MatchString Void s = false.
Proof. induction s; [reflexivity | assumption]. Qed.

Lemma MatchString_Star_Class ranges s :
  MatchString (Star (Class ranges)) s = allBytes (inClass ranges) s.
Proof.
  induction s as [|c s IH]; [reflexivity|].
  simpl. destruct (inClass ranges c); simpl.
  - exact IH.
  - apply MatchString_Void.
Qed.

Lemma MatchString_Class_Star start ranges s :
  MatchString (Cat (Class start) (Star (Class ranges))) s
  = match s with
    | EmptyString => false
    | String c rest => inClass start c && allBytes (inClass ranges) rest
    end.
Proof.
  destruct s as [|c s]; [reflexivity|].
  simpl. destruct (inClass start c); simpl.
  - apply MatchString_Star_Class.
  - apply MatchString_Void.
Qed.

Lemma inClass_identStart c :
  inClass [(97, 122); (65, 90); (95, 95)]%N c = isIdentStart c.
Proof. destruct c as [[|] [|] [|] [|] [|] [|] [|] [|]]; reflexivity. Qed.

Lemma inClass_identChar c :
  inClass [(97, 122); (65, 90); (48, 57); (95, 95)]%N c = isIdentChar c.
Proof. destruct c as [[|] [|] [|] [|] [|] [|] [|] [|]]; reflexivity. Qed.

Lemma allBytes_ext (P Q : ascii -> bool) s :
  (forall c, P c = Q c) -> allBytes P s = allBytes Q s.
Proof.
  intros HPQ. induction s as [|c s IH]; simpl; [reflexivity|].
  now rewrite HPQ, IH.
Qed.

Lemma MatchString_ident s :
  MatchString sqlIdentifierPattern s = identifierShape s.
Proof.
  unfold sqlIdentifierPattern, ident, identStart, identChar.
  rewrite MatchString_Class_Star. destruct s as [|c s]; [reflexivity|].
  cbv beta iota. rewrite inClass_identStart.
  now rewrite (allBytes_ext _ isIdentChar s inClass_identChar).
Qed.

Lemma MatchString_columnName s :
  MatchString columnNamePattern s
  = negb (String.eqb s "") && allBytes isIdentChar s.
Proof.
  unfold columnNamePattern, Plus, identChar.
  rewrite MatchString_Class_Star. destruct s as [|c s]; [reflexivity|].
  cbv beta iota. rewrite inClass_identChar.
  change (negb (String.eqb (String c s) "")) with true.
  change (allBytes isIdentChar (String c s))
    with (isIdentChar c && allBytes isIdentChar s).
  now rewrite (allBytes_ext _ isIdentChar s inClass_identChar).
Qed.

Lemma ValidateIdentifier_None_iff (s : string) :
  ValidateIdentifier s = None <->
  identifierShape s = true /\ (String.length s <= 64)%nat.
Proof.
  unfold ValidateIdentifier. rewrite MatchString_ident.
  destruct s as [|c s].
  - simpl. split; [discriminate | intros [Hshape _]; discriminate].
  - change (String.length (String c s) =? 0)%nat with false. cbv iota.
    unfold maxIdentifierLen.
    destruct (Nat.ltb_spec 64 (String.length (String c s))) as [Hlong|Hfits].
    + split; [discriminate | intros [_ Hlen]; lia].
    + destruct (identifierShape (String c s)); simpl.
      * split; [intros _; split; [reflexivity | exact Hfits] | reflexivity].
      * split; [discriminate | intros [Hshape _]; discriminate].
Qed.

(** X1: [ValidateIdentifier] (and [ValidateTableName], which has the same
    body) accepts exactly the strings of at most 64 bytes that start with a
    letter or an underscore and go on with letters, digits and underscores. *)
Theorem ValidateIdentifier_accepts_iff (s : string) :
  (ValidateIdentifier s = None <->
   identifierShape s = true /\ (String.length s <= 64)%nat) /\
  ValidateTableName s = ValidateIdentifier s.
Proof. split; [apply ValidateIdentifier_None_iff | reflexivity]. Qed.

Lemma ValidateIdentifier_accepts_iff_witness :
  ValidateIdentifier "user_id" = None /\
  identifierShape "1st" = false.
Proof.
  split; [|reflexivity].
  apply (proj1 (ValidateIdentifier_accepts_iff "user_id")).
  split; [reflexivity | vm_compute; lia].
Defined.

Lemma ValidateColumnName_None_iff (s : string) :
  ValidateColumnName s = None <->
  s <> "" /\ (String.length s <= 64)%nat /\ allBytes isIdentChar s = true.
Proof.
  unfold ValidateColumnName. rewrite MatchString_columnName.
  destruct s as [|c s].
  - simpl. split; [discriminate | intros [Hne _]; congruence].
  - change (String.length (String c s) =? 0)%nat with false. cbv iota.
    unfold maxIdentifierLen.
    change (String.eqb (String c s) "") with false. cbn [negb andb].
    destruct (Nat.ltb_spec 64 (String.length (String c s))) as [Hlong|Hfits].
    + split; [discriminate | intros (_ & Hlen & _); lia].
    + destruct (allBytes isIdentChar (String c s)) eqn:Hall; simpl.
      * split; [intros _; repeat split; [discriminate | exact Hfits] | reflexivity].
      * split; [discriminate | intros (_ & _ & Habs); discriminate].
Qed.

(** X2: [ValidateColumnName] accepts exactly the non-empty strings of at
    most 64 bytes made of letters, digits and underscores (a leading digit
    is allowed); an empty name is an invalid column name, a longer one is
    too long. *)
Theorem ValidateColumnName_accepts_iff (s : string) :
  (ValidateColumnName s = None <->
   s <> "" /\ (String.length s <= 64)%nat /\ allBytes isIdentChar s = true) /\
  (s = "" -> ValidateColumnName s = Some ErrInvalidColumnName) /\
  ((64 < String.length s)%nat -> ValidateColumnName s = Some ErrIdentifierTooLong).
Proof.
  split; [apply ValidateColumnName_None_iff | split].
  - intros ->. reflexivity.
  - intros Hlong. unfold ValidateColumnName, maxIdentifierLen.
    destruct s as [|c s]; [simpl in Hlong; lia|].
    change (String.length (String c s) =? 0)%nat with false. cbv iota.
    destruct (Nat.ltb_spec 64 (String.length (String c s))); [reflexivity | lia].
Qed.

Lemma ValidateColumnName_accepts_iff_witness :
  ValidateColumnName "2fa_code" = None /\
  ValidateColumnName "" = Some ErrInvalidColumnName.
Proof.
  pose proof (ValidateColumnName_accepts_iff "2fa_code") as (Hiff & _ & _).
  pose proof (ValidateColumnName_accepts_iff "") as (_ & Hempty & _).
  split.
  - apply Hiff. repeat split; [discriminate | vm_compute; lia].
  - now apply Hempty.
Defined.
Lemma void_cat a b : void (cat a b) = void a || void b.
Proof.
  destruct a, b; simpl; rewrite ?orb_true_r, ?orb_false_r; reflexivity.
Qed.

Lemma void_alt a b : void (alt a b) = void a && void b.
Proof.
  destruct a, b; simpl; rewrite ?andb_true_r, ?andb_false_r; reflexivity.
Qed.

Lemma void_not_nullable r : void r = true -> nullable r = false.
Proof.
  induction r; simpl; try discriminate; try reflexivity.
  - intros [H|H]%orb_true_iff; [rewrite IHr1 | rewrite IHr2];
      auto using andb_false_r.
  - intros [H1 H2]%andb_true_iff. now rewrite IHr1, IHr2.
Qed.

Lemma void_deriv c r : void r = true -> void (deriv c r) = true.
Proof.
  induction r; simpl; try discriminate; try reflexivity.
  - intros Hv. apply orb_true_iff in Hv as [H1|H2].
    + rewrite (void_not_nullable r1 H1), void_cat, (IHr1 H1). reflexivity.
    + destruct (nullable r1).
      * rewrite void_alt, void_cat, H2, (IHr2 H2), orb_true_r. reflexivity.
      * rewrite void_cat, H2. apply orb_true_r.
  - intros [H1 H2]%andb_true_iff. now rewrite void_alt, IHr1, IHr2.
Qed.

Lemma void_MatchString s : forall r, void r = true -> MatchString r s = false.
Proof.
  induction s as [|c s IH]; intros r Hv; simpl.
  - now apply void_not_nullable.
  - apply IH. now apply void_deriv.
Qed.

Lemma deriv_not_admitted c r : admits r c = false -> void (deriv c r) = true.
Proof.
  induction r; simpl; try reflexivity.
  - intros ->. reflexivity.
  - intros Hc. apply negb_false_iff in Hc. now rewrite Hc.
  - intros [H1 H2]%orb_false_iff.
    destruct (nullable r1).
    + now rewrite void_alt, void_cat, (IHr1 H1), (IHr2 H2).
    + now rewrite void_cat, (IHr1 H1).
  - intros [H1 H2]%orb_false_iff. now rewrite void_alt, IHr1, IHr2.
  - intros H1. now rewrite void_cat, (IHr H1).
Qed.

Lemma admits_cat a b d :
  admits (cat a b) d = true -> admits a d || admits b d = true.
Proof.
  destruct a, b; simpl; rewrite ?orb_false_r; try discriminate; auto.
Qed.

Lemma admits_alt a b d :
  admits (alt a b) d = true -> admits a d || admits b d = true.
Proof.
  destruct a, b; simpl; rewrite ?orb_false_r; try discriminate; auto.
Qed.

Lemma admits_deriv c d r : admits (deriv c r) d = true -> admits r d = true.
Proof.
  induction r; simpl; try discriminate.
  - destruct (inClass ranges c); discriminate.
  - destruct (code c =? 10)%N; discriminate.
  - destruct (nullable r1).
    + intros [H|H]%admits_alt%orb_true_iff.
      * apply admits_cat in H. apply orb_true_iff in H as [H|H];
          [rewrite (IHr1 H) | rewrite H, orb_true_r]; reflexivity.
      * rewrite (IHr2 H). apply orb_true_r.
    + intros [H|H]%admits_cat%orb_true_iff;
        [rewrite (IHr1 H) | rewrite H, orb_true_r]; reflexivity.
  - intros [H|H]%admits_alt%orb_true_iff;
      [rewrite (IHr1 H) | rewrite (IHr2 H), orb_true_r]; reflexivity.
  - intros [H|H]%admits_cat%orb_true_iff; [now apply IHr | exact H].
Qed.

(** A word a regular expression matches is made of bytes it can read. *)
Lemma MatchString_admits s : forall r,
  MatchString r s = true -> allBytes (admits r) s = true.
Proof.
  induction s as [|c s IH]; intros r Hm; [reflexivity|].
  simpl in Hm |- *. apply andb_true_iff. split.
  - destruct (admits r c) eqn:Hc; [reflexivity|].
    rewrite void_MatchString in Hm; [discriminate|].
    now apply deriv_not_admitted.
  - apply (allBytes_impl (admits (deriv c r))); [|now apply IH].
    intros d. apply admits_deriv.
Qed.

Lemma admits_orderByPattern c : admits orderByPattern c = isOrderByte c.
Proof. destruct c as [[|] [|] [|] [|] [|] [|] [|] [|]]; reflexivity. Qed.

(** ** White space *)

Lemma strrev_app a b : rev (a ++ b) = rev b ++ rev a.
Proof.
  induction a as [|c a IH]; simpl.
  - induction (rev b) as [|d r IHr]; simpl; [reflexivity | now rewrite <- IHr].
  - now rewrite IH, append_assoc.
Qed.

Lemma strrev_involutive s : rev (rev s) = s.
Proof.
  induction s as [|c s IH]; simpl; [reflexivity|].
  now rewrite strrev_app, IH.
Qed.

Lemma HasPrefix_split pre : forall s,
  HasPrefix s pre = true -> s = pre ++ dropBytes (String.length pre) s.
Proof.
  induction pre as [|c pre IH]; intros s Hpre; [reflexivity|].
  destruct s as [|d s]; [discriminate Hpre|].
  apply HasPrefix_cons in Hpre as [-> Hpre].
  simpl. f_equal. now apply IH.
Qed.

Lemma trimLeftWith_split (P : ascii -> bool) encs :
  forallb (allBytes P) encs = true ->
  forall fuel s, exists pre,
    s = pre ++ trimLeftWith encs fuel s /\ allBytes P pre = true.
Proof.
  intros Hencs. induction fuel as [|fuel IH]; intros s.
  - exists "". split; reflexivity.
  - simpl. unfold leadingSpace.
    destruct (List.find (HasPrefix s) encs) as [sp|] eqn:Hfind.
    + apply List.find_some in Hfind as [Hin Hpre].
      destruct (IH (dropBytes (String.length sp) s)) as (pre & Heq & Hall).
      exists (sp ++ pre). split.
      * rewrite append_assoc, <- Heq. now apply HasPrefix_split.
      * rewrite allBytes_app, Hall, andb_true_r.
        rewrite forallb_forall in Hencs. now apply Hencs.
    + exists "". split; reflexivity.
Qed.

Lemma spaceEncodings_bytes :
  forallb (allBytes isSpaceByte) spaceEncodings = true.
Proof. vm_compute. reflexivity. Qed.

Lemma spaceEncodings_rev_bytes :
  forallb (allBytes isSpaceByte) (map rev spaceEncodings) = true.
Proof. vm_compute. reflexivity. Qed.

(** [strings.TrimSpace] cuts bytes of white-space runes off both ends and
    nothing else. *)
Lemma TrimSpace_split s :
  exists pre post,
    s = pre ++ TrimSpace s ++ post /\
    allBytes isSpaceByte pre = true /\ allBytes isSpaceByte post = true.
Proof.
  unfold TrimSpace, TrimRightSpace, TrimLeftSpace.
  destruct (trimLeftWith_split isSpaceByte spaceEncodings spaceEncodings_bytes
              (String.length s) s) as (pre & Hpre & Hpre_all).
  set (t := trimLeftWith spaceEncodings (String.length s) s) in *.
  destruct (trimLeftWith_split isSpaceByte (map rev spaceEncodings)
              spaceEncodings_rev_bytes (String.length t) (rev t))
    as (post & Hpost & Hpost_all).
  exists pre, (rev post). repeat split.
  - rewrite Hpre at 1. f_equal.
    rewrite <- (strrev_involutive t) at 1. rewrite Hpost at 1. apply strrev_app.
  - exact Hpre_all.
  - now rewrite allBytes_rev.
Qed.

(** On a text whose first and last bytes are printable and no blank,
    [strings.TrimSpace] changes nothing. *)
Lemma leadingSpace_plain encs c s :
  forallb (fun enc => match enc with
                      | EmptyString => false
                      | String d _ => negb (Ascii.eqb d c)
                      end) encs = true ->
  leadingSpace encs (String c s) = None.
Proof.
  intros Hencs. unfold leadingSpace.
  destruct (List.find (HasPrefix (String c s)) encs) as [sp|] eqn:Hfind;
    [|reflexivity].
  apply List.find_some in Hfind as [Hin Hpre].
  rewrite forallb_forall in Hencs. specialize (Hencs sp Hin).
  destruct sp as [|d sp]; [discriminate|].
  apply HasPrefix_cons in Hpre as [-> _].
  now rewrite Ascii.eqb_refl in Hencs.
Qed.

Lemma isPlain_no_space_start c :
  isPlain c = true ->
  forallb (fun enc => match enc with
                      | EmptyString => false
                      | String d _ => negb (Ascii.eqb d c)
                      end) spaceEncodings = true /\
  forallb (fun enc => match enc with
                      | EmptyString => false
                      | String d _ => negb (Ascii.eqb d c)
                      end) (map rev spaceEncodings) = true.
Proof.
  destruct c as [[|] [|] [|] [|] [|] [|] [|] [|]];
    vm_compute; (discriminate || (split; reflexivity)).
Qed.

Lemma trimLeftWith_plain encs fuel c s :
  leadingSpace encs (String c s) = None ->
  trimLeftWith encs fuel (String c s) = String c s.
Proof. intros Hnone. destruct fuel; simpl; [reflexivity | now rewrite Hnone]. Qed.

Lemma TrimSpace_plain s :
  allBytes isPlain s = true -> TrimSpace s = s.
Proof.
  intros Hall. destruct s as [|c s]; [reflexivity|].
  unfold TrimSpace, TrimLeftSpace, TrimRightSpace.
  pose proof Hall as Hc. simpl in Hc. apply andb_true_iff in Hc as [Hc _].
  rewrite trimLeftWith_plain
    by (apply leadingSpace_plain; now apply isPlain_no_space_start).
  rewrite <- allBytes_rev in Hall.
  destruct (rev (String c s)) as [|d r] eqn:Hrev.
  - apply (f_equal rev) in Hrev. rewrite strrev_involutive in Hrev. discriminate.
  - simpl in Hall. apply andb_true_iff in Hall as [Hd _].
    rewrite trimLeftWith_plain
      by (apply leadingSpace_plain; now apply isPlain_no_space_start).
    rewrite <- Hrev. apply strrev_involutive.
Qed.
(** ** What the validators let through *)

Lemma validateSuspiciousPatterns_None `{UnicodeTables} s patterns tok :
  validateSuspiciousPatterns s patterns = None ->
  In tok patterns -> allASCII tok = true ->
  containsFold s tok = false.
Proof.
  unfold validateSuspiciousPatterns. intros Hval Hin Hascii.
  destruct (existsb _ patterns) eqn:Hex; [discriminate|].
  destruct (containsFold s tok) eqn:Hfold; [|reflexivity].
  apply (containsFold_ToUpper s tok Hascii) in Hfold.
  assert (Hyes : existsb (fun pattern => Contains (ToUpper s) pattern) patterns = true).
  { apply existsb_exists. now exists tok. }
  congruence.
Qed.

Lemma validateLength_None s maxLen errType :
  validateLength s maxLen errType = None -> (String.length s <= maxLen)%nat.
Proof.
  unfold validateLength.
  destruct (Nat.ltb_spec maxLen (String.length s)); [discriminate | auto].
Qed.

Lemma all_tokens_ascii :
  forallb allASCII (commonSuspiciousPatterns ++ databaseMetadataPatterns)%list = true.
Proof. reflexivity. Qed.

(** X3: an ORDER BY text that [ValidateOrderBy] accepts has at most 256
    bytes, none of the sixteen common tokens in any ASCII case, and is made
    of letters, digits, underscores, dots, commas and white space only; so
    it has no quote, no semicolon, no parenthesis and no [?] marker. *)
Theorem ValidateOrderBy_accepted_bytes `{UnicodeTables} (s : string) :
  ValidateOrderBy s = None ->
  (String.length s <= 256)%nat /\
  (forall tok, In tok commonSuspiciousPatterns -> containsFold s tok = false) /\
  allBytes (fun c => isOrderByte c || isSpaceByte c) s = true /\
  Count s "?" = 0%nat /\ Count s "'" = 0%nat /\ Count s ";" = 0%nat /\
  Count s "(" = 0%nat /\ Count s ")" = 0%nat.
Proof.
  intros Hval.
  assert (Hbytes : allBytes (fun c => isOrderByte c || isSpaceByte c) s = true).
  { unfold ValidateOrderBy in Hval.
    destruct s as [|c s]; [reflexivity|].
    change (String.length (String c s) =? 0)%nat with false in Hval.
    cbv iota in Hval.
    destruct (validateLength _ _ _); [discriminate|].
    destruct (validateSuspiciousPatterns _ _); [discriminate|].
    unfold validateOrderByFormat in Hval.
    destruct (MatchString orderByPattern (TrimSpace (String c s))) eqn:Hm;
      [|discriminate].
    apply MatchString_admits in Hm.
    destruct (TrimSpace_split (String c s)) as (pre & post & Heq & Hpre & Hpost).
    rewrite Heq, !allBytes_app. repeat (apply andb_true_iff; split).
    - apply (allBytes_impl isSpaceByte); [|exact Hpre].
      intros d ->. apply orb_true_r.
    - apply (allBytes_impl (admits orderByPattern)); [|exact Hm].
      intros d. rewrite admits_orderByPattern. now intros ->.
    - apply (allBytes_impl isSpaceByte); [|exact Hpost].
      intros d ->. apply orb_true_r. }
  split; [|split; [|split; [exact Hbytes|]]].
  - unfold ValidateOrderBy in Hval.
    destruct s as [|c s]; [simpl; lia|].
    change (String.length (String c s) =? 0)%nat with false in Hval.
    cbv iota in Hval.
    destruct (validateLength _ _ _) eqn:Hlen; [discriminate|].
    now apply validateLength_None in Hlen.
  - intros tok Htok.
    assert (Hascii : allASCII tok = true).
    { pose proof common_tokens_ascii as Hall.
      rewrite forallb_forall in Hall. now apply Hall. }
    unfold ValidateOrderBy in Hval.
    destruct s as [|c s].
    + apply containsFold_nonempty. intros ->. simpl in Htok. intuition discriminate.
    + change (String.length (String c s) =? 0)%nat with false in Hval.
      cbv iota in Hval.
      destruct (validateLength _ _ _); [discriminate|].
      destruct (validateSuspiciousPatterns _ _) eqn:Hsus; [discriminate|].
      now apply (validateSuspiciousPatterns_None _ _ tok Hsus).
  - repeat split;
      apply (allBytes_Count (fun c => isOrderByte c || isSpaceByte c));
      (reflexivity || exact Hbytes).
Qed.

Lemma ValidateOrderBy_accepted_bytes_witness :
  allBytes (fun c => isOrderByte c || isSpaceByte c)
    " name ASC, users.id DESC " = true.
Proof.
  refine (proj1 (proj2 (proj2 (@ValidateOrderBy_accepted_bytes asciiOnly
                                 " name ASC, users.id DESC " _)))).
  reflexivity.
Defined.

(** X4: [ValidateWhereClause] accepts a text only if it has at most 1024
    bytes and none of the twenty denylisted tokens (the common and the
    metadata ones) in any ASCII case; a text that is ASCII throughout and
    has both properties is accepted.  [ValidateHavingClause] accepts a list
    exactly when [ValidateWhereClause] accepts each clause. *)
Theorem ValidateWhereClause_accepted `{UnicodeTables} :
  (forall s, ValidateWhereClause s = None ->
     (String.length s <= 1024)%nat /\
     forall tok, In tok (commonSuspiciousPatterns ++ databaseMetadataPatterns)%list ->
                 containsFold s tok = false) /\
  (forall s, allASCII s = true -> (String.length s <= 1024)%nat ->
     (forall tok, In tok (commonSuspiciousPatterns ++ databaseMetadataPatterns)%list ->
                  containsFold s tok = false) ->
     ValidateWhereClause s = None) /\
  (forall clauses,
     ValidateHavingClause clauses = None <->
     forall clause, In clause clauses -> ValidateWhereClause clause = None).
Proof.
  split; [|split].
  - intros s Hval. unfold ValidateWhereClause in Hval.
    destruct (validateLength _ _ _) eqn:Hlen; [discriminate|].
    apply validateLength_None in Hlen. split; [exact Hlen|].
    intros tok Htok.
    apply (validateSuspiciousPatterns_None _ _ tok Hval Htok).
    pose proof all_tokens_ascii as Hall.
    rewrite forallb_forall in Hall. now apply Hall.
  - intros s Hascii Hlen Hfree. unfold ValidateWhereClause, validateLength.
    unfold maxWhereClauseLen.
    destruct (Nat.ltb_spec 1024 (String.length s)) as [Hlong|_]; [lia|].
    unfold validateSuspiciousPatterns.
    destruct (existsb _ _) eqn:Hex; [|reflexivity].
    apply existsb_exists in Hex as (tok & Htok & Hin).
    specialize (Hfree tok Htok). unfold containsFold in Hfree.
    unfold ToUpper in Hin. rewrite mapCase_ascii in Hin by exact Hascii.
    congruence.
  - intros clauses. induction clauses as [|clause more IH]; simpl.
    + split; [intros _ c [] | reflexivity].
    + destruct (ValidateWhereClause clause) eqn:Hc.
      * split; [discriminate|]. intros Hall.
        specialize (Hall clause (or_introl eq_refl)). congruence.
      * rewrite IH. split.
        -- intros Hall c [<-|Hin]; auto.
        -- intros Hall c Hin. apply Hall. now right.
Qed.

Lemma ValidateWhereClause_accepted_witness :
  containsFold "COUNT(id) > ?" "PG_" = false /\
  @ValidateWhereClause asciiOnly "total >= 10" = None /\
  @ValidateHavingClause asciiOnly ["COUNT(id) > ?"; "SUM(total) > ?"] = None.
Proof.
  pose proof (@ValidateWhereClause_accepted asciiOnly) as (Hsound & Hcomplete & Hhaving).
  split; [|split].
  - refine (proj2 (Hsound "COUNT(id) > ?" _) "PG_" _); [reflexivity|].
    simpl. tauto.
  - apply Hcomplete; [reflexivity | vm_compute; lia |].
    intros tok Htok. simpl in Htok.
    repeat (destruct Htok as [<-|Htok]; [reflexivity|]). destruct Htok.
  - apply Hhaving. intros clause [<-|[<-|[]]]; reflexivity.
Defined.
(** ** The sanitizers *)

Lemma Split_nonempty s sep : Split s sep <> [].
Proof.
  destruct s as [|c s]; simpl; [discriminate|].
  destruct (Ascii.eqb c sep); [discriminate|].
  destruct (Split s sep); discriminate.
Qed.

(** [strings.Join] undoes [strings.Split]. *)
Lemma Join_Split s sep : GoStrings.Join (Split s sep) (String sep "") = s.
Proof.
  induction s as [|c s IH]; [reflexivity|].
  simpl Split. destruct (Ascii.eqb_spec c sep) as [->|Hne].
  - destruct (Split s sep) as [|p ps] eqn:Hs; [now apply Split_nonempty in Hs|].
    change (GoStrings.Join ("" :: p :: ps) (String sep ""))
      with (String sep (GoStrings.Join (p :: ps) (String sep ""))).
    now rewrite IH.
  - destruct (Split s sep) as [|p ps] eqn:Hs; [now apply Split_nonempty in Hs|].
    destruct ps as [|p' ps].
    + simpl in IH |- *. now rewrite IH.
    + change (GoStrings.Join (String c p :: p' :: ps) (String sep ""))
        with (String c (GoStrings.Join (p :: p' :: ps) (String sep ""))).
      now rewrite IH.
Qed.

Lemma Split_bytes (P : ascii -> bool) sep : forall s,
  P sep = true ->
  (forall part, In part (Split s sep) -> allBytes P part = true) ->
  allBytes P s = true.
Proof.
  intros s Hsep. induction s as [|c s IH]; intros Hparts; [reflexivity|].
  simpl in Hparts |- *. destruct (Ascii.eqb_spec c sep) as [->|Hne].
  - rewrite Hsep. apply IH. intros part Hin. apply Hparts. now right.
  - destruct (Split s sep) as [|p ps] eqn:Hs; [now apply Split_nonempty in Hs|].
    pose proof (Hparts (String c p) (or_introl eq_refl)) as Hfirst.
    simpl in Hfirst. apply andb_true_iff in Hfirst as [Hc Hp].
    rewrite Hc. apply IH. intros part [<-|Hin]; [exact Hp|].
    apply Hparts. now right.
Qed.

Lemma isIdentChar_plain c : isIdentChar c = true -> isPlain c = true.
Proof. destruct c as [[|] [|] [|] [|] [|] [|] [|] [|]]; vm_compute; congruence. Qed.

Lemma isIdentStart_char c : isIdentStart c = true -> isIdentChar c = true.
Proof. unfold isIdentChar. now intros ->. Qed.

Lemma identifierShape_bytes s :
  identifierShape s = true -> allBytes isIdentChar s = true.
Proof.
  destruct s as [|c s]; [discriminate|]. simpl.
  intros [Hc Hs]%andb_true_iff. now rewrite (isIdentStart_char c Hc), Hs.
Qed.

Lemma ValidateColumnName_plain s :
  ValidateColumnName s = None -> allBytes isPlain s = true.
Proof.
  intros Hval. apply ValidateColumnName_None_iff in Hval as (_ & _ & Hall).
  apply (allBytes_impl isIdentChar); [exact isIdentChar_plain | exact Hall].
Qed.

Lemma sanitizeColumnsLoop_spec columns : forall sanitized,
  (forall out,
     sanitizeColumnsLoop columns sanitized = inr out <->
     out = (sanitized ++ map TrimSpace columns)%list /\
     forall col, In col columns -> ValidateColumnName (TrimSpace col) = None).
Proof.
  induction columns as [|col more IH]; intros sanitized out; simpl.
  - rewrite app_nil_r. split.
    + intros [= <-]. split; [reflexivity | intros c []].
    + intros [-> _]. reflexivity.
  - destruct (ValidateColumnName (TrimSpace col)) eqn:Hcol.
    + split; [discriminate|]. intros [_ Hall].
      specialize (Hall col (or_introl eq_refl)). congruence.
    + rewrite IH, <- app_assoc. simpl. split.
      * intros [-> Hall]. split; [reflexivity|].
        intros c [<-|Hin]; auto.
      * intros [-> Hall]. split; [reflexivity|].
        intros c Hin. apply Hall. now right.
Qed.

Lemma SanitizeColumnNames_inr columns out :
  SanitizeColumnNames columns = inr out <->
  out = map TrimSpace columns /\
  forall col, In col columns -> ValidateColumnName (TrimSpace col) = None.
Proof. unfold SanitizeColumnNames. now rewrite sanitizeColumnsLoop_spec. Qed.

Lemma SanitizeColumnNames_fixed columns out :
  SanitizeColumnNames columns = inr out -> SanitizeColumnNames out = inr out.
Proof.
  intros [-> Hall]%SanitizeColumnNames_inr. apply SanitizeColumnNames_inr.
  assert (Hfix : forall col, In col columns ->
            TrimSpace (TrimSpace col) = TrimSpace col).
  { intros col Hin. apply TrimSpace_plain, ValidateColumnName_plain. auto. }
  split.
  - rewrite map_map. apply map_ext_in. intros col Hin. symmetry. now apply Hfix.
  - intros t Hin. apply in_map_iff in Hin as (col & <- & Hin).
    rewrite Hfix by exact Hin. now apply Hall.
Qed.

(** X5: [SanitizeColumnNames] succeeds exactly when every name, trimmed,
    passes [ValidateColumnName]; the result is the list of the trimmed
    names, and sanitizing it again returns it unchanged. *)
Theorem SanitizeColumnNames_spec (columns out : list string) :
  (SanitizeColumnNames columns = inr out <->
   out = map TrimSpace columns /\
   forall col, In col columns -> ValidateColumnName (TrimSpace col) = None) /\
  (SanitizeColumnNames columns = inr out ->
   SanitizeColumnNames out = inr out).
Proof.
  split; [apply SanitizeColumnNames_inr | apply SanitizeColumnNames_fixed].
Qed.

Lemma SanitizeColumnNames_spec_witness :
  SanitizeColumnNames [" role "; "created_at"] = inr ["role"; "created_at"] /\
  SanitizeColumnNames ["role"; "created_at"] = inr ["role"; "created_at"].
Proof.
  pose proof (SanitizeColumnNames_spec [" role "; "created_at"] ["role"; "created_at"])
    as (Hiff & Hfix).
  assert (Hok : SanitizeColumnNames [" role "; "created_at"]
                = inr ["role"; "created_at"]).
  { apply Hiff. split; [reflexivity|].
    intros col [<-|[<-|[]]]; reflexivity. }
  split; [exact Hok | exact (Hfix Hok)].
Defined.

Lemma validateParts_spec parts :
  validateParts parts = None <->
  forall part, In part parts -> ValidateIdentifier part = None.
Proof.
  induction parts as [|part more IH]; simpl.
  - split; [intros _ p [] | reflexivity].
  - destruct (ValidateIdentifier part) eqn:Hp.
    + split; [discriminate|]. intros Hall.
      specialize (Hall part (or_introl eq_refl)). congruence.
    + rewrite IH. split.
      * intros Hall p [<-|Hin]; auto.
      * intros Hall p Hin. apply Hall. now right.
Qed.

(** A field that passes [sanitizeSelectField] is the trimmed input: a star,
    an identifier, or two identifiers with a dot between them. *)
Lemma sanitizeSelectField_shape field out :
  sanitizeSelectField field = inr out ->
  out = TrimSpace field /\
  (out = "*" \/
   ValidateIdentifier out = None \/
   exists tbl col, out = tbl ++ "." ++ col /\
                   ValidateIdentifier tbl = None /\ ValidateIdentifier col = None).
Proof.
  unfold sanitizeSelectField.
  destruct (String.eqb_spec (TrimSpace field) "*") as [Hstar|Hne].
  - intros [= <-]. split; [reflexivity | now left].
  - unfold validateTableColumnFormat.
    pose proof (Join_Split (TrimSpace field) ".") as Hjoin.
    destruct (Split (TrimSpace field) ".") as [|a [|b [|c parts]]] eqn:Hsplit.
    + now apply Split_nonempty in Hsplit.
    + simpl. destruct (ValidateIdentifier a) eqn:Ha; [discriminate|].
      intros [= <-]. split; [reflexivity|]. right. left.
      simpl in Hjoin. now rewrite <- Hjoin.
    + simpl. destruct (ValidateIdentifier a) eqn:Ha; [discriminate|].
      destruct (ValidateIdentifier b) eqn:Hb; [discriminate|].
      intros [= <-]. split; [reflexivity|]. right. right.
      exists a, b. simpl in Hjoin. rewrite <- Hjoin. auto.
    + simpl. discriminate.
Qed.

Lemma ValidateIdentifier_plain s :
  ValidateIdentifier s = None -> allBytes isPlain s = true.
Proof.
  intros Hval.
  apply ValidateIdentifier_None_iff in Hval as [Hshape _].
  apply (allBytes_impl isIdentChar); [exact isIdentChar_plain|].
  now apply identifierShape_bytes.
Qed.

Lemma sanitizeSelectField_fixed field out :
  sanitizeSelectField field = inr out -> sanitizeSelectField out = inr out.
Proof.
  intros Hok. pose proof Hok as Hshape.
  apply sanitizeSelectField_shape in Hshape as [Hout Hshape].
  assert (Hplain : allBytes isPlain out = true).
  { destruct Hshape as [->|[Hid|(tbl & col & -> & Ht & Hc)]].
    - reflexivity.
    - now apply ValidateIdentifier_plain.
    - rewrite !allBytes_app, (ValidateIdentifier_plain _ Ht),
        (ValidateIdentifier_plain _ Hc). reflexivity. }
  unfold sanitizeSelectField in Hok |- *.
  rewrite (TrimSpace_plain out Hplain). rewrite <- Hout in Hok.
  destruct (String.eqb out "*"); [reflexivity | exact Hok].
Qed.

Lemma sanitizeFieldsLoop_spec fields : forall sanitized out,
  sanitizeFieldsLoop fields sanitized = inr out ->
  exists clean,
    out = (sanitized ++ clean)%list /\
    Forall2 (fun field c => sanitizeSelectField field = inr c) fields clean.
Proof.
  induction fields as [|field more IH]; intros sanitized out; simpl.
  - intros [= <-]. exists []. now rewrite app_nil_r.
  - destruct (sanitizeSelectField field) as [err|c] eqn:Hf; [discriminate|].
    intros Hloop. apply IH in Hloop as (clean & -> & Hall).
    exists (c :: clean). rewrite <- app_assoc. split; [reflexivity|].
    now constructor.
Qed.

Lemma sanitizeFieldsLoop_fixed clean : forall sanitized,
  Forall (fun c => sanitizeSelectField c = inr c) clean ->
  sanitizeFieldsLoop clean sanitized = inr (sanitized ++ clean)%list.
Proof.
  induction clean as [|c clean IH]; intros sanitized Hall; simpl.
  - now rewrite app_nil_r.
  - inversion Hall as [|? ? Hc Hrest]; subst. rewrite Hc.
    rewrite IH by exact Hrest. now rewrite <- app_assoc.
Qed.

Lemma SanitizeSelectFields_inr fields out :
  SanitizeSelectFields fields = inr out ->
  Forall2 (fun field c => sanitizeSelectField field = inr c) fields out.
Proof.
  unfold SanitizeSelectFields. destruct fields as [|field more].
  - simpl. intros [= <-]. constructor.
  - change (length (field :: more) =? 0)%nat with false. cbv iota.
    intros Hloop. now apply sanitizeFieldsLoop_spec in Hloop as (clean & -> & Hall).
Qed.

Lemma SanitizeSelectFields_trimmed fields out :
  SanitizeSelectFields fields = inr out -> out = map TrimSpace fields.
Proof.
  intros Hall%SanitizeSelectFields_inr.
  induction Hall as [|f c fs cs Hf _ IH]; [reflexivity|].
  simpl. apply sanitizeSelectField_shape in Hf as [-> _]. now rewrite IH.
Qed.

Lemma SanitizeSelectFields_fixed fields out :
  SanitizeSelectFields fields = inr out -> SanitizeSelectFields out = inr out.
Proof.
  intros Hall%SanitizeSelectFields_inr. unfold SanitizeSelectFields.
  destruct out as [|c cs]; [reflexivity|].
  change (length (c :: cs) =? 0)%nat with false. cbv iota.
  rewrite (sanitizeFieldsLoop_fixed (c :: cs) []); [reflexivity|].
  clear -Hall. induction Hall as [|g d gs ds Hg _ IH]; constructor.
  - now apply sanitizeSelectField_fixed in Hg.
  - exact IH.
Qed.

(** X6: when [SanitizeSelectFields] succeeds, the result is the list of the
    trimmed fields, each of them a star, an identifier, or two identifiers
    joined by a dot (an identifier passing [ValidateIdentifier]); and
    sanitizing the result again returns it unchanged. *)
Theorem SanitizeSelectFields_spec (fields out : list string) :
  SanitizeSelectFields fields = inr out ->
  out = map TrimSpace fields /\
  (forall f, In f out ->
     f = "*" \/
     ValidateIdentifier f = None \/
     exists tbl col, f = tbl ++ "." ++ col /\
                     ValidateIdentifier tbl = None /\ ValidateIdentifier col = None) /\
  SanitizeSelectFields out = inr out.
Proof.
  intros Hok. split; [|split].
  - now apply SanitizeSelectFields_trimmed.
  - apply SanitizeSelectFields_inr in Hok as Hall.
    intros f Hin. clear Hok.
    induction Hall as [|g c fs cs Hg _ IH]; [destruct Hin|].
    destruct Hin as [<-|Hin]; [|now apply IH].
    now apply sanitizeSelectField_shape in Hg as [_ Hshape].
  - now apply SanitizeSelectFields_fixed in Hok.
Qed.

Lemma SanitizeSelectFields_spec_witness :
  SanitizeSelectFields [" users.id "; "*"; "name"] = inr ["users.id"; "*"; "name"] /\
  SanitizeSelectFields ["users.id"; "*"; "name"] = inr ["users.id"; "*"; "name"].
Proof.
  split; [reflexivity|].
  refine (proj2 (proj2 (SanitizeSelectFields_spec [" users.id "; "*"; "name"]
                          ["users.id"; "*"; "name"] _))).
  reflexivity.
Defined.

(** X7: the [Safe] entry points of the builder behave exactly like the
    default methods: each validates and then calls the default method,
    which validates again and comes to the same verdict on the same or the
    sanitized input. *)
Theorem Safe_methods_are_default_methods `{UnicodeTables} q :
  (forall order, SafeOrder q order = Order q order) /\
  (forall joinClause args, SafeJoin q joinClause args = Join q joinClause args) /\
  (forall selections, SafeSelect q selections = Select q selections) /\
  (forall groupbys, SafeGroupBy q groupbys = GroupBy q groupbys) /\
  (forall havings args, SafeHaving q havings args = Having q havings args).
Proof.
  repeat split.
  - intros order. unfold SafeOrder, Order.
    destruct (ValidateOrderBy order); reflexivity.
  - intros joinClause args. unfold SafeJoin, Join.
    destruct (ValidateJoinClause joinClause); reflexivity.
  - intros selections. unfold SafeSelect.
    destruct (SanitizeSelectFields selections) as [err|out] eqn:Hs.
    + unfold Select. now rewrite Hs.
    + pose proof (SanitizeSelectFields_fixed _ _ Hs) as Hfix.
      unfold Select. now rewrite Hs, Hfix.
  - intros groupbys. unfold SafeGroupBy.
    destruct (SanitizeColumnNames groupbys) as [err|out] eqn:Hs.
    + unfold GroupBy. now rewrite Hs.
    + pose proof (SanitizeColumnNames_fixed groupbys out Hs) as Hfix.
      unfold GroupBy. now rewrite Hs, Hfix.
  - intros havings args. unfold SafeHaving, Having.
    destruct (ValidateHavingClause havings); reflexivity.
Qed.

(** X8: on input the validator accepts, the default method stores what the
    [Unsafe] method stores: the text itself for [Order], [Join] and
    [Having], the trimmed entries for [Select] and [GroupBy]. *)
Theorem accepted_input_is_stored `{UnicodeTables} q :
  (forall order, ValidateOrderBy order = None ->
     Order q order = UnsafeOrder q order) /\
  (forall joinClause args, ValidateJoinClause joinClause = None ->
     Join q joinClause args = UnsafeJoin q joinClause args) /\
  (forall selections out, SanitizeSelectFields selections = inr out ->
     Select q selections = UnsafeSelect q (map TrimSpace selections)) /\
  (forall groupbys out, SanitizeColumnNames groupbys = inr out ->
     GroupBy q groupbys = UnsafeGroupBy q (map TrimSpace groupbys)) /\
  (forall havings args, ValidateHavingClause havings = None ->
     Having q havings args = UnsafeHaving q havings args).
Proof.
  repeat split.
  - intros order Hok. unfold Order. now rewrite Hok.
  - intros joinClause args Hok. unfold Join. now rewrite Hok.
  - intros selections out Hok. unfold Select. rewrite Hok.
    apply SanitizeSelectFields_trimmed in Hok as ->. reflexivity.
  - intros groupbys out Hok. unfold GroupBy. rewrite Hok.
    apply SanitizeColumnNames_inr in Hok as (-> & _). reflexivity.
  - intros havings args Hok. unfold Having. now rewrite Hok.
Qed.

Lemma accepted_input_is_stored_witness :
  let q := UseModel (NewSqlAdapter emptyDB FlavorMySQL) users in
  @Order asciiOnly q "name ASC" = UnsafeOrder q "name ASC" /\
  @Join asciiOnly q "LEFT JOIN orders ON orders.user_id = users.id" []
  = UnsafeJoin q "LEFT JOIN orders ON orders.user_id = users.id" [] /\
  Select q [" id "; "users.name"] = UnsafeSelect q ["id"; "users.name"] /\
  GroupBy q [" role "] = UnsafeGroupBy q ["role"] /\
  @Having asciiOnly q ["COUNT(id) > ?"] [VInt 1]
  = UnsafeHaving q ["COUNT(id) > ?"] [VInt 1].
Proof.
  intros q.
  pose proof (@accepted_input_is_stored asciiOnly q)
    as (HOrder & HJoin & HSelect & HGroupBy & HHaving).
  split; [|split; [|split; [|split]]].
  - apply HOrder. reflexivity.
  - apply HJoin. reflexivity.
  - apply (HSelect [" id "; "users.name"] ["id"; "users.name"]). reflexivity.
  - apply (HGroupBy [" role "] ["role"]). reflexivity.
  - apply HHaving. reflexivity.
Defined.
(** ** More on statement assembly *)

Lemma convertFrom_numberMarkers query : forall idx,
  convertFrom (S idx) query = numberMarkers idx query.
Proof.
  induction query as [|c rest IH]; intros idx; [reflexivity|].
  simpl. destruct (Ascii.eqb c "?"); now rewrite IH.
Qed.

Lemma step_withFlavor `{UnicodeTables} detected q c :
  step (withFlavor detected q) c = withFlavor detected (step q c).
Proof.
  destruct c; simpl; try reflexivity.
  - unfold Where, clone. destruct cond as [v|sub printed].
    + destruct (fold_left expandArg args (toString (CondValue v), []));
        reflexivity.
    + simpl.
      destruct (model_eqb (model sub) (model q) && (0 <? length (wheres q))%nat
                && (length (wheres q) <=? length (wheres sub))%nat);
        [|reflexivity].
      destruct (commonPrefix (wheres q) (wheres sub)) as [common argsToDrop].
      destruct (0 <? common)%nat; reflexivity.
  - unfold Join. destruct (ValidateJoinClause joinClause); reflexivity.
  - unfold Select. destruct (SanitizeSelectFields sel) as [|out]; [reflexivity|].
    unfold clone. destruct (0 <? length out)%nat; reflexivity.
  - unfold GroupBy. destruct (SanitizeColumnNames cols) as [|out]; [reflexivity|].
    unfold clone. destruct (0 <? length out)%nat; reflexivity.
  - unfold Having. destruct (ValidateHavingClause cols); [reflexivity|].
    unfold clone. destruct (0 <? length cols)%nat; reflexivity.
  - unfold Order. destruct (ValidateOrderBy order); reflexivity.
  - unfold UnsafeSelect, clone. destruct (0 <? length selections)%nat; reflexivity.
  - unfold UnsafeGroupBy, clone. destruct (0 <? length groupbys)%nat; reflexivity.
  - unfold UnsafeHaving, clone. destruct (0 <? length clauses)%nat; reflexivity.
Qed.

Lemma chain_withFlavor `{UnicodeTables} detected calls : forall q,
  chain calls (withFlavor detected q) = withFlavor detected (chain calls q).
Proof.
  unfold chain. induction calls as [|c calls IH]; intros q; [reflexivity|].
  simpl. now rewrite step_withFlavor, IH.
Qed.

(** X9: the dialect changes the markers and nothing else.  The same chain
    of calls on a numbered-dialect adapter builds the statement that
    [convertPostgresPlaceholder] makes of the generic-dialect statement,
    with the same arguments; the numbering loop of [build] and
    [convertPostgresPlaceholder] agree on every text. *)
Theorem dialects_differ_by_numbering `{UnicodeTables} conn calls count :
  build (chain calls (NewSqlAdapter conn FlavorPostgres)) count
  = (convertPostgresPlaceholder
       (fst (build (chain calls (NewSqlAdapter conn FlavorMySQL)) count)),
     snd (build (chain calls (NewSqlAdapter conn FlavorMySQL)) count)) /\
  (forall query, convertPostgresPlaceholder query = numberMarkers 0 query).
Proof.
  split; [|intros query; apply convertFrom_numberMarkers].
  change (NewSqlAdapter conn FlavorPostgres)
    with (withFlavor FlavorPostgres (NewSqlAdapter conn FlavorMySQL)).
  rewrite chain_withFlavor.
  set (q := chain calls (NewSqlAdapter conn FlavorMySQL)).
  assert (Hflavor : flavor q = FlavorMySQL).
  { unfold q. change (NewSqlAdapter conn FlavorMySQL)
      with (withFlavor FlavorMySQL (NewSqlAdapter conn FlavorMySQL)).
    now rewrite chain_withFlavor. }
  unfold build at 2 3. rewrite Hflavor.
  unfold build, convertPostgresPlaceholder.
  change (assemble (withFlavor FlavorPostgres q) count) with (assemble q count).
  destruct (assemble q count) as [sqlStr args]. simpl.
  now rewrite convertFrom_numberMarkers.
Qed.

(** X10: the count statement is [SELECT COUNT(1) FROM] the table, the joins
    and the WHERE part; the selected fields, GROUP BY, HAVING (with its
    arguments), ORDER BY, LIMIT and OFFSET have no part in it. *)
Theorem count_statement_ignores_projection q q' :
  flavor q = flavor q' -> table q = table q' ->
  joins q = joins q' -> joinArgs q = joinArgs q' ->
  wheres q = wheres q' -> whereArgs q = whereArgs q' ->
  orWheres q = orWheres q' -> orArgs q = orArgs q' ->
  build q true = build q' true.
Proof.
  intros Hf Ht Hj Hja Hw Hwa Ho Hoa.
  unfold build, assemble.
  rewrite Hf, Ht, Hj, Hja, Hw, Hwa, Ho, Hoa.
  rewrite !andb_false_r.
  destruct (limit q), (limit q'), (offset q), (offset q'); reflexivity.
Qed.

Lemma count_statement_ignores_projection_witness :
  build (scenario FlavorMySQL) true
  = build (Or (Or (Where (UseModel (NewSqlAdapter emptyDB FlavorMySQL) users)
                     (Text "status = ?") [VStr "active"])
                 (Text "role = ?") [VStr "admin"])
             (Text "role = ?") [VStr "owner"]) true.
Proof.
  apply count_statement_ignores_projection; reflexivity.
Defined.
Lemma snoc_not_nil {A} (l : list A) x : (l ++ [x])%list <> [].
Proof. destruct l; discriminate. Qed.

Lemma tidy_step `{UnicodeTables} q c : tidy q -> tidy (step q c).
Proof.
  intros (Hw & Ho & Hh). destruct c; simpl.
  - repeat split; assumption.
  - unfold Where, clone. destruct cond as [v|sub printed].
    + destruct (fold_left expandArg args (toString (CondValue v), [])).
      repeat split; simpl; try assumption.
      intros Habs. now apply snoc_not_nil in Habs.
    + destruct (if model_eqb (model sub) (model q) && (0 <? length (wheres q))%nat
                   && (length (wheres q) <=? length (wheres sub))%nat
                then _ else _) as [subWheres subWhereArgs].
      repeat split; simpl; try assumption.
      intros Habs. now apply snoc_not_nil in Habs.
  - unfold Or, clone. repeat split; simpl; try assumption.
    intros Habs. now apply snoc_not_nil in Habs.
  - unfold Join, clone. destruct (ValidateJoinClause joinClause);
      repeat split; assumption.
  - unfold Select, clone. destruct (SanitizeSelectFields sel) as [|out];
      [|destruct (0 <? length out)%nat]; repeat split; assumption.
  - unfold GroupBy, clone. destruct (SanitizeColumnNames cols) as [|out];
      [|destruct (0 <? length out)%nat]; repeat split; assumption.
  - unfold Having, clone. destruct (ValidateHavingClause cols);
      [repeat split; assumption|].
    destruct cols as [|col cols]; simpl; repeat split; try assumption.
    discriminate.
  - repeat split; assumption.
  - repeat split; assumption.
  - unfold Order, clone. destruct (ValidateOrderBy order);
      repeat split; assumption.
  - repeat split; assumption.
  - repeat split; assumption.
  - unfold UnsafeSelect, clone. destruct (0 <? length selections)%nat;
      repeat split; assumption.
  - unfold UnsafeGroupBy, clone. destruct (0 <? length groupbys)%nat;
      repeat split; assumption.
  - unfold UnsafeHaving, clone.
    destruct clauses as [|clause clauses]; simpl; repeat split; try assumption.
    discriminate.
Qed.

Lemma tidy_chain `{UnicodeTables} calls : forall q, tidy q -> tidy (chain calls q).
Proof.
  unfold chain. induction calls as [|c calls IH]; intros q Hq; [exact Hq|].
  simpl. apply IH. now apply tidy_step.
Qed.

Lemma assemble_args_tidy q count :
  tidy q ->
  snd (assemble q count)
  = (joinArgs q ++ whereArgs q ++ orArgs q
       ++ (if count then [] else havingArgs q))%list.
Proof.
  intros (Hw & Ho & Hh). unfold assemble. cbn [snd].
  destruct (wheres q) as [|w ws]; [rewrite (Hw eq_refl)|];
    destruct (orWheres q) as [|o os]; try rewrite (Ho eq_refl);
    destruct (havings q) as [|h hs]; try rewrite (Hh eq_refl);
    destruct count; simpl; rewrite ?app_nil_r, <- ?app_assoc; reflexivity.
Qed.

(** X11: whatever chain of calls made the builder, no stored argument is
    lost: the argument list of the statement is the join arguments, the AND
    arguments, the OR arguments and the having arguments, in this order;
    the count statement leaves out the having arguments only. *)
Theorem build_keeps_every_argument `{UnicodeTables} conn detected calls :
  let q := chain calls (NewSqlAdapter conn detected) in
  snd (build q false)
  = (joinArgs q ++ whereArgs q ++ orArgs q ++ havingArgs q)%list /\
  snd (build q true) = (joinArgs q ++ whereArgs q ++ orArgs q)%list.
Proof.
  intros q.
  assert (Hq : tidy q).
  { apply tidy_chain. repeat split. }
  rewrite !build_args, !assemble_args_tidy by exact Hq.
  now rewrite app_nil_r.
Qed.

(** ** Scopes and [Clone] *)

Lemma scopesLoop_app fs : forall q gs,
  scopesLoop q (fs ++ gs)%list = scopesLoop (scopesLoop q fs) gs.
Proof.
  induction fs as [|[f|] fs IH]; intros q gs; simpl; [reflexivity | apply IH..].
Qed.

Lemma Scopes_loop q fs : Scopes q fs = scopesLoop q fs.
Proof. destruct fs; reflexivity. Qed.

Lemma applyScopes_total (hs : list ScopeFunc) : forall q,
  applyScopes q (map Some hs) = Some (scopesLoop q (map Some hs)).
Proof. induction hs as [|h hs IH]; intros q; simpl; [reflexivity | apply IH]. Qed.

Lemma applyScopes_nil (hs : list ScopeFunc) gs : forall q,
  applyScopes q (map Some hs ++ None :: gs)%list = None.
Proof. induction hs as [|h hs IH]; intros q; simpl; [reflexivity | apply IH]. Qed.

(** X12: scopes compose from left to right: applying two lists of scopes
    one after the other is applying their concatenation.  [Scopes] passes
    over nil functions; [applyScopes] panics on one and agrees with
    [Scopes] when there is none. *)
Theorem Scopes_compose q (fs gs : list (option ScopeFunc)) (hs : list ScopeFunc) :
  Scopes (Scopes q fs) gs = Scopes q (fs ++ gs)%list /\
  Scopes q (fs ++ None :: gs)%list = Scopes q (fs ++ gs)%list /\
  applyScopes q (map Some hs) = Some (Scopes q (map Some hs)) /\
  applyScopes q (map Some hs ++ None :: gs)%list = None.
Proof.
  rewrite !Scopes_loop, !scopesLoop_app. repeat split.
  - apply applyScopes_total.
  - apply applyScopes_nil.
Qed.

Lemma set_model_same q m : model q = Some m -> set_model q (Some m) = q.
Proof. destruct q; simpl. now intros ->. Qed.

Lemma set_table_same q : set_table q (table q) = q.
Proof. destruct q; reflexivity. Qed.

(** X13: [Clone] copies the whole builder: on a builder with a model it
    returns a builder with the same clause lists, arguments, order, limit
    and offset, the table being read again from the model; nothing is
    detached.  On a builder without a model it panics. *)
Theorem Clone_keeps_clauses q :
  (model q = None -> Clone q = None) /\
  (forall m, model q = Some m ->
     Clone q = Some (set_table q (TableName m)) /\
     (table q = TableName m -> Clone q = Some q)).
Proof.
  unfold Clone, UseModel, clone. split.
  - now intros ->.
  - intros m Hm. rewrite Hm, (set_model_same q m Hm). split; [reflexivity|].
    intros <-. now rewrite set_table_same.
Qed.

Lemma Clone_keeps_clauses_witness :
  Clone (scenario FlavorMySQL) = Some (scenario FlavorMySQL) /\
  Clone (NewSqlAdapter emptyDB FlavorMySQL) = None.
Proof.
  pose proof (Clone_keeps_clauses (scenario FlavorMySQL)) as [_ Hsome].
  pose proof (Clone_keeps_clauses (NewSqlAdapter emptyDB FlavorMySQL)) as [Hnone _].
  split.
  - exact (proj2 (Hsome users eq_refl) eq_refl).
  - exact (Hnone eq_refl).
Defined.

(** ** More on [Where] *)

Lemma ReplaceFirst_first pre : forall post new,
  Count pre "?" = 0%nat ->
  ReplaceFirst (pre ++ String "?" post) "?" new = pre ++ new ++ post.
Proof.
  induction pre as [|c pre IH]; intros post new Hpre.
  - simpl String.append. rewrite ReplaceFirst_cons. reflexivity.
  - simpl String.append. rewrite ReplaceFirst_cons.
    change (Count (String c pre) "?")
      with ((if Ascii.eqb c "?" then 1 else 0) + Count pre "?")%nat in Hpre.
    destruct (Ascii.eqb c "?"); [discriminate|].
    rewrite IH by exact Hpre. reflexivity.
Qed.

Lemma expandArg_scalars scalars : forall condStr finalArgs,
  forallb isScalar scalars = true ->
  fold_left expandArg scalars (condStr, finalArgs)
  = (condStr, (finalArgs ++ scalars)%list).
Proof.
  induction scalars as [|v scalars IH]; intros condStr finalArgs Hall.
  - now rewrite app_nil_r.
  - simpl in Hall. apply andb_true_iff in Hall as [Hv Hall].
    destruct v; try discriminate Hv;
      (change (fold_left expandArg (?v :: scalars) (condStr, finalArgs))
         with (fold_left expandArg scalars (condStr, (finalArgs ++ [v])%list))
       || idtac);
      simpl fold_left; cbn [expandArg];
      rewrite IH by exact Hall; now rewrite <- app_assoc.
Qed.

(** X14: a sequence argument of [Where] always expands the first [?] of the
    condition, wherever the sequence stands among the arguments: with
    scalars before a sequence of [n] elements, the first marker becomes the
    group of [n] markers and the arguments are the scalars followed by the
    elements. *)
Theorem Where_sequence_expands_first_marker q (pre post : string) scalars e elems :
  Count pre "?" = 0%nat ->
  forallb isScalar scalars = true ->
  Where q (Text (pre ++ "?" ++ post)) (scalars ++ [VSeq (e :: elems)])
  = set_where q
      (wheres q ++
       [ (pre ++ "(" ++ GoStrings.Join (repeat "?" (S (length elems))) ", " ++ ")"
            ++ post)%string ])%list
      (whereArgs q ++ scalars ++ e :: elems)%list.
Proof.
  intros Hpre Hscalars. unfold Where, clone, Text. cbv beta iota.
  rewrite fold_left_app, (expandArg_scalars scalars _ _ Hscalars).
  change (fold_left expandArg [VSeq (e :: elems)]
            (toString (CondValue (VStr (pre ++ "?" ++ post))),
             ([] ++ scalars)%list))
    with (ReplaceFirst (pre ++ String "?" post) "?"
            ("(" ++ GoStrings.Join (repeat "?" (length (e :: elems))) ", " ++ ")"),
          (([] ++ scalars) ++ e :: elems)%list).
  rewrite (ReplaceFirst_first pre post _ Hpre). cbv beta iota.
  rewrite !append_assoc. reflexivity.
Qed.

Lemma Where_sequence_expands_first_marker_witness :
  build (Where (UseModel (NewSqlAdapter emptyDB FlavorMySQL) users)
           (Text "status = ? AND id IN ?") [VStr "active"; VSeq [VInt 1; VInt 2]])
    false
  = ("SELECT * FROM users WHERE status = (?, ?) AND id IN ?",
     [VStr "active"; VInt 1; VInt 2]).
Proof.
  change (build (Where (UseModel (NewSqlAdapter emptyDB FlavorMySQL) users)
                   (Text ("status = " ++ "?" ++ " AND id IN ?"))
                   ([VStr "active"] ++ [VSeq (VInt 1 :: [VInt 2])])) false
          = ("SELECT * FROM users WHERE status = (?, ?) AND id IN ?",
             [VStr "active"; VInt 1; VInt 2])).
  rewrite (Where_sequence_expands_first_marker
             (UseModel (NewSqlAdapter emptyDB FlavorMySQL) users)
             "status = " " AND id IN ?" [VStr "active"] (VInt 1) [VInt 2]);
    reflexivity.
Defined.

Lemma commonPrefix_sharedPrefix a : forall b,
  commonPrefix a b
  = (sharedPrefix a b, markersIn (take (sharedPrefix a b) b)).
Proof.
  induction a as [|x a IH]; intros b; [destruct b; reflexivity|].
  destruct b as [|y b]; [reflexivity|].
  simpl. destruct (String.eqb_spec y x) as [->|Hne]; [|reflexivity].
  now rewrite IH.
Qed.

Lemma Tabler_eqb_eq a b : Tabler_eqb a b = true <-> a = b.
Proof.
  unfold Tabler_eqb. rewrite andb_true_iff, N.eqb_eq, String.eqb_eq.
  destruct a, b; simpl. split; [intros [-> ->] | intros [= -> ->]]; auto.
Qed.

Lemma model_eqb_eq a b : model_eqb a b = true <-> a = b.
Proof.
  destruct a as [x|], b as [y|]; simpl;
    rewrite ?Tabler_eqb_eq; split; congruence.
Qed.

(** X15: how much [Where] strips from a builder handed to it.  When the
    models differ, or the builder has fewer AND fragments than the
    receiver, nothing is stripped.  Otherwise the longest common prefix of
    the two AND lists is stripped, with as many leading arguments as its
    fragments have [?] bytes (all of them when there are fewer). *)
Theorem Where_builder_strips_common_prefix q sub printed args :
  let stripped n :=
    set_where q
      (wheres q ++ [groupText (drop n (wheres sub)) (orWheres sub)])%list
      (whereArgs q ++ drop (markersIn (take n (wheres sub))) (whereArgs sub)
         ++ orArgs sub)%list in
  (model sub <> model q \/ (length (wheres sub) < length (wheres q))%nat ->
   Where q (CondBuilder sub printed) args = stripped 0%nat) /\
  (model sub = model q -> (length (wheres q) <= length (wheres sub))%nat ->
   Where q (CondBuilder sub printed) args
   = stripped (sharedPrefix (wheres q) (wheres sub))).
Proof.
  intros stripped. subst stripped. unfold Where, clone. cbv beta. split.
  - intros Hno.
    assert (Hguard : model_eqb (model sub) (model q) && (0 <? length (wheres q))%nat
                     && (length (wheres q) <=? length (wheres sub))%nat = false).
    { destruct Hno as [Hne|Hlt].
      - destruct (model_eqb (model sub) (model q)) eqn:Heq; [|reflexivity].
        now apply model_eqb_eq in Heq.
      - apply andb_false_iff. right. apply Nat.leb_gt. exact Hlt. }
    rewrite Hguard. simpl. now rewrite <- app_assoc.
  - intros Hmodel Hlen. rewrite Hmodel, model_eqb_refl.
    rewrite (proj2 (Nat.leb_le _ _) Hlen), andb_true_r. cbn [andb].
    rewrite commonPrefix_sharedPrefix.
    destruct (wheres q) as [|w ws] eqn:Hq.
    + simpl. destruct (wheres sub); simpl; now rewrite <- app_assoc.
    + change (0 <? length (w :: ws))%nat with true. cbv iota.
      destruct (sharedPrefix (w :: ws) (wheres sub)) as [|n] eqn:Hn.
      * simpl. now rewrite <- app_assoc.
      * change (0 <? S n)%nat with true. cbv iota. rewrite <- app_assoc.
        destruct (Nat.leb_spec (markersIn (take (S n) (wheres sub)))
                    (length (whereArgs sub))) as [Hfits|Hover]; [reflexivity|].
        rewrite (drop_ge (whereArgs sub)) by lia. reflexivity.
Qed.

Lemma Where_builder_strips_common_prefix_witness :
  let base := Where (Where (UseModel (NewSqlAdapter emptyDB FlavorMySQL) users)
                       (Text "a = ?") [VInt 1]) (Text "b = ?") [VInt 2] in
  let sub := Where (Where (UseModel (NewSqlAdapter emptyDB FlavorMySQL) users)
                      (Text "a = ?") [VInt 1]) (Text "c = ?") [VInt 3] in
  let short := Where (UseModel (NewSqlAdapter emptyDB FlavorMySQL) users)
                 (Text "a = ?") [VInt 1] in
  wheres (Where base (CondBuilder sub "&{}") []) = ["a = ?"; "b = ?"; "(c = ?)"] /\
  wheres (Where base (CondBuilder short "&{}") []) = ["a = ?"; "b = ?"; "(a = ?)"].
Proof.
  intros base sub short.
  pose proof (Where_builder_strips_common_prefix base sub "&{}" []) as [_ Hstrip].
  pose proof (Where_builder_strips_common_prefix base short "&{}" []) as [Hkeep _].
  split.
  - rewrite Hstrip; [reflexivity | reflexivity | vm_compute; lia].
  - rewrite Hkeep; [reflexivity | right; vm_compute; lia].
Defined.
Lemma expandArg_args args : forall condStr finalArgs,
  snd (fold_left expandArg args (condStr, finalArgs))
  = (finalArgs ++ flatten args)%list.
Proof.
  unfold flatten.
  induction args as [|arg args IH]; intros condStr finalArgs.
  - simpl. now rewrite app_nil_r.
  - simpl fold_left.
    destruct arg as [| b | n | s | [|e elems] | printed]; simpl expandArg;
      rewrite IH; simpl; rewrite <- ?app_assoc; reflexivity.
Qed.

Lemma expandArg_after_empty args : forall finalArgs,
  fst (fold_left expandArg args ("1=0", finalArgs)) = "1=0".
Proof.
  induction args as [|arg args IH]; intros finalArgs; [reflexivity|].
  simpl fold_left.
  destruct arg as [| b | n | s | [|e elems] | printed]; simpl expandArg;
    apply IH.
Qed.

Lemma expandArg_with_empty args : forall condStr finalArgs,
  existsb isEmptySeq args = true ->
  fst (fold_left expandArg args (condStr, finalArgs)) = "1=0".
Proof.
  induction args as [|arg args IH]; intros condStr finalArgs Hex;
    [discriminate|].
  simpl in Hex. simpl fold_left.
  destruct arg as [| b | n | s | [|e elems] | printed];
    simpl in Hex; simpl expandArg; try (now apply IH).
  apply expandArg_after_empty.
Qed.

(** X16: [Where] binds all its arguments, sequences flattened, whatever
    happens to the text; and when one of the arguments is an empty
    sequence the fragment is [1=0], wherever the empty sequence stands and
    whatever the other arguments are, which are bound all the same. *)
Theorem Where_binds_flattened_arguments q v args :
  whereArgs (Where q (CondValue v) args) = (whereArgs q ++ flatten args)%list /\
  (existsb isEmptySeq args = true ->
   wheres (Where q (CondValue v) args) = (wheres q ++ ["1=0"])%list).
Proof.
  unfold Where, clone.
  pose proof (expandArg_args args (toString (CondValue v)) []) as Hargs.
  pose proof (expandArg_with_empty args (toString (CondValue v)) []) as Hfrag.
  destruct (fold_left expandArg args (toString (CondValue v), []))
    as [condStr finalArgs].
  simpl in *. split.
  - now rewrite Hargs.
  - intros Hex. now rewrite (Hfrag Hex).
Qed.

Lemma Where_binds_flattened_arguments_witness :
  build (Where (UseModel (NewSqlAdapter emptyDB FlavorMySQL) users)
           (Text "status = ? AND id IN ?") [VStr "active"; VSeq []]) false
  = ("SELECT * FROM users WHERE 1=0", [VStr "active"]).
Proof.
  pose proof (Where_binds_flattened_arguments
                (UseModel (NewSqlAdapter emptyDB FlavorMySQL) users)
                (VStr "status = ? AND id IN ?") [VStr "active"; VSeq []])
    as [Hargs Hfrag].
  specialize (Hfrag eq_refl).
  unfold build, assemble. unfold Text. rewrite Hargs, Hfrag. reflexivity.
Defined.

(** X17: [Having] overwrites the stored clauses and appends to the stored
    arguments: after an accepted call with clauses the builder has these
    clauses and its old arguments followed by the new ones, so a second
    call leaves the arguments of the first in the statement. *)
Theorem Having_replaces_clauses_keeps_arguments `{UnicodeTables} q cols args :
  ValidateHavingClause cols = None -> cols <> [] ->
  havings (Having q cols args) = cols /\
  havingArgs (Having q cols args) = (havingArgs q ++ args)%list /\
  snd (build (Having q cols args) false)
  = (snd (build q true) ++ havingArgs q ++ args)%list.
Proof.
  intros Hok Hne. unfold Having, clone. rewrite Hok.
  destruct cols as [|col cols]; [congruence|].
  change (0 <? length (col :: cols))%nat with true. cbv iota.
  repeat split.
  rewrite !build_args. unfold assemble. cbn [snd]. simpl.
  rewrite !andb_false_r, app_nil_r, <- !app_assoc. reflexivity.
Qed.

Lemma Having_replaces_clauses_keeps_arguments_witness :
  build (@Having asciiOnly
           (@Having asciiOnly (UseModel (NewSqlAdapter emptyDB FlavorMySQL) users)
              ["COUNT(id) > ?"] [VInt 1])
           ["SUM(total) > ?"] [VInt 2]) false
  = ("SELECT * FROM users HAVING SUM(total) > ?", [VInt 1; VInt 2]).
Proof.
  pose proof (@Having_replaces_clauses_keeps_arguments asciiOnly
                (@Having asciiOnly (UseModel (NewSqlAdapter emptyDB FlavorMySQL) users)
                   ["COUNT(id) > ?"] [VInt 1])
                ["SUM(total) > ?"] [VInt 2] eq_refl) as Hhaving.
  destruct Hhaving as (Hclauses & Hargs & _); [discriminate|].
  unfold build, assemble. rewrite Hclauses, Hargs. reflexivity.
Defined.

(** ** What [Scan] and [First] do to the world and to the destination *)

Lemma bindModel_frame `{UnicodeTables} w p q dest w' q' :
  heap w !! p = Some q ->
  bindModel w p q dest = inr (w', q') ->
  (forall p', p' <> p -> heap w' !! p' = heap w !! p') /\
  heap w' !! p = Some q' /\
  sameClauses q q' /\
  (model q <> None -> w' = w /\ q' = q) /\
  db q' = db q.
Proof.
  intros Hq. unfold bindModel, sameClauses.
  destruct (model q) as [m|] eqn:Hm.
  - intros [= <- <-]. repeat split; try assumption; try reflexivity.
    destruct q; simpl in *; now subst.
  - destruct (asTabler dest) as [t|]; [|discriminate].
    intros [= <- <-]. repeat split.
    + intros p' Hne. simpl. now rewrite lookup_insert_ne.
    + simpl. now rewrite lookup_insert_eq.
    + congruence.
    + congruence.
Qed.

(** X18: what a query method may touch.  [Scan] and [First] on the builder
    at address [p] leave every other builder alone and change the receiver
    at most in its table and model (not at all when it has a model).  They
    hand exactly one statement to the driver, except when the receiver has
    no model and the destination is no [Tabler]: then they return
    [ErrTablerNotImplemented] and nothing at all has happened. *)
Theorem query_methods_touch_only_the_receiver `{UnicodeTables} w p q dest
        w' dest' out :
  heap w !! p = Some q ->
  Scan w p dest = (w', dest', out) \/ First w p dest = (w', dest', out) ->
  (forall p', p' <> p -> heap w' !! p' = heap w !! p') /\
  (exists q', heap w' !! p = Some q' /\ sameClauses q q') /\
  (model q <> None -> heap w' = heap w) /\
  (model q = None /\ asTabler dest = None ->
   w' = w /\ dest' = dest /\ out = Return (Some ErrTablerNotImplemented)) /\
  (model q <> None \/ asTabler dest <> None ->
   exists stmt, wire w' = (wire w ++ [stmt])%list).
Proof.
  intros Hq Hrun.
  assert (Hsame : sameClauses q q) by (unfold sameClauses; now destruct q).
  destruct (bindModel w p q dest) as [err|[w1 q1]] eqn:Hbind.
  - (* the receiver has no model and the destination is no Tabler *)
    assert (Hworld : w' = w /\ dest' = dest /\
                     out = Return (Some ErrTablerNotImplemented) /\
                     model q = None /\ asTabler dest = None).
    { unfold bindModel in Hbind.
      destruct (model q) eqn:Hm; [discriminate|].
      destruct (asTabler dest) eqn:Ht; [discriminate|].
      destruct Hrun as [Hrun|Hrun]; [unfold Scan in Hrun | unfold First in Hrun];
        rewrite Hq in Hrun; unfold bindModel in Hrun; rewrite Hm, Ht in Hrun;
        injection Hrun as <- <- <-; auto. }
    destruct Hworld as (-> & -> & -> & Hm & Ht).
    split; [reflexivity|]. split; [now exists q|].
    split; [reflexivity|]. split; [now intros _|].
    intros [Hne|Hne]; contradiction.
  - destruct (bindModel_frame _ _ _ _ _ _ Hq Hbind)
      as (Hframe & Hp & Hclauses & Hbound & _).
    pose proof (bindModel_wire _ _ _ _ _ _ Hbind) as Hwire.
    assert (Hworld : exists stmt, w' = send w1 (fst stmt) (snd stmt)).
    { destruct Hrun as [Hrun|Hrun]; [unfold Scan in Hrun | unfold First in Hrun];
        rewrite Hq, Hbind in Hrun;
        destruct (build q1 false) as [sqlStr args]; cbv zeta in Hrun.
      - exists (sqlStr, args).
        destruct (db q1 sqlStr args) as [err|rows];
          [now injection Hrun as <- _ _|].
        destruct (scanInto rows dest). now injection Hrun as <- _ _.
      - exists (withLimitOne sqlStr, args).
        destruct (db q1 (withLimitOne sqlStr) args) as [err|rows];
          [now injection Hrun as <- _ _|].
        destruct (firstInto rows dest). now injection Hrun as <- _ _. }
    destruct Hworld as [stmt ->]. simpl.
    split; [exact Hframe|]. split; [now exists q1|].
    split; [intros Hm; now destruct (Hbound Hm) as [-> _]|].
    split.
    + intros [Hm Ht]. unfold bindModel in Hbind. rewrite Hm, Ht in Hbind.
      discriminate.
    + intros _. exists stmt. rewrite Hwire. now destruct stmt.
Qed.

Lemma query_methods_touch_only_the_receiver_witness :
  exists stmt,
    wire (@Scan asciiOnly (oneBuilder (NewSqlAdapter emptyDB FlavorMySQL)) 1%N
            (userDest [])).1.1 = [stmt].
Proof.
  destruct (@Scan asciiOnly (oneBuilder (NewSqlAdapter emptyDB FlavorMySQL)) 1%N
              (userDest [])) as [[w' dest'] out] eqn:Hrun.
  destruct (@query_methods_touch_only_the_receiver asciiOnly
              (oneBuilder (NewSqlAdapter emptyDB FlavorMySQL)) 1%N
              (NewSqlAdapter emptyDB FlavorMySQL) (userDest []) w' dest' out
              eq_refl (or_introl Hrun)) as (_ & _ & _ & _ & Hsent).
  apply Hsent. right. discriminate.
Defined.

Lemma scanRows_spec `{UnicodeTables} t cols news : forall rows slice,
  (map (decodeRow t cols) rows = map inr news ->
   scanRows t cols rows slice = inr (slice ++ news)%list) /\
  (forall err rest,
     map (decodeRow t cols) rows = (map inr news ++ inl err :: rest)%list ->
     scanRows t cols rows slice = inl err).
Proof.
  induction news as [|elem news IH]; intros rows slice.
  - split.
    + destruct rows; [|discriminate]. intros _. simpl. now rewrite app_nil_r.
    + intros err rest Hrows. destruct rows as [|row rows]; [discriminate|].
      simpl in Hrows. injection Hrows as Hrow _.
      unfold decodeRow in Hrow. simpl. destruct row as [e|raw].
      * congruence.
      * destruct (assignColumns t cols 0 raw (zero t)) as [rec [e|]];
          congruence.
  - assert (Hstep : forall row rows' tail,
              map (decodeRow t cols) (row :: rows') = inr elem :: tail ->
              scanRows t cols (row :: rows') slice
              = scanRows t cols rows' (slice ++ [elem])%list /\
              map (decodeRow t cols) rows' = tail).
    { intros row rows' tail Hrows. simpl in Hrows. injection Hrows as Hrow Htail.
      split; [|exact Htail].
      unfold decodeRow in Hrow. simpl. destruct row as [e|raw]; [discriminate|].
      destruct (assignColumns t cols 0 raw (zero t)) as [rec [e|]];
        [discriminate|]. now injection Hrow as ->. }
    split.
    + intros Hrows. destruct rows as [|row rows]; [discriminate|].
      destruct (Hstep _ _ _ Hrows) as [-> Htail].
      rewrite (proj1 (IH rows (slice ++ [elem])%list) Htail).
      now rewrite <- app_assoc.
    + intros err rest Hrows. destruct rows as [|row rows]; [discriminate|].
      destruct (Hstep _ _ _ Hrows) as [-> Htail].
      exact (proj2 (IH rows (slice ++ [elem])%list) err rest Htail).
Qed.

(** X19: [Scan] into a slice of structs appends: when every row decodes,
    the destination keeps its elements and gains one element per row, in
    the order of the rows, each decoded into a fresh zero value; the slice
    is set even when the call then returns the error of the cursor.  When a
    row fails, the error of the first such row is returned and the
    destination is as before, the rows decoded so far being dropped. *)
Theorem Scan_slice_appends_decoded_rows `{UnicodeTables} rows dest t elems news :
  reflected dest = PointerTo (PSlice (Some t) elems) ->
  (map (decodeRow t (Columns rows)) (pending rows) = map inr news ->
   scanInto rows dest
   = (retarget dest (PSlice (Some t) (elems ++ news)), Return (Err rows))) /\
  (forall err rest,
     map (decodeRow t (Columns rows)) (pending rows)
     = (map inr news ++ inl err :: rest)%list ->
     scanInto rows dest = (dest, Return (Some err))).
Proof.
  intros Hdest. unfold scanInto. rewrite Hdest.
  destruct (scanRows_spec t (Columns rows) news (pending rows) elems)
    as [Hall Hfail].
  split.
  - intros Hrows. now rewrite (Hall Hrows).
  - intros err rest Hrows. now rewrite (Hfail err rest Hrows).
Qed.

Lemma Scan_slice_appends_decoded_rows_witness :
  let rows := {| Columns := ["id"; "users.Name"];
                 pending := [inr [Some "7"; Some "Ann"]; inr [Some "8"; None]];
                 Err := Some (ErrOther 3) |} in
  let dest := {| asTabler := Some users;
                 reflected := PointerTo (PSlice (Some userRecord)
                                           [[VStr "1"; VStr "Zoe"]]) |} in
  @scanInto asciiOnly rows dest
  = (retarget dest (PSlice (Some userRecord)
                      [[VStr "1"; VStr "Zoe"]; [VStr "7"; VStr "Ann"];
                       [VStr "8"; VStr ""]]),
     Return (Some (ErrOther 3))).
Proof.
  intros rows dest.
  exact (proj1 (@Scan_slice_appends_decoded_rows asciiOnly rows dest userRecord
                  [[VStr "1"; VStr "Zoe"]]
                  [[VStr "7"; VStr "Ann"]; [VStr "8"; VStr ""]] eq_refl)
           eq_refl).
Defined.

Lemma assignColumns_untouched `{UnicodeTables} t fi raw cols : forall ci rec,
  (forall col, In col cols -> fieldMap t !! normalize col <> Some fi) ->
  (assignColumns t cols ci raw rec).1 !! fi = rec !! fi.
Proof.
  induction cols as [|col cols IH]; intros ci rec Hcols; [reflexivity|].
  simpl assignColumns.
  assert (Hmore : forall c, In c cols -> fieldMap t !! normalize c <> Some fi)
    by (intros c Hc; apply Hcols; now right).
  destruct (fieldMap t !! normalize col) as [fj|] eqn:Hcol.
  - destruct (convertAssign t fj (default VNil (rec !! fj))
                (default None (raw !! ci))) as [err|v]; [reflexivity|].
    rewrite IH by exact Hmore.
    apply list_lookup_insert_ne. intros ->. apply (Hcols col); [now left|exact Hcol].
  - now apply IH.
Qed.

(** X20: a field that no returned column names keeps its value.  [Scan] and
    [First] into a pointer to a struct write only the fields that
    [buildFieldMap] gives for the normalized names of the returned columns;
    every other field is after the call what it was before, whether the
    call succeeds or fails on the way. *)
Theorem unnamed_fields_keep_their_value `{UnicodeTables} rows dest t rec fi :
  reflected dest = PointerTo (PStruct t rec) ->
  (forall col, In col (Columns rows) -> fieldMap t !! normalize col <> Some fi) ->
  (exists rec', reflected (scanInto rows dest).1 = PointerTo (PStruct t rec') /\
                rec' !! fi = rec !! fi) /\
  (exists rec', reflected (firstInto rows dest).1 = PointerTo (PStruct t rec') /\
                rec' !! fi = rec !! fi).
Proof.
  intros Hdest Hcols. unfold scanInto, firstInto. rewrite Hdest.
  assert (Hkeep : exists rec', PointerTo (PStruct t rec) = PointerTo (PStruct t rec')
                               /\ rec' !! fi = rec !! fi) by now exists rec.
  destruct (pending rows) as [|[err|raw] more].
  - destruct (Err rows); simpl; rewrite Hdest; auto.
  - simpl. rewrite Hdest. auto.
  - pose proof (assignColumns_untouched t fi raw (Columns rows) 0 rec Hcols)
      as Hfi.
    destruct (assignColumns t (Columns rows) 0 raw rec) as [rec' [err|]];
      simpl in *; split; now exists rec'.
Qed.

Lemma unnamed_fields_keep_their_value_witness :
  let rows := {| Columns := ["name"; "age"];
                 pending := [inr [Some "Ann"; Some "41"]]; Err := None |} in
  exists rec',
    reflected (@scanInto asciiOnly rows (userDest [VStr "7"; VStr "Zoe"])).1
    = PointerTo (PStruct userRecord rec') /\
    rec' !! 0%nat = Some (VStr "7").
Proof.
  intros rows.
  refine (proj1 (@unnamed_fields_keep_their_value asciiOnly rows
                   (userDest [VStr "7"; VStr "Zoe"]) userRecord
                   [VStr "7"; VStr "Zoe"] 0%nat eq_refl _)).
  intros col [<-|[<-|[]]]; vm_compute; discriminate.
Defined.

Lemma infix_app_r (m pre s : string) :
  (exists a b, s = a ++ m ++ b) -> exists a b, pre ++ s = a ++ m ++ b.
Proof.
  intros (a & b & ->). exists (pre ++ a), b. now rewrite append_assoc.
Qed.

Lemma infix_app_l (m post s : string) :
  (exists a b, s = a ++ m ++ b) -> exists a b, s ++ post = a ++ m ++ b.
Proof.
  intros (a & b & ->). exists a, (b ++ post). now rewrite !append_assoc.
Qed.

Lemma mapBytes_app f (a b : string) :
  mapBytes f (a ++ b) = mapBytes f a ++ mapBytes f b.
Proof. induction a as [|c a IH]; simpl; [reflexivity | now rewrite IH]. Qed.

Lemma assemble_limit q l :
  limit q = Some l -> exists a b, fst (assemble q false) = a ++ " LIMIT " ++ b.
Proof.
  intros Hl. unfold assemble. rewrite Hl. cbn [fst negb].
  do 6 apply infix_app_r. apply infix_app_l.
  exists "", (SprintInt l). reflexivity.
Qed.

Lemma build_limit q l :
  limit q = Some l -> exists a b, fst (build q false) = a ++ " LIMIT " ++ b.
Proof.
  intros Hl. rewrite build_text.
  destruct (assemble_limit q l Hl) as (a & b & ->).
  destruct (flavor q); [now exists a, b|].
  rewrite numberMarkers_app.
  exists (numberMarkers 0 a), (numberMarkers (0 + Count a "?") b). reflexivity.
Qed.

Lemma withLimitOne_limit `{UnicodeTables} q l :
  limit q = Some l ->
  withLimitOne (fst (build q false)) = fst (build q false).
Proof.
  intros Hl. destruct (build_limit q l Hl) as (a & b & ->).
  unfold withLimitOne.
  rewrite mentions_ToLower; [reflexivity | reflexivity |].
  unfold mentions. rewrite mapBytes_app. apply Contains_app_r.
  change (mapBytes lowerByte (" LIMIT " ++ b))
    with (String " " ("limit" ++ String " " (mapBytes lowerByte b))).
  rewrite Contains_cons. apply orb_true_iff. right.
  change ("limit" ++ String " " (mapBytes lowerByte b))
    with (String "l" (String "i" (String "m" (String "i" (String "t"
            (String " " (mapBytes lowerByte b))))))).
  rewrite Contains_cons. apply orb_true_iff. left.
  repeat (apply HasPrefix_cons; split; [reflexivity|]).
  apply HasPrefix_empty.
Qed.

(** X21: with a limit set, [First] is [Scan].  The built statement then
    contains [LIMIT], so [First] appends nothing and hands the driver the
    statement [Scan] hands it; and when the destination is a pointer to a
    struct and the driver never answers with an empty result, the two calls
    end in the same world, destination and outcome. *)
Theorem First_with_limit_is_Scan `{UnicodeTables} w p q dest l :
  heap w !! p = Some q -> limit q = Some l ->
  (First w p dest).1.1 = (Scan w p dest).1.1 /\
  (forall t rec,
     reflected dest = PointerTo (PStruct t rec) ->
     (forall sqlStr args rows,
        db q sqlStr args = inr rows -> pending rows <> []) ->
     First w p dest = Scan w p dest).
Proof.
  intros Hq Hl. unfold First, Scan. rewrite Hq.
  destruct (bindModel w p q dest) as [err|[w1 q1]] eqn:Hbind;
    [split; reflexivity|].
  destruct (bindModel_frame _ _ _ _ _ _ Hq Hbind) as (_ & _ & Hsame & _ & Hdb).
  assert (Hl1 : limit q1 = Some l).
  { unfold sameClauses in Hsame. rewrite <- Hsame. exact Hl. }
  pose proof (withLimitOne_limit q1 l Hl1) as Hsent.
  destruct (build q1 false) as [sqlStr args]. cbv zeta. simpl in Hsent.
  rewrite Hsent. split.
  - destruct (db q1 sqlStr args) as [err|rows]; [reflexivity|].
    now destruct (firstInto rows dest), (scanInto rows dest).
  - intros t rec Hdest Hrows.
    destruct (db q1 sqlStr args) as [err|rows] eqn:Hanswer; [reflexivity|].
    rewrite Hdb in Hanswer. apply Hrows in Hanswer.
    unfold firstInto, scanInto. rewrite Hdest.
    destruct (pending rows) as [|[err|raw] more]; [congruence | reflexivity |].
    now destruct (assignColumns t (Columns rows) 0 raw rec) as [rec' [err|]].
Qed.

Lemma First_with_limit_is_Scan_witness :
  let rows := {| Columns := ["id"; "name"];
                 pending := [inr [Some "7"; Some "Ann"]]; Err := None |} in
  let q := Limit (UseModel (NewSqlAdapter (constDB rows) FlavorPostgres) users) 5 in
  @First asciiOnly (oneBuilder q) 1%N (userDest [])
  = @Scan asciiOnly (oneBuilder q) 1%N (userDest []).
Proof.
  intros rows q.
  refine (proj2 (@First_with_limit_is_Scan asciiOnly (oneBuilder q) 1%N q
                   (userDest []) 5%Z eq_refl eq_refl)
            userRecord [] eq_refl _).
  intros sqlStr args answer [= <-]. discriminate.
Defined.

(** ** Column names *)

Lemma trimLeftCut_cutset cs pre s :
  allBytes (inCutset cs) pre = true ->
  trimLeftCut cs (pre ++ s) = trimLeftCut cs s.
Proof.
  induction pre as [|c pre IH]; simpl; [reflexivity|].
  intros [Hc Hpre]%andb_true_iff. rewrite Hc. now apply IH.
Qed.

Lemma trimLeftCut_kept cs s :
  startsOutside cs s = true -> trimLeftCut cs s = s.
Proof.
  destruct s as [|c s]; [discriminate|]. simpl.
  now intros ->%negb_true_iff.
Qed.

Lemma startsOutside_app cs a b :
  startsOutside cs a = true -> startsOutside cs (a ++ b) = true.
Proof. now destruct a. Qed.

Lemma startsOutside_bytes (P : ascii -> bool) cs s :
  (forall c, P c = true -> inCutset cs c = false) ->
  allBytes P s = true -> s <> "" -> startsOutside cs s = true.
Proof.
  intros HP. destruct s as [|c s]; [congruence|]. simpl.
  intros [Hc _]%andb_true_iff _. now rewrite (HP c Hc).
Qed.

Lemma strrev_nonempty s : s <> "" -> rev s <> "".
Proof.
  destruct s as [|c s]; [congruence|]. intros _. simpl.
  now destruct (rev s).
Qed.

Lemma append_empty_r (s : string) : s ++ "" = s.
Proof. induction s as [|c s IH]; simpl; congruence. Qed.

(** [strings.Trim] takes off the cutset bytes around a core that neither
    starts nor ends with one. *)
Lemma Trim_core cs pre core post :
  allBytes (inCutset cs) pre = true ->
  allBytes (inCutset cs) post = true ->
  startsOutside cs core = true -> startsOutside cs (rev core) = true ->
  Trim (pre ++ core ++ post) cs = core.
Proof.
  intros Hpre Hpost Hfirst Hlast. unfold Trim.
  rewrite trimLeftCut_cutset by exact Hpre.
  rewrite (trimLeftCut_kept cs (core ++ post))
    by now apply startsOutside_app.
  rewrite strrev_app, trimLeftCut_cutset by now rewrite allBytes_rev.
  rewrite (trimLeftCut_kept cs (rev core)) by exact Hlast.
  apply strrev_involutive.
Qed.

Lemma afterLast_none s sep : Count s sep = 0%nat -> afterLast s sep = None.
Proof.
  induction s as [|c s IH]; simpl; [reflexivity|].
  destruct (Ascii.eqb c sep); [discriminate|]. intros Hs. now rewrite IH.
Qed.

Lemma afterLast_last a b sep :
  Count b sep = 0%nat -> afterLast (a ++ String sep b) sep = Some b.
Proof.
  intros Hb. induction a as [|c a IH]; simpl.
  - now rewrite (afterLast_none b sep Hb), Ascii.eqb_refl.
  - now rewrite IH.
Qed.

Lemma isIdentChar_quote c : isIdentChar c = true -> inCutset quoteBytes c = false.
Proof. destruct c as [[|] [|] [|] [|] [|] [|] [|] [|]]; vm_compute; congruence. Qed.

Lemma isIdentChar_ascii c : isIdentChar c = true -> isASCII c = true.
Proof. destruct c as [[|] [|] [|] [|] [|] [|] [|] [|]]; vm_compute; congruence. Qed.

Lemma isIdentChar_dot c : isIdentChar c = true -> Ascii.eqb c "." = false.
Proof. destruct c as [[|] [|] [|] [|] [|] [|] [|] [|]]; vm_compute; congruence. Qed.

Lemma identifier_no_dot s : allBytes isIdentChar s = true -> Count s "." = 0%nat.
Proof.
  induction s as [|c s IH]; simpl; [reflexivity|].
  intros [Hc Hs]%andb_true_iff. now rewrite (isIdentChar_dot c Hc), IH.
Qed.

Lemma ToLower_ascii `{UnicodeTables} s :
  allASCII s = true -> ToLower s = mapBytes lowerByte s.
Proof. apply mapCase_ascii. Qed.

Lemma allASCII_identifier s : allBytes isIdentChar s = true -> allASCII s = true.
Proof.
  induction s as [|c s IH]; simpl; [reflexivity|].
  intros [Hc Hs]%andb_true_iff. now rewrite (isIdentChar_ascii c Hc), IH.
Qed.

(** [normalize] on a name that [Trim] reduces to [core], whose part after
    the last dot is [tail], ASCII throughout. *)
Lemma normalize_core `{UnicodeTables} pre core post a tail :
  allBytes (inCutset quoteBytes) pre = true ->
  allBytes (inCutset quoteBytes) post = true ->
  startsOutside quoteBytes core = true ->
  startsOutside quoteBytes (rev core) = true ->
  core = a ++ String "." tail -> Count tail "." = 0%nat ->
  allASCII tail = true ->
  normalize (pre ++ core ++ post) = mapBytes lowerByte tail.
Proof.
  intros Hpre Hpost Hfirst Hlast Hcore Hdot Hascii. unfold normalize.
  fold quoteBytes. rewrite Trim_core by assumption.
  rewrite Hcore, afterLast_last by exact Hdot.
  now apply ToLower_ascii.
Qed.

Lemma normalize_plain `{UnicodeTables} pre core post :
  allBytes (inCutset quoteBytes) pre = true ->
  allBytes (inCutset quoteBytes) post = true ->
  allBytes isIdentChar core = true -> core <> "" ->
  normalize (pre ++ core ++ post) = mapBytes lowerByte core.
Proof.
  intros Hpre Hpost Hcore Hne. unfold normalize. fold quoteBytes.
  rewrite Trim_core; try assumption.
  - rewrite afterLast_none by now apply identifier_no_dot.
    apply ToLower_ascii. now apply allASCII_identifier.
  - now apply (startsOutside_bytes isIdentChar); [exact isIdentChar_quote| |].
  - apply (startsOutside_bytes isIdentChar); [exact isIdentChar_quote| |].
    + now rewrite allBytes_rev.
    + now apply strrev_nonempty.
Qed.

(** X22: the column names [normalize] understands.  For identifiers [tbl]
    and [col], the bare name, the qualified name and the name in
    backquotes or double quotes all normalize to [col] in lower case, the
    key under which [buildFieldMap] files a field.  A qualified name whose
    column part is quoted does not: [Trim] takes off the outer quotes only,
    so the opening quote of the column stays in the result. *)
Theorem normalize_identifier_columns `{UnicodeTables} tbl col :
  identifierShape tbl = true -> identifierShape col = true ->
  let lower := mapBytes lowerByte col in
  let dq := bytes [34]%N in
  normalize col = lower /\
  normalize (tbl ++ "." ++ col) = lower /\
  normalize ("`" ++ col ++ "`") = lower /\
  normalize (dq ++ col ++ dq) = lower /\
  normalize ("`" ++ tbl ++ "`.`" ++ col ++ "`") = "`" ++ lower /\
  normalize (tbl ++ ".`" ++ col ++ "`") = "`" ++ lower /\
  normalize (dq ++ tbl ++ dq ++ "." ++ dq ++ col ++ dq) = dq ++ lower.
Proof.
  intros Htbl Hcol lower dq.
  pose proof (identifierShape_bytes _ Htbl) as Htbl'.
  pose proof (identifierShape_bytes _ Hcol) as Hcol'.
  assert (Htne : tbl <> "") by (destruct tbl; [discriminate | congruence]).
  assert (Hcne : col <> "") by (destruct col; [discriminate | congruence]).
  assert (Hfirst : forall rest, startsOutside quoteBytes (tbl ++ rest) = true).
  { intros rest. apply startsOutside_app.
    now apply (startsOutside_bytes isIdentChar); [exact isIdentChar_quote| |]. }
  assert (Hlast : forall rest,
            startsOutside quoteBytes (rev (rest ++ col)) = true).
  { intros rest. rewrite strrev_app. apply startsOutside_app.
    apply (startsOutside_bytes isIdentChar); [exact isIdentChar_quote| |].
    - now rewrite allBytes_rev.
    - now apply strrev_nonempty. }
  repeat split.
  - pose proof (normalize_plain "" col "" eq_refl eq_refl Hcol' Hcne) as Hplain.
    simpl in Hplain. now rewrite append_empty_r in Hplain.
  - replace (tbl ++ "." ++ col) with ("" ++ (tbl ++ "." ++ col) ++ "")
      by (simpl; apply append_empty_r).
    apply (normalize_core "" _ "" tbl col); try reflexivity.
    + apply Hfirst.
    + rewrite <- append_assoc. apply Hlast.
    + now apply identifier_no_dot.
    + now apply allASCII_identifier.
  - now apply (normalize_plain "`" col "`").
  - now apply (normalize_plain dq col dq).
  - replace ("`" ++ tbl ++ "`.`" ++ col ++ "`")
      with ("`" ++ (tbl ++ "`.`" ++ col) ++ "`")
      by now rewrite !append_assoc.
    apply (normalize_core "`" _ "`" (tbl ++ "`") ("`" ++ col)); try reflexivity.
    + apply Hfirst.
    + rewrite <- append_assoc. apply Hlast.
    + now rewrite append_assoc.
    + simpl. now apply identifier_no_dot.
    + simpl. now apply allASCII_identifier.
  - replace (tbl ++ ".`" ++ col ++ "`")
      with ("" ++ (tbl ++ ".`" ++ col) ++ "`")
      by now (simpl; rewrite !append_assoc).
    apply (normalize_core "" _ "`" tbl ("`" ++ col)); try reflexivity.
    + apply Hfirst.
    + rewrite <- append_assoc. apply Hlast.
    + simpl. now apply identifier_no_dot.
    + simpl. now apply allASCII_identifier.
  - replace (dq ++ tbl ++ dq ++ "." ++ dq ++ col ++ dq)
      with (dq ++ (tbl ++ dq ++ "." ++ dq ++ col) ++ dq)
      by now rewrite !append_assoc.
    apply (normalize_core dq _ dq (tbl ++ dq) (dq ++ col)); try reflexivity.
    + apply Hfirst.
    + rewrite <- !append_assoc. apply Hlast.
    + now rewrite append_assoc.
    + simpl. now apply identifier_no_dot.
    + simpl. now apply allASCII_identifier.
Qed.

Lemma normalize_identifier_columns_witness :
  @normalize asciiOnly "users.Name" = "name" /\
  @normalize asciiOnly "`users`.`Name`" = "`name".
Proof.
  destruct (@normalize_identifier_columns asciiOnly "users" "Name" eq_refl eq_refl)
    as (_ & Hqualified & _ & _ & Hquoted & _).
  split; [exact Hqualified | exact Hquoted].
Defined.

(** ** Struct fields and their columns *)

Lemma parseColumnTag_flag f :
  snd (parseColumnTag f) = true ->
  Contains (sqlTag f) columnPrefix = true /\
  Contains (sqlTag f) "primaryKey" = true /\
  fst (parseColumnTag f) <> "".
Proof.
  unfold parseColumnTag, extract.
  destruct (String.eqb (sqlTag f) ""); [discriminate|]. cbn [negb].
  destruct (Contains (sqlTag f) columnPrefix).
  - destruct (List.find _ _) as [p|]; [|discriminate].
    destruct (String.eqb_spec (TrimPrefix p columnPrefix) "") as [|Hne];
      [discriminate|].
    cbn [negb fst snd]. now intros ->.
  - destruct (negb (Contains (sqlTag f) ":")); [|discriminate].
    destruct (String.eqb (sqlTag f) ""); discriminate.
Qed.

Lemma columnOf_flagged `{UnicodeTables} f :
  snd (parseColumnTag f) = true -> String.eqb (columnOf f) "" = false.
Proof.
  intros Hpk. apply parseColumnTag_flag in Hpk as (_ & _ & Hcol).
  unfold columnOf. apply String.eqb_neq in Hcol. rewrite Hcol.
  exact Hcol.
Qed.

(** The values of the fields from index [i] on. *)
Lemma lookup_default_app (done rest : list value) i :
  length done = i ->
  default VNil ((done ++ rest)%list !! i) = default VNil (head rest).
Proof.
  intros <-. rewrite lookup_app_r by lia. rewrite Nat.sub_diag.
  now destruct rest.
Qed.

Lemma createFields_spec `{UnicodeTables} typ : forall i done rest vars,
  length done = i -> length rest = length typ ->
  let ins := List.filter (fun fv => insertable fv.1) (zip typ rest) in
  let out := createFields i typ (done ++ rest)%list vars in
  insCols out = (insCols vars ++ map (fun fv => columnOf fv.1) ins)%list /\
  insPlaceholders out = (insPlaceholders vars ++ repeat "?" (length ins))%list /\
  insArgs out = (insArgs vars ++ map snd ins)%list.
Proof.
  induction typ as [|f typ IH]; intros i done rest vars Hi Hlen; cbv zeta.
  - simpl. now rewrite !app_nil_r.
  - destruct rest as [|v rest]; [discriminate|].
    injection Hlen as Hlen.
    assert (Hdone : length (done ++ [v])%list = S i)
      by (rewrite length_app; simpl; lia).
    simpl createFields.
    replace (done ++ v :: rest)%list with ((done ++ [v]) ++ rest)%list
      by now rewrite <- app_assoc.
    match goal with
    | |- context [createFields (S i) typ _ ?vars'] =>
        specialize (IH (S i) (done ++ [v])%list rest vars' Hdone Hlen)
    end.
    cbv zeta in IH. destruct IH as (Hc & Hp & Ha).
    rewrite Hc, Hp, Ha. clear Hc Hp Ha.
    rewrite <- (app_assoc done [v] rest).
    change (zip (f :: typ) (v :: rest)) with ((f, v) :: zip typ rest).
    cbn [List.filter fst].
    replace (insertable f)
      with (negb (skipped f) && negb (Contains (sqlTag f) "primaryKey"))
      by reflexivity.
    destruct (skipped f); cbn [negb andb]; [auto|].
    destruct (Contains (sqlTag f) "primaryKey"); cbn [negb]; [auto|].
    cbn [insCols insPlaceholders insArgs map length repeat snd fst].
    change ([v] ++ rest)%list with (v :: rest).
    rewrite (lookup_default_app done (v :: rest) i Hi). cbn [head default].
    rewrite <- !app_assoc. auto.
Qed.

Lemma createFields_key `{UnicodeTables} typ : forall i vals vars,
  let out := createFields i typ vals vars in
  match last (List.filter markedKey typ) with
  | Some f => pkFieldIndex out <> None /\ pkColumn out = columnOf f
  | None => pkFieldIndex out = pkFieldIndex vars /\ pkColumn out = pkColumn vars
  end.
Proof.
  induction typ as [|f typ IH]; intros i vals vars; cbv zeta; [now simpl|].
  simpl createFields. cbn [List.filter].
  match goal with
  | |- context [createFields (S i) typ vals ?vars'] =>
      specialize (IH (S i) vals vars')
  end.
  cbv zeta in IH.
  replace (markedKey f)
    with (negb (skipped f) && Contains (sqlTag f) "primaryKey") by reflexivity.
  destruct (skipped f); cbn [negb andb]; [exact IH|].
  destruct (Contains (sqlTag f) "primaryKey"); [|exact IH].
  rewrite last_cons.
  destruct (last (List.filter markedKey typ)) as [g|]; [exact IH|].
  destruct IH as [-> ->]. now split.
Qed.

(** X23: the statement of [Create].  The INSERT lists, in the order of the
    struct, the columns of the fields that are exported, not ignored by
    [sql:"-"] and without [primaryKey] in the tag, with one [?] and one
    argument for each; a field with [primaryKey] in its tag is left out
    even when it holds a value.  Under the numbered dialect the markers are
    numbered and, when a field is marked as key, [RETURNING] names the
    column of the last such field.  Exactly this one statement is handed
    to the transaction; it has as many markers as arguments when no name
    has a [?] in it. *)
Theorem Create_statement `{UnicodeTables} q src typ vals :
  shape src = PtrToStruct typ vals -> length vals = length typ ->
  let ins := List.filter (fun fv => insertable fv.1) (zip typ vals) in
  let insert :=
    "INSERT INTO " ++ TableName (asModel src)
      ++ " (" ++ GoStrings.Join (map (fun fv => columnOf fv.1) ins) ", "
      ++ ") VALUES (" ++ GoStrings.Join (repeat "?" (length ins)) ", " ++ ")" in
  let returning :=
    match last (List.filter markedKey typ) with
    | Some key => " RETURNING " ++ columnOf key
    | None => ""
    end in
  (Create q src).1.2
  = [ (match txFlavor q with
       | FlavorMySQL => insert
       | FlavorPostgres => convertPostgresPlaceholder (insert ++ returning)
       end, map snd ins) ] /\
  (Count (TableName (asModel src)) "?" = 0%nat ->
   markersIn (map (fun fv => columnOf fv.1) ins) = 0%nat ->
   Count insert "?" = length (map snd ins)).
Proof.
  intros Hshape Hlen. cbv zeta. split.
  2:{ intros Htable Hcols.
      rewrite !Count_app, Count_Join, Count_placeholders, Htable, Hcols
        by reflexivity.
      rewrite length_map. simpl. lia. }
  unfold Create. rewrite Hshape.
  match goal with
  | |- context [createFields 0 typ vals ?vars] =>
      pose proof (createFields_spec typ 0 [] vals vars eq_refl Hlen) as Hspec;
      pose proof (createFields_key typ 0 vals vars) as Hkey;
      cbv zeta in Hspec, Hkey; simpl app in Hspec;
      destruct (createFields 0 typ vals vars) as [cols marks args pk pkc]
  end.
  cbn [insCols insPlaceholders insArgs pkFieldIndex pkColumn] in *.
  destruct Hspec as (-> & -> & ->).
  destruct (txFlavor q).
  - (* the generic dialect: no RETURNING *)
    assert (Hsame : forall query : string,
              match pk with Some _ => query | None => query end = query)
      by now destruct pk.
    rewrite Hsame.
    destruct pk as [k|];
      destruct (ExecContext (tx q) _ _) as [err|[err|lastID]]; try reflexivity.
    now destruct (fieldKind <$> typ !! k) as [[]|].
  - destruct (last (List.filter markedKey typ)) as [key|].
    + destruct Hkey as [Hpk ->]. destruct pk as [k|]; [|congruence].
      rewrite !append_assoc.
      now destruct (QueryRowScan (tx q) _ _).
    + destruct Hkey as [-> ->]. rewrite !append_assoc.
      rewrite append_empty_r.
      now destruct (ExecContext (tx q) _ _) as [err|[err|lastID]].
Qed.

Lemma Create_statement_witness :
  let id := {| Name := "ID"; PkgPath := ""; sqlTag := "column:id;primaryKey";
               fieldKind := KInt 64 |} in
  let name := {| Name := "FullName"; PkgPath := ""; sqlTag := "";
                 fieldKind := KOther |} in
  let secret := {| Name := "secret"; PkgPath := "orm"; sqlTag := "";
                   fieldKind := KOther |} in
  let src := {| asModel := users;
                shape := PtrToStruct [id; name; secret]
                           [VInt 0; VStr "Ann"; VStr "x"] |} in
  let q := {| tx := {| ExecContext := fun _ _ => inr (inr 1%Z);
                       QueryRowScan := fun _ _ => inr (VInt 1) |};
              txFlavor := FlavorPostgres |} in
  (@Create asciiOnly q src).1.2
  = [("INSERT INTO users (full_name) VALUES ($1) RETURNING id", [VStr "Ann"])].
Proof.
  intros id name secret src q.
  exact (proj1 (@Create_statement asciiOnly q src [id; name; secret]
                  [VInt 0; VStr "Ann"; VStr "x"] eq_refl eq_refl)).
Defined.

Lemma updateFields_spec `{UnicodeTables} typ : forall i done rest vars,
  length done = i -> length rest = length typ ->
  let sets := List.filter (fun fv => settable fv.1) (zip typ rest) in
  let out := updateFields i typ (done ++ rest)%list vars in
  updCols out
  = (updCols vars ++ map (fun fv => (columnOf fv.1 ++ " = ?")%string) sets)%list /\
  updArgs out = (updArgs vars ++ map snd sets)%list /\
  match last (List.filter (fun fv => flaggedKey fv.1) (zip typ rest)) with
  | Some (key, keyVal) => pkCol out = columnOf key /\ pkVal out = keyVal
  | None => pkCol out = pkCol vars /\ pkVal out = pkVal vars
  end.
Proof.
  induction typ as [|f typ IH]; intros i done rest vars Hi Hlen; cbv zeta.
  - simpl. now rewrite !app_nil_r.
  - destruct rest as [|v rest]; [discriminate|].
    injection Hlen as Hlen.
    assert (Hdone : length (done ++ [v])%list = S i)
      by (rewrite length_app; simpl; lia).
    simpl updateFields.
    replace (done ++ v :: rest)%list with ((done ++ [v]) ++ rest)%list
      by now rewrite <- app_assoc.
    match goal with
    | |- context [updateFields (S i) typ _ ?vars'] =>
        specialize (IH (S i) (done ++ [v])%list rest vars' Hdone Hlen)
    end.
    cbv zeta in IH. destruct IH as (Hc & Ha & Hk).
    rewrite Hc, Ha. clear Hc Ha.
    rewrite <- (app_assoc done [v] rest) in *.
    change ([v] ++ rest)%list with (v :: rest) in *.
    rewrite (lookup_default_app done (v :: rest) i Hi) in *.
    cbn [head default] in *.
    change (zip (f :: typ) (v :: rest)) with ((f, v) :: zip typ rest).
    cbn [List.filter fst].
    replace (settable f) with (negb (skipped f) && negb (snd (parseColumnTag f)))
      by reflexivity.
    replace (flaggedKey f) with (negb (skipped f) && snd (parseColumnTag f))
      by reflexivity.
    destruct (skipped f); cbn [negb andb] in *; [auto|].
    destruct (snd (parseColumnTag f)); cbn [negb] in *.
    + split; [reflexivity|]. split; [reflexivity|].
      rewrite last_cons.
      destruct (last (List.filter _ (zip typ rest))) as [[key keyVal]|];
        [exact Hk | exact Hk].
    + cbn [updCols updArgs pkCol pkVal map snd fst] in *.
      rewrite <- !app_assoc. auto.
Qed.

Lemma flaggedKey_column `{UnicodeTables} (pairs : list (StructField * value))
      key keyVal :
  last (List.filter (fun fv => flaggedKey fv.1) pairs) = Some (key, keyVal) ->
  String.eqb (columnOf key) "" = false.
Proof.
  intros Hlast. apply columnOf_flagged.
  assert (Hin : In (key, keyVal) (List.filter (fun fv => flaggedKey fv.1) pairs)).
  { apply list_elem_of_In. eapply last_Some_elem_of. exact Hlast. }
  apply filter_In in Hin as [_ Hflag]. unfold flaggedKey in Hflag.
  now apply andb_true_iff in Hflag as [_ Hflag].
Qed.

(** X24: the statement of [Update].  The key is the last field that is
    exported, not ignored, and flagged by [parseColumnTag]; without one the
    call returns the primary-key fault and hands nothing to the
    transaction.  Otherwise it hands over one UPDATE that sets, in the
    order of the struct, every other exported field that is not ignored,
    with the value of the key as last argument, and returns what the
    driver answers; markers and arguments agree in number when no name has
    a [?] in it. *)
Theorem Update_statement `{UnicodeTables} q src typ vals :
  shape src = PtrToStruct typ vals -> length vals = length typ ->
  let sets := List.filter (fun fv => settable fv.1) (zip typ vals) in
  match last (List.filter (fun fv => flaggedKey fv.1) (zip typ vals)) with
  | None => Update q src = ([], Some PrimaryKeyNotFound)
  | Some (key, keyVal) =>
      let update :=
        "UPDATE " ++ TableName (asModel src)
          ++ " SET "
          ++ GoStrings.Join (map (fun fv => (columnOf fv.1 ++ " = ?")%string) sets) ", "
          ++ " WHERE " ++ columnOf key ++ " = ?" in
      let query :=
        match txFlavor q with
        | FlavorMySQL => update
        | FlavorPostgres => convertPostgresPlaceholder update
        end in
      let args := (map snd sets ++ [keyVal])%list in
      Update q src
      = ([(query, args)],
         match ExecContext (tx q) query args with
         | inl err => Some (Fault err)
         | inr _ => None
         end) /\
      (Count (TableName (asModel src)) "?" = 0%nat ->
       markersIn (map (fun fv => columnOf fv.1) sets) = 0%nat ->
       Count (columnOf key) "?" = 0%nat ->
       Count update "?" = length args)
  end.
Proof.
  intros Hshape Hlen. cbv zeta. unfold Update. rewrite Hshape.
  match goal with
  | |- context [updateFields 0 typ vals ?vars] =>
      pose proof (updateFields_spec typ 0 [] vals vars eq_refl Hlen) as Hspec;
      cbv zeta in Hspec; simpl app in Hspec;
      destruct (updateFields 0 typ vals vars) as [cols args pkc pkv]
  end.
  cbn [updCols updArgs pkCol pkVal] in *.
  destruct Hspec as (-> & -> & Hkey).
  destruct (last (List.filter _ (zip typ vals))) as [[key keyVal]|] eqn:Hlast.
  - destruct Hkey as [-> ->].
    rewrite (flaggedKey_column _ _ _ Hlast). split.
    + now destruct (txFlavor q).
    + intros Htable Hcols Hkeycol.
      rewrite !Count_app, Count_Join, Htable, Hkeycol by reflexivity.
      rewrite length_app, length_map. simpl.
      assert (Hmarks : forall l : list (StructField * value),
                markersIn (map (fun fv => columnOf fv.1) l) = 0%nat ->
                markersIn (map (fun fv => (columnOf fv.1 ++ " = ?")%string) l) = length l).
      { induction l as [|fv l IHl]; simpl; [reflexivity|].
        intros Hl. rewrite Count_app. simpl.
        assert (Count (columnOf fv.1) "?" = 0%nat) by lia.
        rewrite IHl by lia. lia. }
      rewrite (Hmarks _ Hcols). lia.
  - destruct Hkey as [-> ->]. reflexivity.
Qed.

Lemma Update_statement_witness :
  let id := {| Name := "ID"; PkgPath := ""; sqlTag := "column:id;primaryKey";
               fieldKind := KInt 64 |} in
  let name := {| Name := "FullName"; PkgPath := ""; sqlTag := "";
                 fieldKind := KOther |} in
  let src := {| asModel := users;
                shape := PtrToStruct [id; name] [VInt 7; VStr "Ann"] |} in
  let q := {| tx := {| ExecContext := fun _ _ => inr (inr 0%Z);
                       QueryRowScan := fun _ _ => inr VNil |};
              txFlavor := FlavorMySQL |} in
  @Update asciiOnly q src
  = ([("UPDATE users SET full_name = ? WHERE id = ?", [VStr "Ann"; VInt 7])],
     None).
Proof.
  intros id name src q.
  exact (proj1 (@Update_statement asciiOnly q src [id; name]
                  [VInt 7; VStr "Ann"] eq_refl eq_refl)).
Defined.

Lemma updateFields_no_key `{UnicodeTables} typ : forall i vals vars,
  (forall f, In f typ -> skipped f = false -> snd (parseColumnTag f) = false) ->
  pkCol (updateFields i typ vals vars) = pkCol vars.
Proof.
  induction typ as [|f typ IH]; intros i vals vars Hno; [reflexivity|].
  simpl updateFields. rewrite IH by (intros g Hg; apply Hno; now right).
  destruct (skipped f) eqn:Hskip; [reflexivity|].
  now rewrite (Hno f (or_introl eq_refl) Hskip).
Qed.

(** X25: [Update] knows a primary key only from a tag that has both
    [column:] and [primaryKey].  When no exported, not ignored field has
    such a tag, [Update] returns the primary-key fault and hands nothing to
    the transaction, whatever the fields hold and even when a tag says
    [primaryKey] alone, the mark that is enough for [Create] to take the
    field for the key. *)
Theorem Update_key_needs_column_prefix `{UnicodeTables} q src typ vals :
  shape src = PtrToStruct typ vals ->
  (forall f, In f typ -> skipped f = false ->
     Contains (sqlTag f) columnPrefix && Contains (sqlTag f) "primaryKey" = false) ->
  Update q src = ([], Some PrimaryKeyNotFound).
Proof.
  intros Hshape Hno. unfold Update. rewrite Hshape.
  rewrite updateFields_no_key; [reflexivity|].
  intros f Hf Hskip. specialize (Hno f Hf Hskip).
  destruct (snd (parseColumnTag f)) eqn:Hflag; [|reflexivity].
  apply parseColumnTag_flag in Hflag as (Hc & Hp & _).
  now rewrite Hc, Hp in Hno.
Qed.

Lemma Update_key_needs_column_prefix_witness :
  let id := {| Name := "ID"; PkgPath := ""; sqlTag := "primaryKey";
               fieldKind := KInt 64 |} in
  let name := {| Name := "Name"; PkgPath := ""; sqlTag := "column:name";
                 fieldKind := KOther |} in
  let src := {| asModel := users;
                shape := PtrToStruct [id; name] [VInt 7; VStr "Ann"] |} in
  let q := {| tx := {| ExecContext := fun _ _ => inr (inr 0%Z);
                       QueryRowScan := fun _ _ => inr VNil |};
              txFlavor := FlavorMySQL |} in
  @Update asciiOnly q src = ([], Some PrimaryKeyNotFound) /\
  (@Create asciiOnly q src).1.2
  = [("INSERT INTO users (name) VALUES (?)", [VStr "Ann"])].
Proof.
  intros id name src q. split; [|reflexivity].
  apply (@Update_key_needs_column_prefix asciiOnly q src [id; name]
           [VInt 7; VStr "Ann"] eq_refl).
  intros f [<-|[<-|[]]] _; reflexivity.
Defined.

(** ** The field map *)

Lemma buildFieldMapFrom_app `{UnicodeTables} before : forall i rest m,
  buildFieldMapFrom i (before ++ rest)%list m
  = buildFieldMapFrom (i + length before) rest (buildFieldMapFrom i before m).
Proof.
  induction before as [|f before IH]; intros i rest m; simpl.
  - now rewrite Nat.add_0_r.
  - rewrite IH. now rewrite Nat.add_succ_r.
Qed.

Lemma buildFieldMapFrom_other `{UnicodeTables} key after : forall i m,
  (forall g, In g after -> skipped g = false -> ToLower (columnOf g) <> key) ->
  buildFieldMapFrom i after m !! key = m !! key.
Proof.
  induction after as [|g after IH]; intros i m Hother; [reflexivity|].
  simpl. rewrite IH by (intros g' Hg'; apply Hother; now right).
  destruct (skipped g) eqn:Hskip; [reflexivity|].
  apply lookup_insert_ne. now apply Hother; [left|].
Qed.

Lemma buildFieldMap_lookup `{UnicodeTables} before f after :
  skipped f = false ->
  (forall g, In g after -> skipped g = false ->
     ToLower (columnOf g) <> ToLower (columnOf f)) ->
  buildFieldMap (before ++ f :: after)%list !! ToLower (columnOf f)
  = Some (length before).
Proof.
  intros Hskip Hother. unfold buildFieldMap.
  rewrite buildFieldMapFrom_app. simpl buildFieldMapFrom. rewrite Hskip.
  rewrite buildFieldMapFrom_other by exact Hother.
  apply lookup_insert_eq.
Qed.

Lemma lowerByte_upperByte c : lowerByte (upperByte c) = lowerByte c.
Proof. destruct c as [[|] [|] [|] [|] [|] [|] [|] [|]]; reflexivity. Qed.

Lemma isIdentChar_upperByte c : isIdentChar (upperByte c) = isIdentChar c.
Proof. destruct c as [[|] [|] [|] [|] [|] [|] [|] [|]]; reflexivity. Qed.

Lemma mapBytes_lower_upper s :
  mapBytes lowerByte (mapBytes upperByte s) = mapBytes lowerByte s.
Proof.
  induction s as [|c s IH]; simpl; [reflexivity|].
  now rewrite lowerByte_upperByte, IH.
Qed.

Lemma allBytes_mapBytes_upper s :
  allBytes isIdentChar (mapBytes upperByte s) = allBytes isIdentChar s.
Proof.
  induction s as [|c s IH]; simpl; [reflexivity|].
  now rewrite isIdentChar_upperByte, IH.
Qed.

(** X26: a column written by [Create] or [Update] is read back into the
    field it came from.  For a field that is exported and not ignored,
    whose column (the name in the tag, or [toSnake] of the field name) is
    made of letters, digits and underscores, [buildFieldMap] and
    [normalize] lead [Scan] from that column name to the index of the
    field, also when the driver reports the name in capitals or
    qualified by a table, provided no later field of the struct has the
    same column up to case; a later one would take the entry. *)
Theorem written_column_is_read_back `{UnicodeTables} before f after tbl :
  skipped f = false ->
  allBytes isIdentChar (columnOf f) = true -> columnOf f <> "" ->
  identifierShape tbl = true ->
  (forall g, In g after -> skipped g = false ->
     ToLower (columnOf g) <> ToLower (columnOf f)) ->
  let m := buildFieldMap (before ++ f :: after)%list in
  m !! normalize (columnOf f) = Some (length before) /\
  m !! normalize (mapBytes upperByte (columnOf f)) = Some (length before) /\
  m !! normalize (tbl ++ "." ++ columnOf f) = Some (length before).
Proof.
  intros Hskip Hcol Hne Htbl Hother m.
  pose proof (buildFieldMap_lookup before f after Hskip Hother) as Hm.
  fold m in Hm.
  rewrite (ToLower_ascii (columnOf f)) in Hm by now apply allASCII_identifier.
  pose proof (normalize_plain "" (columnOf f) "" eq_refl eq_refl Hcol Hne)
    as Hplain.
  simpl in Hplain. rewrite append_empty_r in Hplain.
  assert (Hupper : normalize (mapBytes upperByte (columnOf f))
                   = mapBytes lowerByte (columnOf f)).
  { pose proof (normalize_plain "" (mapBytes upperByte (columnOf f)) ""
                  eq_refl eq_refl) as Hup.
    simpl in Hup. rewrite append_empty_r, mapBytes_lower_upper in Hup.
    apply Hup.
    - now rewrite allBytes_mapBytes_upper.
    - destruct (columnOf f); [congruence | discriminate]. }
  assert (Hqual : normalize (tbl ++ "." ++ columnOf f)
                  = mapBytes lowerByte (columnOf f)).
  { pose proof (normalize_core "" (tbl ++ "." ++ columnOf f) "" tbl (columnOf f)
                  eq_refl eq_refl) as Hq.
    simpl in Hq. rewrite append_empty_r in Hq. apply Hq.
    - apply startsOutside_app.
      apply (startsOutside_bytes isIdentChar); [exact isIdentChar_quote| |].
      + now apply identifierShape_bytes.
      + destruct tbl; [discriminate | congruence].
    - rewrite strrev_app. simpl rev. rewrite append_assoc.
      apply startsOutside_app.
      apply (startsOutside_bytes isIdentChar); [exact isIdentChar_quote| |].
      + now rewrite allBytes_rev.
      + now apply strrev_nonempty.
    - reflexivity.
    - now apply identifier_no_dot.
    - now apply allASCII_identifier. }
  now rewrite Hplain, Hupper, Hqual.
Qed.

Lemma written_column_is_read_back_witness :
  let id := {| Name := "ID"; PkgPath := ""; sqlTag := "column:id;primaryKey";
               fieldKind := KInt 64 |} in
  let name := {| Name := "FullName"; PkgPath := ""; sqlTag := "";
                 fieldKind := KOther |} in
  @buildFieldMap asciiOnly [id; name] !! @normalize asciiOnly "users.full_name"
  = Some 1%nat.
Proof.
  intros id name.
  refine (proj2 (proj2 (@written_column_is_read_back asciiOnly [id] name []
                          "users" eq_refl eq_refl _ eq_refl _))).
  - discriminate.
  - intros g [].
Defined.

(** ** [toSnake] *)

Lemma underscoredTail_bytes s :
  allBytes isIdentChar s = true -> allBytes isIdentChar (underscoredTail s) = true.
Proof.
  induction s as [|c s IH]; simpl; [reflexivity|].
  intros [Hc Hs]%andb_true_iff. rewrite allBytes_app. simpl.
  rewrite Hc, (IH Hs). now destruct (isUpper c).
Qed.

Lemma underscored_bytes s :
  allBytes isIdentChar s = true -> allBytes isIdentChar (underscored s) = true.
Proof.
  destruct s as [|c s]; simpl; [reflexivity|].
  intros [Hc Hs]%andb_true_iff. now rewrite Hc, underscoredTail_bytes.
Qed.

Lemma underscoredTail_small s :
  allBytes (fun c => negb (isUpper c)) s = true -> underscoredTail s = s.
Proof.
  induction s as [|c s IH]; simpl; [reflexivity|].
  intros [Hc Hs]%andb_true_iff. apply negb_true_iff in Hc.
  now rewrite Hc, (IH Hs).
Qed.

Lemma underscored_small s :
  allBytes (fun c => negb (isUpper c)) s = true -> underscored s = s.
Proof.
  destruct s as [|c s]; simpl; [reflexivity|].
  intros [_ Hs]%andb_true_iff. now rewrite underscoredTail_small.
Qed.

Lemma isIdentChar_lowerByte c : isIdentChar (lowerByte c) = isIdentChar c.
Proof. destruct c as [[|] [|] [|] [|] [|] [|] [|] [|]]; reflexivity. Qed.

Lemma isUpper_lowerByte c : isUpper (lowerByte c) = false.
Proof. destruct c as [[|] [|] [|] [|] [|] [|] [|] [|]]; reflexivity. Qed.

Lemma mapBytes_lower_bytes s :
  allBytes isIdentChar (mapBytes lowerByte s) = allBytes isIdentChar s /\
  allBytes (fun c => negb (isUpper c)) (mapBytes lowerByte s) = true.
Proof.
  induction s as [|c s [IHi IHu]]; simpl; [now split|].
  now rewrite isIdentChar_lowerByte, isUpper_lowerByte, IHi, IHu.
Qed.

Lemma mapBytes_lower_small s :
  allBytes (fun c => negb (isUpper c)) s = true -> mapBytes lowerByte s = s.
Proof.
  induction s as [|c s IH]; simpl; [reflexivity|].
  intros [Hc Hs]%andb_true_iff. apply negb_true_iff in Hc.
  unfold lowerByte at 1. now rewrite Hc, (IH Hs).
Qed.

Lemma toSnake_ascii `{UnicodeTables} s :
  allBytes isIdentChar s = true ->
  toSnake s = mapBytes lowerByte (underscored s).
Proof.
  intros Hs. unfold toSnake. apply ToLower_ascii, allASCII_identifier.
  now apply underscored_bytes.
Qed.

(** X27: [toSnake] on a name of letters, digits and underscores.  The
    result is again made of such bytes and has no capital letter; a name
    without capitals is returned as it is, so [toSnake] applied twice is
    [toSnake].  Every capital but a leading one gets an underscore of its
    own: the length grows by the number of capitals after the first
    byte.  A field without tag has this column. *)
Theorem toSnake_identifier `{UnicodeTables} s :
  allBytes isIdentChar s = true ->
  allBytes isIdentChar (toSnake s) = true /\
  allBytes (fun c => negb (isUpper c)) (toSnake s) = true /\
  (allBytes (fun c => negb (isUpper c)) s = true -> toSnake s = s) /\
  toSnake (toSnake s) = toSnake s /\
  String.length (toSnake s)
  = (String.length s + capitals (dropBytes 1 s))%nat /\
  (forall f, sqlTag f = "" -> Name f = s -> columnOf f = toSnake s).
Proof.
  intros Hs.
  pose proof (toSnake_ascii s Hs) as Hsnake.
  pose proof (underscored_bytes s Hs) as Hunder.
  destruct (mapBytes_lower_bytes (underscored s)) as [Hident Hsmall].
  rewrite <- Hsnake in Hident, Hsmall. rewrite Hunder in Hident.
  assert (Hkeep : forall t, allBytes isIdentChar t = true ->
                    allBytes (fun c => negb (isUpper c)) t = true ->
                    toSnake t = t).
  { intros t Ht Hsm. rewrite (toSnake_ascii t Ht), underscored_small by exact Hsm.
    now apply mapBytes_lower_small. }
  split; [exact Hident|]. split; [exact Hsmall|].
  split; [now apply Hkeep|]. split; [now apply Hkeep|].
  split.
  - rewrite Hsnake.
    assert (Hlen : forall t, String.length (mapBytes lowerByte t) = String.length t)
      by (induction t as [|c t IH]; simpl; congruence).
    rewrite Hlen. destruct s as [|c s]; [reflexivity|].
    simpl. f_equal. clear.
    induction s as [|c s IH]; simpl; [reflexivity|].
    destruct (isUpper c); simpl; rewrite IH; lia.
  - intros f Htag <-. unfold columnOf, parseColumnTag. now rewrite Htag.
Qed.

Lemma toSnake_identifier_witness :
  @toSnake asciiOnly "UserID" = "user_i_d" /\
  @toSnake asciiOnly (@toSnake asciiOnly "UserID") = @toSnake asciiOnly "UserID".
Proof.
  split; [reflexivity|].
  exact (proj1 (proj2 (proj2 (proj2
           (@toSnake_identifier asciiOnly "UserID" eq_refl))))).
Defined.

(** ** Cells into integer fields *)

Lemma isDigit_value c :
  isDigit c = true -> (0 <= Z.of_N (code c) - 48 <= 9)%Z.
Proof.
  unfold isDigit, between. intros [Hlo Hhi]%andb_true_iff.
  apply N.leb_le in Hlo, Hhi. lia.
Qed.

Lemma decimalValue_ge s : forall n,
  allBytes isDigit s = true -> (0 <= n)%Z -> (n <= decimalValue n s)%Z.
Proof.
  induction s as [|c s IH]; intros n Hs Hn; simpl; [lia|].
  simpl in Hs. apply andb_true_iff in Hs as [Hc Hs].
  pose proof (isDigit_value c Hc).
  specialize (IH (n * 10 + (Z.of_N (code c) - 48))%Z Hs). lia.
Qed.

(** [parseDigits] on digits: the number they stand for, or a range error
    when it does not fit 64 bits. *)
Lemma parseDigits_spec s : forall n,
  allBytes isDigit s = true -> (0 <= n <= maxUint64)%Z ->
  parseDigits n s
  = if (decimalValue n s <=? maxUint64)%Z then inr (decimalValue n s)
    else inl ErrRange.
Proof.
  induction s as [|c s IH]; intros n Hs Hn; simpl.
  - destruct (Z.leb_spec n maxUint64); [reflexivity | lia].
  - simpl in Hs. apply andb_true_iff in Hs as [Hc Hs]. rewrite Hc.
    pose proof (isDigit_value c Hc) as Hd.
    pose proof (decimalValue_ge s (n * 10 + (Z.of_N (code c) - 48))%Z Hs) as Hge.
    unfold maxUint64 in *.
    change (18446744073709551615 / 10 + 1)%Z with 1844674407370955162%Z.
    destruct (Z.leb_spec 1844674407370955162 n).
    + destruct (Z.leb_spec (decimalValue (n * 10 + (Z.of_N (code c) - 48)) s)
                  18446744073709551615); [lia | reflexivity].
    + destruct (Z.ltb_spec 18446744073709551615
                  (n * 10 + (Z.of_N (code c) - 48))).
      * destruct (Z.leb_spec (decimalValue (n * 10 + (Z.of_N (code c) - 48)) s)
                    18446744073709551615); [lia | reflexivity].
      * apply IH; [exact Hs | lia].
Qed.

Lemma pretty_N_char_digit d :
  (d < 10)%N ->
  isDigit (pretty_N_char d) = true /\
  (Z.of_N (code (pretty_N_char d)) - 48 = Z.of_N d)%Z.
Proof.
  intros Hd.
  assert (d = 0 \/ d = 1 \/ d = 2 \/ d = 3 \/ d = 4 \/ d = 5 \/ d = 6 \/ d = 7
          \/ d = 8 \/ d = 9)%N as Hcases by lia.
  repeat (destruct Hcases as [->|Hcases]; [now vm_compute|]).
  subst d. now vm_compute.
Qed.

Lemma pretty_N_go_digits x : forall s,
  (0 < x)%N ->
  allBytes isDigit (pretty_N_go x s) = allBytes isDigit s /\
  decimalValue 0 (pretty_N_go x s) = decimalValue (Z.of_N x) s /\
  exists c rest, pretty_N_go x s = String c rest /\ isDigit c = true.
Proof.
  induction (N.lt_wf_0 x) as [x _ IH]; intros s Hx.
  rewrite pretty_N_go_step by exact Hx.
  assert (Hmod : (x `mod` 10 < 10)%N) by (apply N.mod_lt; lia).
  destruct (pretty_N_char_digit _ Hmod) as [Hdigit Hval].
  assert (Hdiv : (Z.of_N (x `div` 10) * 10 + Z.of_N (x `mod` 10) = Z.of_N x)%Z).
  { pose proof (N.div_mod x 10 ltac:(lia)). lia. }
  destruct (N.eq_dec (x `div` 10)%N 0%N) as [Hzero|Hpos].
  - rewrite Hzero, pretty_N_go_0. simpl. rewrite Hdigit, Hval.
    rewrite Hzero in Hdiv. simpl in Hdiv. rewrite <- Hdiv.
    split; [reflexivity|]. split; [reflexivity|]. eauto.
  - destruct (IH (x `div` 10)%N ltac:(apply N.div_lt; lia)
                (String (pretty_N_char (x `mod` 10)) s) ltac:(lia))
      as (Hall & Hdec & Hshape).
    rewrite Hall, Hdec. simpl. rewrite Hdigit, Hval, Hdiv.
    split; [reflexivity|]. split; [reflexivity|]. exact Hshape.
Qed.

(** [ParseUint] reads the decimal text of a positive number. *)
Lemma ParseUint_pretty p :
  ParseUint (pretty_N_go (N.pos p) "")
  = if (Z.pos p <=? maxUint64)%Z then inr (Z.pos p) else inl ErrRange.
Proof.
  destruct (pretty_N_go_digits (N.pos p) "" ltac:(lia))
    as (Hall & Hdec & c & rest & Hshape & Hc).
  unfold ParseUint. rewrite Hshape. rewrite <- Hshape.
  rewrite parseDigits_spec by (rewrite ?Hall; unfold maxUint64; simpl; lia || reflexivity).
  now rewrite Hdec.
Qed.

Lemma isDigit_no_sign c :
  isDigit c = true -> Ascii.eqb c "+" = false /\ Ascii.eqb c "-" = false.
Proof. destruct c as [[|] [|] [|] [|] [|] [|] [|] [|]]; vm_compute; auto; discriminate. Qed.

Lemma SprintInt_shape n :
  match n with
  | Z0 => SprintInt n = "0"
  | Zpos p => SprintInt n = pretty_N_go (N.pos p) ""
  | Zneg p => SprintInt n = String "-" (pretty_N_go (N.pos p) "")
  end.
Proof. now destruct n. Qed.

(** [ParseInt] reads back what [fmt.Sprint] prints for a number that fits
    64 bits, and reports a range error for any other. *)
Lemma ParseInt_SprintInt n :
  ParseInt (SprintInt n)
  = if (-9223372036854775808 <=? n)%Z && (n <=? 9223372036854775807)%Z
    then inr n else inl ErrRange.
Proof.
  pose proof (SprintInt_shape n) as Hshape.
  destruct n as [|p|p]; rewrite Hshape; [reflexivity| |].
  - destruct (pretty_N_go_digits (N.pos p) "" ltac:(lia))
      as (_ & _ & c & rest & Hdigits & Hc).
    destruct (isDigit_no_sign c Hc) as [Hplus Hminus].
    unfold ParseInt. rewrite Hdigits, Hplus, Hminus. cbn [orb negb andb].
    rewrite <- Hdigits, ParseUint_pretty. unfold maxUint64.
    destruct (Z.leb_spec (Z.pos p) 18446744073709551615);
      destruct (Z.leb_spec (-9223372036854775808) (Z.pos p));
      destruct (Z.leb_spec (Z.pos p) 9223372036854775807);
      destruct (Z.leb_spec 9223372036854775808 (Z.pos p));
      cbn [andb]; try reflexivity; lia.
  - unfold ParseInt.
    change (Ascii.eqb "-" "+") with false. change (Ascii.eqb "-" "-") with true.
    cbn [orb negb andb]. rewrite ParseUint_pretty. unfold maxUint64.
    destruct (Z.leb_spec (Z.pos p) 18446744073709551615);
      destruct (Z.leb_spec (-9223372036854775808) (Z.neg p));
      destruct (Z.leb_spec (Z.neg p) 9223372036854775807);
      destruct (Z.ltb_spec 9223372036854775808 (Z.pos p));
      cbn [andb]; try reflexivity; lia.
Qed.

Lemma ParseUint_SprintInt n :
  ParseUint (SprintInt n)
  = if (n <? 0)%Z then inl ErrSyntax
    else if (n <=? maxUint64)%Z then inr n else inl ErrRange.
Proof.
  pose proof (SprintInt_shape n) as Hshape.
  destruct n as [|p|p]; rewrite Hshape; [reflexivity | | reflexivity].
  apply ParseUint_pretty.
Qed.

Lemma SprintInt_not_empty n : isEmptyRaw (Some (SprintInt n)) = false.
Proof.
  pose proof (SprintInt_shape n) as Hshape.
  destruct n as [|p|p]; rewrite Hshape; [reflexivity | | reflexivity].
  destruct (pretty_N_go_digits (N.pos p) "" ltac:(lia))
    as (_ & _ & c & rest & -> & _).
  reflexivity.
Qed.

(** X28: an integer cell and the width of the field.  The decimal text of
    a number, as [fmt.Sprint] prints it, is checked against 64 bits only:
    for a signed field of any width it is stored when the number fits
    [int64] and is a range error otherwise; an unsigned field takes what
    fits [uint64] and has a syntax error for a negative number.  What is
    stored are the low bits of the number: the number itself when it fits
    the field, and a wrapped value, without any error, when it does not. *)
Theorem integer_cell_wraps_to_field zeroOther assignOther bits n :
  convertAssignField zeroOther assignOther (KInt bits) (Some (SprintInt n))
  = (if (-9223372036854775808 <=? n)%Z && (n <=? 9223372036854775807)%Z
     then inr (VInt (wrap bits n)) else inl ErrRange) /\
  convertAssignField zeroOther assignOther (KUint bits) (Some (SprintInt n))
  = (if (n <? 0)%Z then inl ErrSyntax
     else if (n <=? maxUint64)%Z then inr (VInt (wrapUnsigned bits n))
     else inl ErrRange) /\
  ((0 < bits)%N ->
   (- 2 ^ (Z.of_N bits - 1) <= n < 2 ^ (Z.of_N bits - 1))%Z -> wrap bits n = n) /\
  ((0 <= n < 2 ^ Z.of_N bits)%Z -> wrapUnsigned bits n = n).
Proof.
  unfold convertAssignField. rewrite SprintInt_not_empty.
  change (default "" (Some (SprintInt n))) with (SprintInt n).
  unfold assignInt, assignUint. rewrite ParseInt_SprintInt, ParseUint_SprintInt.
  split; [|split; [|split]].
  - now destruct (_ && _).
  - destruct (n <? 0)%Z; [reflexivity|]. now destruct (n <=? maxUint64)%Z.
  - intros Hbits Hn. unfold wrap.
    assert (Hhalf : (0 < 2 ^ (Z.of_N bits - 1))%Z)
      by (apply Z.pow_pos_nonneg; lia).
    rewrite Z.mod_small by lia. lia.
  - intros Hn. unfold wrapUnsigned. now apply Z.mod_small.
Qed.

Lemma integer_cell_wraps_to_field_witness :
  convertAssignField VNil (fun _ => inl ErrUnsupported) (KInt 8) (Some "300")
  = inr (VInt 44) /\
  convertAssignField VNil (fun _ => inl ErrUnsupported) (KInt 8) (Some "100")
  = inr (VInt 100).
Proof.
  split.
  - exact (proj1 (integer_cell_wraps_to_field VNil (fun _ => inl ErrUnsupported)
                    8 300)).
  - pose proof (integer_cell_wraps_to_field VNil (fun _ => inl ErrUnsupported)
                  8 100) as (Hstored & _ & Hfits & _).
    etransitivity; [exact Hstored|].
    change (inr (VInt (wrap 8 100)) = inr (VInt 100) :> error + value).
    rewrite Hfits; [reflexivity | reflexivity | simpl; lia].
Defined.

(** ** [Patch] *)

Lemma patchFields_spec `{UnicodeTables} typ : forall i done rest vars,
  length done = i -> length rest = length typ ->
  let out := patchFields i typ (done ++ rest)%list vars in
  (forall col, col ∈ validCols out <->
               In col (columnsOf typ) \/ col ∈ validCols vars) /\
  match last (List.filter (fun fv => flaggedKey fv.1) (zip typ rest)) with
  | Some (key, keyVal) =>
      patchPkCol out = columnOf key /\ patchPkVal out = keyVal
  | None => patchPkCol out = patchPkCol vars /\ patchPkVal out = patchPkVal vars
  end.
Proof.
  induction typ as [|f typ IH]; intros i done rest vars Hi Hlen; cbv zeta.
  - simpl. split; [|now split]. intros col. unfold columnsOf. simpl. tauto.
  - destruct rest as [|v rest]; [discriminate|].
    injection Hlen as Hlen.
    assert (Hdone : length (done ++ [v])%list = S i)
      by (rewrite length_app; simpl; lia).
    simpl patchFields.
    replace (done ++ v :: rest)%list with ((done ++ [v]) ++ rest)%list
      by now rewrite <- app_assoc.
    match goal with
    | |- context [patchFields (S i) typ _ ?vars'] =>
        specialize (IH (S i) (done ++ [v])%list rest vars' Hdone Hlen)
    end.
    cbv zeta in IH. destruct IH as (Hvalid & Hkey).
    rewrite <- (app_assoc done [v] rest) in *.
    change ([v] ++ rest)%list with (v :: rest) in *.
    rewrite (lookup_default_app done (v :: rest) i Hi) in *.
    cbn [head default] in *.
    change (zip (f :: typ) (v :: rest)) with ((f, v) :: zip typ rest).
    unfold columnsOf in *. cbn [List.filter fst].
    replace (flaggedKey f) with (negb (skipped f) && snd (parseColumnTag f))
      by reflexivity.
    destruct (skipped f); cbn [negb andb] in *; [now split|].
    split.
    + intros col. rewrite Hvalid. cbn [validCols map In].
      rewrite elem_of_union, elem_of_singleton. intuition congruence.
    + destruct (snd (parseColumnTag f)); cbn [patchPkCol patchPkVal] in *.
      * rewrite last_cons.
        now destruct (last (List.filter _ (zip typ rest))) as [[key keyVal]|].
      * exact Hkey.
Qed.

Lemma patchEntries_valid (valid : gset string) fields : forall cols args,
  Forall (fun e => e.1 ∈ valid) fields ->
  patchEntries valid fields cols args
  = inr ((cols ++ map (fun e => (e.1 ++ " = ?")%string) fields)%list,
         (args ++ map snd fields)%list).
Proof.
  induction fields as [|[col v] fields IH]; intros cols args Hall; simpl.
  - now rewrite !app_nil_r.
  - inversion Hall as [|e l Hcol Hrest]; subst. simpl in Hcol.
    rewrite bool_decide_eq_true_2 by exact Hcol.
    rewrite IH by exact Hrest. now rewrite <- !app_assoc.
Qed.

Lemma patchEntries_invalid (valid : gset string) before col v after :
  forall cols args,
  Forall (fun e => e.1 ∈ valid) before -> col ∉ valid ->
  patchEntries valid (before ++ (col, v) :: after)%list cols args = inl col.
Proof.
  induction before as [|[c w] before IH]; intros cols args Hall Hcol; simpl.
  - now rewrite bool_decide_eq_false_2.
  - inversion Hall as [|e l Hc Hrest]; subst. simpl in Hc.
    rewrite bool_decide_eq_true_2 by exact Hc. now apply IH.
Qed.

(** X29: the statement of [Patch].  The key is found as in [Update].  A
    key of the map that is not exactly the column of an exported, not
    ignored field is refused: the call returns the invalid-column fault for
    the first such key it meets and hands nothing to the transaction, so no
    text of the caller reaches the statement but column names of the
    struct.  When all keys are columns, one UPDATE sets them in the order
    the map delivers them, with the value of the key field as last
    argument. *)
Theorem Patch_statement `{UnicodeTables} q src typ vals fields :
  shape src = PtrToStruct typ vals -> length vals = length typ ->
  match last (List.filter (fun fv => flaggedKey fv.1) (zip typ vals)) with
  | None => Patch q src fields = ([], Some PrimaryKeyNotFound)
  | Some (key, keyVal) =>
      (Forall (fun e => In e.1 (columnsOf typ)) fields ->
       let update :=
         "UPDATE " ++ TableName (asModel src)
           ++ " SET "
           ++ GoStrings.Join (map (fun e => (e.1 ++ " = ?")%string) fields) ", "
           ++ " WHERE " ++ columnOf key ++ " = ?" in
       let query :=
         match txFlavor q with
         | FlavorMySQL => update
         | FlavorPostgres => convertPostgresPlaceholder update
         end in
       let args := (map snd fields ++ [keyVal])%list in
       Patch q src fields
       = ([(query, args)],
          match ExecContext (tx q) query args with
          | inl err => Some (Fault err)
          | inr _ => None
          end)) /\
      (forall before col v after,
         fields = (before ++ (col, v) :: after)%list ->
         Forall (fun e => In e.1 (columnsOf typ)) before ->
         ~ In col (columnsOf typ) ->
         Patch q src fields = ([], Some (InvalidColumn col)))
  end.
Proof.
  intros Hshape Hlen. unfold Patch. rewrite Hshape.
  match goal with
  | |- context [patchFields 0 typ vals ?vars] =>
      pose proof (patchFields_spec typ 0 [] vals vars eq_refl Hlen) as Hspec;
      cbv zeta in Hspec; simpl app in Hspec;
      destruct (patchFields 0 typ vals vars) as [pkc pkv valid]
  end.
  cbn [patchPkCol patchPkVal validCols] in *.
  destruct Hspec as (Hvalid & Hkey).
  assert (Hcols : forall col, col ∈ valid <-> In col (columnsOf typ)).
  { intros col. rewrite Hvalid. rewrite elem_of_empty. tauto. }
  destruct (last (List.filter _ (zip typ vals))) as [[key keyVal]|] eqn:Hlast.
  - destruct Hkey as [-> ->].
    rewrite (flaggedKey_column _ _ _ Hlast). split.
    + intros Hall. cbv zeta.
      rewrite patchEntries_valid
        by (eapply Forall_impl; [exact Hall | intros e He; now apply Hcols]).
      simpl app. now destruct (txFlavor q).
    + intros before col v after -> Hall Hcol.
      rewrite patchEntries_invalid; [reflexivity | | now rewrite Hcols].
      eapply Forall_impl; [exact Hall | intros e He; now apply Hcols].
  - destruct Hkey as [-> ->]. reflexivity.
Qed.

Lemma Patch_statement_witness :
  let id := {| Name := "ID"; PkgPath := ""; sqlTag := "column:id;primaryKey";
               fieldKind := KInt 64 |} in
  let name := {| Name := "FullName"; PkgPath := ""; sqlTag := "";
                 fieldKind := KString |} in
  let src := {| asModel := users;
                shape := PtrToStruct [id; name] [VInt 7; VStr "Ann"] |} in
  let q := {| tx := {| ExecContext := fun _ _ => inr (inr 0%Z);
                       QueryRowScan := fun _ _ => inr VNil |};
              txFlavor := FlavorMySQL |} in
  @Patch asciiOnly q src [("full_name", VStr "Bea"); ("x = 1 --", VInt 0)]
  = ([], Some (InvalidColumn "x = 1 --")).
Proof.
  intros id name src q.
  refine (proj2 (@Patch_statement asciiOnly q src [id; name]
                   [VInt 7; VStr "Ann"]
                   [("full_name", VStr "Bea"); ("x = 1 --", VInt 0)]
                   eq_refl eq_refl)
            [("full_name", VStr "Bea")] "x = 1 --" (VInt 0) [] eq_refl _ _).
  - constructor; [|constructor]. vm_compute. auto.
  - vm_compute. intros [H|[H|[]]]; discriminate.
Defined.

(** ** [BulkInsert] *)

Lemma bulkFields_spec `{UnicodeTables} typ : forall i cols fieldIndexes,
  bulkFields i typ cols fieldIndexes
  = ((cols ++ map columnOf (List.filter insertable typ))%list,
     (fieldIndexes ++ insertableFrom i typ)%list).
Proof.
  induction typ as [|f typ IH]; intros i cols idxs; simpl.
  - now rewrite !app_nil_r.
  - replace (insertable f)
      with (negb (skipped f) && negb (Contains (sqlTag f) "primaryKey"))
      by reflexivity.
    destruct (skipped f); cbn [negb andb]; [apply IH|].
    destruct (Contains (sqlTag f) "primaryKey"); cbn [negb]; [apply IH|].
    rewrite IH. simpl. now rewrite <- !app_assoc.
Qed.

Lemma bulkRow_spec typ : forall i done rest ph args numField,
  length done = i -> length rest = length typ ->
  numField = (i + length typ)%nat ->
  bulkRow numField (done ++ rest)%list (insertableFrom i typ) ph args
  = Some ((ph ++ repeat "?" (length (List.filter insertable typ)))%list,
          (args ++ insertedValues typ rest)%list).
Proof.
  unfold insertedValues.
  induction typ as [|f typ IH]; intros i done rest ph args n Hi Hlen Hn.
  - simpl. now rewrite !app_nil_r.
  - destruct rest as [|v rest]; [discriminate|].
    injection Hlen as Hlen.
    assert (Hdone : length (done ++ [v])%list = S i)
      by (rewrite length_app; simpl; lia).
    assert (Hn' : n = (S i + length typ)%nat) by (simpl in Hn; lia).
    change (zip (f :: typ) (v :: rest)) with ((f, v) :: zip typ rest).
    cbn [insertableFrom List.filter fst].
    replace (done ++ v :: rest)%list with ((done ++ [v]) ++ rest)%list
      by now rewrite <- app_assoc.
    destruct (insertable f).
    + cbn [bulkRow]. destruct (Nat.ltb_spec i n) as [_|Hge]; [|lia].
      rewrite (IH (S i) (done ++ [v])%list rest _ _ n Hdone Hlen Hn').
      rewrite <- (app_assoc done [v] rest).
      change ([v] ++ rest)%list with (v :: rest).
      rewrite (lookup_default_app done (v :: rest) i Hi). cbn [head default].
      simpl. now rewrite <- !app_assoc.
    + apply (IH (S i) (done ++ [v])%list rest _ _ n Hdone Hlen Hn').
Qed.

Lemma bulkModels_spec typ models : forall placeholderRows args,
  Forall (pointsTo typ) models ->
  let group :=
    "(" ++ GoStrings.Join (repeat "?" (length (List.filter insertable typ))) ", "
      ++ ")" in
  bulkModels models (insertableFrom 0 typ) placeholderRows args
  = inr ((placeholderRows ++ repeat group (length models))%list,
         (args ++ concat (map (fun m => insertedValues typ (valsOf m)) models))%list).
Proof.
  induction models as [|m models IH]; intros rows args Hall; cbv zeta.
  - simpl. now rewrite !app_nil_r.
  - inversion Hall as [|m' l (vals & Hshape & Hlen) Hrest]; subst.
    simpl bulkModels. rewrite Hshape.
    pose proof (bulkRow_spec typ 0 [] vals [] args (length typ) eq_refl Hlen
                  eq_refl) as Hrow.
    change ([] ++ vals)%list with vals in Hrow. rewrite Hrow. clear Hrow.
    assert (Hvals : valsOf m = vals) by (unfold valsOf; now rewrite Hshape).
    rewrite (IH _ _ Hrest). cbn [map concat length repeat]. rewrite Hvals.
    now rewrite <- !app_assoc.
Qed.

Lemma bulkModels_refuses models idxs : forall placeholderRows args m,
  In m models -> (forall typ vals, shape m <> PtrToStruct typ vals) ->
  exists e, bulkModels models idxs placeholderRows args = inl e.
Proof.
  induction models as [|m' models IH]; intros rows args m Hin Hbad; [easy|].
  simpl. destruct Hin as [->|Hin].
  - destruct (shape m) as [| |typ vals|]; eauto. now destruct (Hbad typ vals).
  - destruct (shape m') as [| |typ vals|]; eauto.
    destruct (bulkRow _ _ _ _ _) as [[ph args']|]; eauto.
Qed.

Lemma Count_groups group n :
  Count (GoStrings.Join (repeat group n) ", ") "?" = (n * Count group "?")%nat.
Proof.
  rewrite Count_Join by reflexivity.
  induction n as [|n IH]; simpl; [reflexivity | now rewrite IH].
Qed.

Lemma length_concat_rows {A B} (f : A -> list B) k l :
  Forall (fun x => length (f x) = k) l ->
  length (concat (map f l)) = (length l * k)%nat.
Proof.
  induction 1 as [|x l Hx _ IH]; simpl; [reflexivity|].
  now rewrite length_app, Hx, IH.
Qed.

(** X30: the statement of [BulkInsert].  The columns are those of the
    insertable fields of the first model; for models that all point to
    structs of that type the call hands over one INSERT with one group of
    markers for each model and the values of the insertable fields, model
    after model, as arguments: as many as there are markers when no name
    has a [?] in it.  Without an insertable field the call returns a fault,
    an empty slice does nothing, and when some model is no pointer to a
    struct nothing at all is handed to the transaction. *)
Theorem BulkInsert_statement `{UnicodeTables} q models :
  (forall first more typ,
     models = first :: more -> Forall (pointsTo typ) models ->
     let k := length (List.filter insertable typ) in
     let group := "(" ++ GoStrings.Join (repeat "?" k) ", " ++ ")" in
     let insert :=
       "INSERT INTO " ++ TableName (asModel first)
         ++ " (" ++ GoStrings.Join (map columnOf (List.filter insertable typ)) ", "
         ++ ") VALUES " ++ GoStrings.Join (repeat group (length models)) ", " in
     let query :=
       match txFlavor q with
       | FlavorMySQL => insert
       | FlavorPostgres => convertPostgresPlaceholder insert
       end in
     let args := concat (map (fun m => insertedValues typ (valsOf m)) models) in
     (k = 0%nat -> BulkInsert q models = ([], Returns (Some NoInsertableFields))) /\
     (k <> 0%nat ->
      BulkInsert q models
      = ([(query, args)],
         Returns match ExecContext (tx q) query args with
                 | inl err => Some (Fault err)
                 | inr _ => None
                 end)) /\
     length args = (length models * k)%nat /\
     (Count (TableName (asModel first)) "?" = 0%nat ->
      markersIn (map columnOf (List.filter insertable typ)) = 0%nat ->
      Count insert "?" = length args)) /\
  (forall m, In m models -> (forall typ vals, shape m <> PtrToStruct typ vals) ->
     (BulkInsert q models).1 = []) /\
  (models = [] -> BulkInsert q models = ([], Returns None)).
Proof.
  split; [|split].
  - intros first more typ -> Hall. cbv zeta.
    inversion Hall as [|m l (vals & Hshape & Hlen) Hrest]; subst.
    assert (Hargs : length (concat (map (fun m => insertedValues typ (valsOf m))
                                      (first :: more)))
                    = (length (first :: more)
                       * length (List.filter insertable typ))%nat).
    { apply length_concat_rows.
      eapply Forall_impl; [exact Hall|].
      intros m (vals' & Hshape' & Hlen'). unfold valsOf. rewrite Hshape'.
      unfold insertedValues. rewrite length_map. clear -Hlen'.
      revert vals' Hlen'. induction typ as [|f typ IH]; intros [|v vals'] Hlen;
        try discriminate; [reflexivity|].
      injection Hlen as Hlen. simpl. destruct (insertable f); simpl;
        now rewrite IH. }
    split; [|split; [|split]].
    + intros Hk. unfold BulkInsert. rewrite Hshape.
      rewrite bulkFields_spec. simpl app.
      rewrite length_map, Hk. reflexivity.
    + intros Hk. unfold BulkInsert. rewrite Hshape.
      rewrite bulkFields_spec. simpl app.
      rewrite length_map.
      destruct (Nat.eqb_spec (length (List.filter insertable typ)) 0);
        [contradiction|].
      rewrite (bulkModels_spec typ (first :: more) [] [] Hall). simpl app.
      now destruct (txFlavor q).
    + exact Hargs.
    + intros Htable Hcols.
      rewrite !Count_app, Count_Join, Count_groups, Htable, Hcols, Hargs
        by reflexivity.
      rewrite !Count_app, Count_placeholders. simpl. lia.
  - intros m Hin Hbad. unfold BulkInsert.
    destruct models as [|first more]; [reflexivity|].
    destruct (shape first) as [| |typ vals|]; try reflexivity.
    destruct (bulkFields 0 typ [] []) as [cols idxs].
    destruct (length cols =? 0)%nat; [reflexivity|].
    destruct (bulkModels_refuses (first :: more) idxs [] [] m Hin Hbad) as [e ->].
    reflexivity.
  - now intros ->.
Qed.

Lemma BulkInsert_statement_witness :
  let id := {| Name := "ID"; PkgPath := ""; sqlTag := "column:id;primaryKey";
               fieldKind := KInt 64 |} in
  let name := {| Name := "Name"; PkgPath := ""; sqlTag := "";
                 fieldKind := KString |} in
  let age := {| Name := "Age"; PkgPath := ""; sqlTag := "column:age";
                fieldKind := KInt 64 |} in
  let row vals := {| asModel := users;
                     shape := PtrToStruct [id; name; age] vals |} in
  let q := {| tx := {| ExecContext := fun _ _ => inr (inr 0%Z);
                       QueryRowScan := fun _ _ => inr VNil |};
              txFlavor := FlavorPostgres |} in
  @BulkInsert asciiOnly q
    [row [VInt 0; VStr "Ann"; VInt 41]; row [VInt 0; VStr "Bea"; VInt 29]]
  = ([("INSERT INTO users (name, age) VALUES ($1, $2), ($3, $4)",
       [VStr "Ann"; VInt 41; VStr "Bea"; VInt 29])],
     Returns None).
Proof.
  intros id name age row q.
  refine (proj1 (proj2 (proj1 (@BulkInsert_statement asciiOnly q
            [row [VInt 0; VStr "Ann"; VInt 41]; row [VInt 0; VStr "Bea"; VInt 29]])
            (row [VInt 0; VStr "Ann"; VInt 41])
            [row [VInt 0; VStr "Bea"; VInt 29]] [id; name; age] eq_refl _)) _).
  - repeat constructor; eexists; split; reflexivity.
  - discriminate.
Defined.
